(** * CesiumTS core: packable value types, bounding volumes, the associative
      array and the simulated clock, embedded from the TypeScript sources. *)

From Stdlib Require Import QArith Qcanon Qminmax Qabs Qround Qpower Lqa Lia.
From stdpp Require Import gmap strings list fin_maps.

(* ===================================================================== *)
(** * Part I.  The embedding                                              *)
(* ===================================================================== *)

(** ** JavaScript numbers and number buffers *)

Module JS.

Local Open Scope Q_scope.

(** A JavaScript [number] is a double.  A finite double is embedded as the
    rational it denotes; comparisons, [Math.min], [Math.max], [Math.abs]
    and unary minus are exact on doubles, and [+], [-], [*] and [/] round
    to the nearest double ([add], [sub], [mul] and [div] below).  NaN, the
    infinities and the limits of the exponent range stay outside the
    model. *)
Definition number : Type := Q.

(** *** Rounding *)

(** [2 ** k]. *)
Definition pow2 (k : Z) : Q := 2 ^ k.

(** The integer nearest to [x], the even one of the two when [x] lies
    halfway between them. *)
Definition roundHalfEven (x : Q) : Z :=
  let f := Qfloor x in
  match Qcompare (x - inject_Z f) (1 # 2) with
  | Lt => f
  | Gt => (f + 1)%Z
  | Eq => if Z.even f then f else (f + 1)%Z
  end.

(** The exponent of a positive rational: the [k] with
    [2 ** k <= q < 2 ** (k + 1)]. *)
Definition exponent (q : Q) : Z :=
  let k := (Z.log2 (Qnum q) - Z.log2 (Z.pos (Qden q)))%Z in
  if Qle_bool (pow2 k) q then k else (k - 1)%Z.

(** A positive rational rounded to a significand of [precision] bits,
    nearest, ties to even. *)
Definition roundPositive (precision : Z) (q : Q) : Q :=
  let e := (exponent q - (precision - 1))%Z in
  inject_Z (roundHalfEven (q * pow2 (- e))) * pow2 e.

Definition round (precision : Z) (q : Q) : Q :=
  match Qcompare q 0 with
  | Eq => 0
  | Gt => roundPositive precision q
  | Lt => - roundPositive precision (- q)
  end.

(** The double nearest to a rational: what a numeric literal denotes and
    what an arithmetic operation returns. *)
Definition binary64 : Q -> number := round 53.

(** [Math.fround]: the single-precision number nearest to a double. *)
Definition fround : number -> number := round 24.

(** [a + b], [a - b], [a * b] and [a / b]. *)
Definition add (a b : number) : number := binary64 (a + b).
Definition sub (a b : number) : number := binary64 (a - b).
Definition mul (a b : number) : number := binary64 (a * b).
Definition div (a b : number) : number := binary64 (a / b).

(** The rationals that are doubles. *)
Definition isDouble (q : Q) : Prop := binary64 q == q.

(** [2 ** -53]: rounding to the nearest double moves a number by at most
    this fraction of its magnitude. *)
Definition unitRoundoff : Q := 1 # 9007199254740992.

(** *** Buffers *)

(** The element types of the typed arrays that hold numbers. *)
Inductive elementType : Type :=
| Int8
| Uint8
| Uint8Clamped
| Int16
| Uint16
| Int32
| Uint32
| Float32
| Float64.

(** The integer typed arrays drop the fraction of a number and keep the
    low [bits] bits of the rest, read as signed or as unsigned. *)
Definition toInteger (bits : Z) (signed : bool) (v : number) : number :=
  let truncated := if Qle_bool 0 v then Qfloor v else Qceiling v in
  let m := (truncated mod 2 ^ bits)%Z in
  inject_Z (if signed && (2 ^ (bits - 1) <=? m)%Z then m - 2 ^ bits else m).

(** [Uint8ClampedArray] clamps to 0..255 and rounds, ties to even. *)
Definition toUint8Clamped (v : number) : number :=
  if Qle_bool v 0 then 0
  else if Qle_bool 255 v then 255
  else inject_Z (roundHalfEven v).

(** What an element of the given type holds after [v] is assigned to it. *)
Definition convert (t : elementType) (v : number) : number :=
  match t with
  | Int8 => toInteger 8 true v
  | Uint8 => toInteger 8 false v
  | Uint8Clamped => toUint8Clamped v
  | Int16 => toInteger 16 true v
  | Uint16 => toInteger 16 false v
  | Int32 => toInteger 32 true v
  | Uint32 => toInteger 32 false v
  | Float32 => fround v
  | Float64 => v
  end.

(** The target of [pack] and the source of [unpack]: "any mutable,
    randomly-indexable sequence of numbers".  A plain [Array] grows on a
    write past its end and leaves holes that read as [undefined]; a typed
    array has a fixed length, ignores writes outside it and converts what
    is written to its element type. *)
Inductive array : Type :=
| PlainArray (elements : list (option number))
| TypedArray (type : elementType) (elements : list number).

(** [array[i]]: [None] is JavaScript's [undefined]. *)
Definition get (a : array) (i : nat) : option number :=
  match a with
  | PlainArray l => mjoin (l !! i)
  | TypedArray _ l => l !! i
  end.

(** The number an element of [a] holds after [v] is assigned to it. *)
Definition stored (a : array) (v : number) : number :=
  match a with
  | PlainArray _ => v
  | TypedArray t _ => convert t v
  end.

(** [array[i] = v]. *)
Definition set (a : array) (i : nat) (v : number) : array :=
  match a with
  | PlainArray l =>
      if decide (i < List.length l)%nat
      then PlainArray (<[i:=Some v]> l)
      else PlainArray (l ++ replicate (i - List.length l) None ++ [Some v])
  | TypedArray t l => TypedArray t (<[i:=convert t v]> l)
  end.

(** A buffer is large enough for [n] components at offset [i] when it can
    grow, or when the [n] slots lie inside its fixed length. *)
Definition largeEnough (a : array) (i n : nat) : Prop :=
  match a with
  | PlainArray _ => True
  | TypedArray _ l => (i + n <= List.length l)%nat
  end.

(** The buffers that hold every number as it is: plain arrays and
    [Float64Array]. *)
Definition storesExactly (a : array) : Prop :=
  match a with
  | PlainArray _ => True
  | TypedArray t _ => t = Float64
  end.

(** [array.length]. *)
Definition length (a : array) : nat :=
  match a with
  | PlainArray l => List.length l
  | TypedArray _ l => List.length l
  end.

(** [Array.isArray(array)]: true of plain arrays, false of typed arrays. *)
Definition isArray (a : array) : bool :=
  match a with
  | PlainArray _ => true
  | TypedArray _ _ => false
  end.

(** [new Array(n)]: [n] holes. *)
Definition newArray (n : nat) : array := PlainArray (replicate n None).

(** [array.length = n] on a plain array: elements past [n] are dropped,
    missing ones become holes.  (The length of a typed array cannot be
    assigned; the sources assign it to plain arrays only.) *)
Definition setLength (a : array) (n : nat) : array :=
  match a with
  | PlainArray l => PlainArray (take n l ++ replicate (n - List.length l) None)
  | TypedArray t l => TypedArray t l
  end.

End JS.

(** ** Check *)

Module Check.

Local Open Scope Q_scope.

(** What a failed check throws.  The messages of the source are templates
    over the name of the argument and the numbers compared, for instance
    "Expected row to be less than or equal to 1, actual value was 2"; the
    error keeps the name and the numbers, or the text where it is fixed. *)
Inductive DeveloperError : Type :=
| ExpectedLessThan (name : string) (limit test : JS.number)
| ExpectedLessThanOrEquals (name : string) (limit test : JS.number)
| ExpectedGreaterThan (name : string) (limit test : JS.number)
| ExpectedGreaterThanOrEquals (name : string) (limit test : JS.number)
| ExpectedEqual (name1 name2 : string) (test1 test2 : JS.number)
| Message (text : string).

(** An exception: a [DeveloperError], or the [RangeError] of the run time
    for an array length that is not an integer. *)
Inductive exception : Type :=
| Developer (e : DeveloperError)
| RangeError.

(** What a call does: return a value or throw. *)
Inductive outcome (A : Type) : Type :=
| Returns (a : A)
| Throws (e : exception).

Arguments Returns {A} a.
Arguments Throws {A} e.

(** The checks take arguments typed [number], on which [typeof test !==
    "number"] is false; [None] means that nothing is thrown. *)

(** [Check.typeOf.number.lessThan(name, test, limit)]. *)
Definition lessThan (name : string) (test limit : JS.number)
  : option DeveloperError :=
  if Qle_bool limit test then Some (ExpectedLessThan name limit test)
  else None.

(** [Check.typeOf.number.lessThanOrEquals(name, test, limit)]. *)
Definition lessThanOrEquals (name : string) (test limit : JS.number)
  : option DeveloperError :=
  if negb (Qle_bool test limit)
  then Some (ExpectedLessThanOrEquals name limit test)
  else None.

(** [Check.typeOf.number.greaterThan(name, test, limit)]. *)
Definition greaterThan (name : string) (test limit : JS.number)
  : option DeveloperError :=
  if Qle_bool test limit then Some (ExpectedGreaterThan name limit test)
  else None.

(** [Check.typeOf.number.greaterThanOrEquals(name, test, limit)]. *)
Definition greaterThanOrEquals (name : string) (test limit : JS.number)
  : option DeveloperError :=
  if negb (Qle_bool limit test)
  then Some (ExpectedGreaterThanOrEquals name limit test)
  else None.

(** [Check.typeOf.number.equals(name1, name2, test1, test2)]. *)
Definition equals (name1 name2 : string) (test1 test2 : JS.number)
  : option DeveloperError :=
  if negb (Qeq_bool test1 test2)
  then Some (ExpectedEqual name1 name2 test1 test2)
  else None.

(** Checks in the order of the source: the first that fails is thrown.
    They stand between [debug] pragmas and exist in validated builds
    only. *)
Fixpoint firstFailure (checks : list (option DeveloperError))
  : option DeveloperError :=
  match checks with
  | [] => None
  | Some e :: _ => Some e
  | None :: checks => firstFailure checks
  end.

Definition guarded {A : Type} (validated : bool)
    (checks : list (option DeveloperError)) (body : outcome A) : outcome A :=
  if validated then
    match firstFailure checks with
    | Some e => Throws (Developer e)
    | None => body
    end
  else body.

(** An index, as the number the checks compare. *)
Definition ofIndex (i : nat) : JS.number := inject_Z (Z.of_nat i).

End Check.

(** ** Cartesian2 *)

Module Cartesian2.

(** Modelled from the spec: the Cartesian2 class is imported by the sources
    but is not among them.  It is the "fixed-size vector type" with ordered
    numeric components x, y. *)
Record Cartesian2 : Type := mk {
  x : JS.number;
  y : JS.number
}.

End Cartesian2.

(** ** Intersect *)

(** Modelled from the spec: the Intersect enumeration is not among the
    sources; its three states are "fully inside", "intersecting" and
    "fully outside". *)
Inductive Intersect : Type :=
| OUTSIDE
| INTERSECTING
| INSIDE.

(** ** Matrix2 *)

Module Matrix2.

(** [this[0]] .. [this[3]], column-major. *)
Record Matrix2 : Type := mk {
  m0 : JS.number;
  m1 : JS.number;
  m2 : JS.number;
  m3 : JS.number
}.

Definition packedLength : nat := 4.

(** [new Matrix2(column0Row0 = 0.0, column1Row0 = 0.0, column0Row1 = 0.0,
    column1Row1 = 0.0)]: the arguments come in row-major order, an omitted
    argument takes its default. *)
Definition new (column0Row0 column1Row0 column0Row1 column1Row1 : option JS.number)
  : Matrix2 :=
  {| m0 := default 0%Q column0Row0;
     m1 := default 0%Q column0Row1;
     m2 := default 0%Q column1Row0;
     m3 := default 0%Q column1Row1 |}.

Definition set0 (m : Matrix2) (v : JS.number) : Matrix2 :=
  {| m0 := v; m1 := m1 m; m2 := m2 m; m3 := m3 m |}.
Definition set1 (m : Matrix2) (v : JS.number) : Matrix2 :=
  {| m0 := m0 m; m1 := v; m2 := m2 m; m3 := m3 m |}.
Definition set2 (m : Matrix2) (v : JS.number) : Matrix2 :=
  {| m0 := m0 m; m1 := m1 m; m2 := v; m3 := m3 m |}.
Definition set3 (m : Matrix2) (v : JS.number) : Matrix2 :=
  {| m0 := m0 m; m1 := m1 m; m2 := m2 m; m3 := v |}.

(** [Matrix2.pack(value, array, startingIndex = 0)]. *)
Definition pack (value : Matrix2) (array : JS.array) (startingIndex : nat)
  : JS.array :=
  let array := JS.set array startingIndex (m0 value) in
  let startingIndex := S startingIndex in
  let array := JS.set array startingIndex (m1 value) in
  let startingIndex := S startingIndex in
  let array := JS.set array startingIndex (m2 value) in
  let startingIndex := S startingIndex in
  let array := JS.set array startingIndex (m3 value) in
  array.

(** [value] with each element as a slot of [array] holds it. *)
Definition storedIn (array : JS.array) (value : Matrix2) : Matrix2 :=
  {| m0 := JS.stored array (m0 value);
     m1 := JS.stored array (m1 value);
     m2 := JS.stored array (m2 value);
     m3 := JS.stored array (m3 value) |}.

(** [Matrix2.unpack(array, startingIndex = 0, result?)].  The answer is
    [None] when one of the four reads yields [undefined], a component the
    typed record cannot hold. *)
Definition unpack (array : JS.array) (startingIndex : nat)
    (result : option Matrix2) : option Matrix2 :=
  let result :=
    match result with
    | Some r => r
    | None => new None None None None
    end in
  v ← JS.get array startingIndex;
  let result := set0 result v in
  let startingIndex := S startingIndex in
  v ← JS.get array startingIndex;
  let result := set1 result v in
  let startingIndex := S startingIndex in
  v ← JS.get array startingIndex;
  let result := set2 result v in
  let startingIndex := S startingIndex in
  v ← JS.get array startingIndex;
  let result := set3 result v in
  Some result.

(** [Matrix2Like], the declared type of what [clone] duplicates: "matrix-like
    objects", a Matrix2 or any array of numbers, of whatever length. *)
Inductive Matrix2Like : Type :=
| LikeMatrix2 (matrix : Matrix2)
| LikeArray (array : JS.array).

(** [matrix[i]]; [None] is [undefined], read where the object has no
    element [i]. *)
Definition element (matrix : Matrix2Like) (i : nat) : option JS.number :=
  match matrix with
  | LikeMatrix2 m =>
      match i with
      | 0%nat => Some (m0 m)
      | 1%nat => Some (m1 m)
      | 2%nat => Some (m2 m)
      | 3%nat => Some (m3 m)
      | _ => None
      end
  | LikeArray a => JS.get a i
  end.

(** All four elements are there. *)
Definition complete (matrix : Matrix2Like) : Prop :=
  forall i, (i < 4)%nat -> is_Some (element matrix i).

(** What [clone] returns: [undefined], a Matrix2 of four numbers, or a
    Matrix2 object into which an [undefined] was copied, which the typed
    record cannot hold. *)
Inductive cloned : Type :=
| ReturnsUndefined
| ReturnsMatrix2 (m : Matrix2)
| ReturnsIncomplete.

(** [Matrix2.clone(matrix, result?)]; [matrix] may be [undefined]. *)
Definition clone (matrix : option Matrix2Like) (result : option Matrix2)
  : cloned :=
  match matrix with
  | None => ReturnsUndefined
  | Some matrix =>
      match result with
      | None =>
          ReturnsMatrix2
            (new (element matrix 0) (element matrix 2)
                 (element matrix 1) (element matrix 3))
      | Some result =>
          let copied :=
            v ← element matrix 0;
            let result := set0 result v in
            v ← element matrix 1;
            let result := set1 result v in
            v ← element matrix 2;
            let result := set2 result v in
            v ← element matrix 3;
            let result := set3 result v in
            Some result in
          match copied with
          | Some result => ReturnsMatrix2 result
          | None => ReturnsIncomplete
          end
      end
  end.

(** *** The rest of Matrix2 *)

Local Open Scope Q_scope.

Definition IDENTITY : Matrix2 := new (Some 1) (Some 0) (Some 0) (Some 1).

Definition ZERO : Matrix2 := new (Some 0) (Some 0) (Some 0) (Some 0).

(** [matrix[i]] on a Matrix2. *)
Definition get (matrix : Matrix2) (i : nat) : option JS.number :=
  element (LikeMatrix2 matrix) i.

(** [result[i] = v]: past the four slots the assignment adds a property
    beside them and leaves the matrix as it is. *)
Definition put (result : Matrix2) (i : nat) (v : JS.number) : Matrix2 :=
  match i with
  | 0%nat => set0 result v
  | 1%nat => set1 result v
  | 2%nat => set2 result v
  | 3%nat => set3 result v
  | _ => result
  end.

(** [Matrix2.fromArray(array, startingIndex?, result?)]. *)
Definition fromArray (array : JS.array) (startingIndex : nat)
    (result : option Matrix2) : option Matrix2 :=
  unpack array startingIndex result.

(** [Matrix2.fromColumnMajorArray(values, result?)]. *)
Definition fromColumnMajorArray (values : JS.array) (result : option Matrix2)
  : cloned :=
  clone (Some (LikeArray values)) result.

(** [Matrix2.fromRowMajorArray(values, result?)]. *)
Definition fromRowMajorArray (values : JS.array) (result : option Matrix2)
  : cloned :=
  match result with
  | None =>
      ReturnsMatrix2
        (new (JS.get values 0) (JS.get values 1)
             (JS.get values 2) (JS.get values 3))
  | Some result =>
      let copied :=
        v ← JS.get values 0;
        let result := set0 result v in
        v ← JS.get values 2;
        let result := set1 result v in
        v ← JS.get values 1;
        let result := set2 result v in
        v ← JS.get values 3;
        let result := set3 result v in
        Some result in
      match copied with
      | Some result => ReturnsMatrix2 result
      | None => ReturnsIncomplete
      end
  end.

(** [Matrix2.fromScale(scale, result?)]. *)
Definition fromScale (scale : Cartesian2.Cartesian2) (result : option Matrix2)
  : Matrix2 :=
  match result with
  | None =>
      new (Some (Cartesian2.x scale)) (Some 0) (Some 0)
          (Some (Cartesian2.y scale))
  | Some result =>
      let result := set0 result (Cartesian2.x scale) in
      let result := set1 result 0 in
      let result := set2 result 0 in
      let result := set3 result (Cartesian2.y scale) in
      result
  end.

(** [Matrix2.fromUniformScale(scale, result?)]. *)
Definition fromUniformScale (scale : JS.number) (result : option Matrix2)
  : Matrix2 :=
  match result with
  | None => new (Some scale) (Some 0) (Some 0) (Some scale)
  | Some result =>
      let result := set0 result scale in
      let result := set1 result 0 in
      let result := set2 result 0 in
      let result := set3 result scale in
      result
  end.

(** [Matrix2.toArray(matrix, result?)]. *)
Definition toArray (matrix : Matrix2) (result : option JS.array) : JS.array :=
  match result with
  | None =>
      JS.PlainArray
        [Some (m0 matrix); Some (m1 matrix); Some (m2 matrix); Some (m3 matrix)]
  | Some result =>
      let result := JS.set result 0 (m0 matrix) in
      let result := JS.set result 1 (m1 matrix) in
      let result := JS.set result 2 (m2 matrix) in
      let result := JS.set result 3 (m3 matrix) in
      result
  end.

(** [Matrix2.multiply(left, right, result)].  The four products are
    computed before [result] is written, so [result] may be [left] or
    [right]. *)
Definition multiply (left right result : Matrix2) : Matrix2 :=
  let column0Row0 :=
    JS.add (JS.mul (m0 left) (m0 right)) (JS.mul (m2 left) (m1 right)) in
  let column1Row0 :=
    JS.add (JS.mul (m0 left) (m2 right)) (JS.mul (m2 left) (m3 right)) in
  let column0Row1 :=
    JS.add (JS.mul (m1 left) (m0 right)) (JS.mul (m3 left) (m1 right)) in
  let column1Row1 :=
    JS.add (JS.mul (m1 left) (m2 right)) (JS.mul (m3 left) (m3 right)) in
  let result := set0 result column0Row0 in
  let result := set1 result column0Row1 in
  let result := set2 result column1Row0 in
  let result := set3 result column1Row1 in
  result.

(** [Matrix2.add(left, right, result)]. *)
Definition add (left right result : Matrix2) : Matrix2 :=
  let result := set0 result (JS.add (m0 left) (m0 right)) in
  let result := set1 result (JS.add (m1 left) (m1 right)) in
  let result := set2 result (JS.add (m2 left) (m2 right)) in
  let result := set3 result (JS.add (m3 left) (m3 right)) in
  result.

(** [Matrix2.subtract(left, right, result)]. *)
Definition subtract (left right result : Matrix2) : Matrix2 :=
  let result := set0 result (JS.sub (m0 left) (m0 right)) in
  let result := set1 result (JS.sub (m1 left) (m1 right)) in
  let result := set2 result (JS.sub (m2 left) (m2 right)) in
  let result := set3 result (JS.sub (m3 left) (m3 right)) in
  result.

(** [Matrix2.multiplyByVector(matrix, cartesian, result)]. *)
Definition multiplyByVector (matrix : Matrix2)
    (cartesian result : Cartesian2.Cartesian2) : Cartesian2.Cartesian2 :=
  let x :=
    JS.add (JS.mul (m0 matrix) (Cartesian2.x cartesian))
           (JS.mul (m2 matrix) (Cartesian2.y cartesian)) in
  let y :=
    JS.add (JS.mul (m1 matrix) (Cartesian2.x cartesian))
           (JS.mul (m3 matrix) (Cartesian2.y cartesian)) in
  {| Cartesian2.x := x; Cartesian2.y := y |}.

(** [Matrix2.multiplyByScalar(matrix, scalar, result)]. *)
Definition multiplyByScalar (matrix : Matrix2) (scalar : JS.number)
    (result : Matrix2) : Matrix2 :=
  let result := set0 result (JS.mul (m0 matrix) scalar) in
  let result := set1 result (JS.mul (m1 matrix) scalar) in
  let result := set2 result (JS.mul (m2 matrix) scalar) in
  let result := set3 result (JS.mul (m3 matrix) scalar) in
  result.

(** [Matrix2.multiplyByScale(matrix, scale, result)]. *)
Definition multiplyByScale (matrix : Matrix2) (scale : Cartesian2.Cartesian2)
    (result : Matrix2) : Matrix2 :=
  let result := set0 result (JS.mul (m0 matrix) (Cartesian2.x scale)) in
  let result := set1 result (JS.mul (m1 matrix) (Cartesian2.x scale)) in
  let result := set2 result (JS.mul (m2 matrix) (Cartesian2.y scale)) in
  let result := set3 result (JS.mul (m3 matrix) (Cartesian2.y scale)) in
  result.

(** [Matrix2.multiplyByUniformScale(matrix, scale, result)]. *)
Definition multiplyByUniformScale (matrix : Matrix2) (scale : JS.number)
    (result : Matrix2) : Matrix2 :=
  let result := set0 result (JS.mul (m0 matrix) scale) in
  let result := set1 result (JS.mul (m1 matrix) scale) in
  let result := set2 result (JS.mul (m2 matrix) scale) in
  let result := set3 result (JS.mul (m3 matrix) scale) in
  result.

(** [Matrix2.negate(matrix, result)]. *)
Definition negate (matrix result : Matrix2) : Matrix2 :=
  let result := set0 result (- m0 matrix) in
  let result := set1 result (- m1 matrix) in
  let result := set2 result (- m2 matrix) in
  let result := set3 result (- m3 matrix) in
  result.

(** [Matrix2.transpose(matrix, result)]; the four elements are read before
    [result] is written. *)
Definition transpose (matrix result : Matrix2) : Matrix2 :=
  let column0Row0 := m0 matrix in
  let column0Row1 := m2 matrix in
  let column1Row0 := m1 matrix in
  let column1Row1 := m3 matrix in
  let result := set0 result column0Row0 in
  let result := set1 result column0Row1 in
  let result := set2 result column1Row0 in
  let result := set3 result column1Row1 in
  result.

(** [Matrix2.abs(matrix, result)]. *)
Definition abs (matrix result : Matrix2) : Matrix2 :=
  let result := set0 result (Qabs (m0 matrix)) in
  let result := set1 result (Qabs (m1 matrix)) in
  let result := set2 result (Qabs (m2 matrix)) in
  let result := set3 result (Qabs (m3 matrix)) in
  result.

(** [Matrix2.equals(left?, right?)].  [left === right] holds of one object
    compared with itself and of two [undefined]; on numbers it is numeric
    equality, so that one object is componentwise equal to itself. *)
Definition equals (left right : option Matrix2) : bool :=
  match left, right with
  | None, None => true
  | Some l, Some r =>
      Qeq_bool (m0 l) (m0 r) &&
      Qeq_bool (m1 l) (m1 r) &&
      Qeq_bool (m2 l) (m2 r) &&
      Qeq_bool (m3 l) (m3 r)
  | _, _ => false
  end.

(** The matrices the source computes with: each element is a double. *)
Definition ofDoubles (matrix : Matrix2) : Prop :=
  JS.isDouble (m0 matrix) /\ JS.isDouble (m1 matrix) /\
  JS.isDouble (m2 matrix) /\ JS.isDouble (m3 matrix).

(** [x === array[i]] for a number [x]: false of [undefined]. *)
Definition sameNumber (x : JS.number) (y : option JS.number) : bool :=
  match y with
  | Some y => Qeq_bool x y
  | None => false
  end.

(** [Matrix2.equalsArray(matrix, array, offset)]. *)
Definition equalsArray (matrix : Matrix2) (array : JS.array) (offset : nat)
  : bool :=
  sameNumber (m0 matrix) (JS.get array offset) &&
  sameNumber (m1 matrix) (JS.get array (offset + 1)) &&
  sameNumber (m2 matrix) (JS.get array (offset + 2)) &&
  sameNumber (m3 matrix) (JS.get array (offset + 3)).

(** The loop of [packArray]: [Matrix2.pack(array[i], result, i * 4)] for
    [i] from the index of the first matrix of [array] on. *)
Fixpoint packFrom (array : list Matrix2) (result : JS.array) (i : nat)
  : JS.array :=
  match array with
  | [] => result
  | matrix :: array => packFrom array (pack matrix result (i * 4)) (S i)
  end.

(** The loop of [unpackArray]: [result[index] = Matrix2.unpack(array, i,
    result[index])] for [count] steps of four from [i]; an entry is [None]
    where the matrix unpacked has an [undefined] component. *)
Fixpoint unpackFrom (array : JS.array) (result : list (option Matrix2))
    (i count : nat) : list (option Matrix2) :=
  match count with
  | O => []
  | S count =>
      let index := (i / 4)%nat in
      unpack array i (mjoin (result !! index))
      :: unpackFrom array result (i + 4) count
  end.

Section Validated.

(** The build: [validated] is true where the checks between the [debug]
    pragmas are compiled in. *)
Variable validated : bool.

(** [Matrix2.getElementIndex(column, row)]. *)
Definition getElementIndex (column row : nat) : Check.outcome nat :=
  Check.guarded validated
    [Check.greaterThanOrEquals "row" (Check.ofIndex row) 0;
     Check.lessThanOrEquals "row" (Check.ofIndex row) 1;
     Check.greaterThanOrEquals "column" (Check.ofIndex column) 0;
     Check.lessThanOrEquals "column" (Check.ofIndex column) 1]
    (Check.Returns (column * 2 + row)%nat).

(** [Matrix2.getColumn(matrix, index, result)]; [Returns None]: a result
    one of whose components is [undefined]. *)
Definition getColumn (matrix : Matrix2) (index : nat)
    (result : Cartesian2.Cartesian2)
  : Check.outcome (option Cartesian2.Cartesian2) :=
  Check.guarded validated
    [Check.greaterThanOrEquals "index" (Check.ofIndex index) 0;
     Check.lessThanOrEquals "index" (Check.ofIndex index) 1]
    (let startIndex := (index * 2)%nat in
     Check.Returns
       (x ← get matrix startIndex;
        y ← get matrix (startIndex + 1);
        Some {| Cartesian2.x := x; Cartesian2.y := y |})).

(** [Matrix2.setColumn(matrix, index, cartesian, result)]. *)
Definition setColumn (matrix : Matrix2) (index : nat)
    (cartesian : Cartesian2.Cartesian2) (result : Matrix2)
  : Check.outcome Matrix2 :=
  Check.guarded validated
    [Check.greaterThanOrEquals "index" (Check.ofIndex index) 0;
     Check.lessThanOrEquals "index" (Check.ofIndex index) 1]
    (match clone (Some (LikeMatrix2 matrix)) (Some result) with
     | ReturnsMatrix2 result =>
         let startIndex := (index * 2)%nat in
         let result := put result startIndex (Cartesian2.x cartesian) in
         let result := put result (startIndex + 1) (Cartesian2.y cartesian) in
         Check.Returns result
     | _ => Check.Returns result
     end).

(** [Matrix2.getRow(matrix, index, result)]. *)
Definition getRow (matrix : Matrix2) (index : nat)
    (result : Cartesian2.Cartesian2)
  : Check.outcome (option Cartesian2.Cartesian2) :=
  Check.guarded validated
    [Check.greaterThanOrEquals "index" (Check.ofIndex index) 0;
     Check.lessThanOrEquals "index" (Check.ofIndex index) 1]
    (Check.Returns
       (x ← get matrix index;
        y ← get matrix (index + 2);
        Some {| Cartesian2.x := x; Cartesian2.y := y |})).

(** [Matrix2.setRow(matrix, index, cartesian, result)]. *)
Definition setRow (matrix : Matrix2) (index : nat)
    (cartesian : Cartesian2.Cartesian2) (result : Matrix2)
  : Check.outcome Matrix2 :=
  Check.guarded validated
    [Check.greaterThanOrEquals "index" (Check.ofIndex index) 0;
     Check.lessThanOrEquals "index" (Check.ofIndex index) 1]
    (match clone (Some (LikeMatrix2 matrix)) (Some result) with
     | ReturnsMatrix2 result =>
         let result := put result index (Cartesian2.x cartesian) in
         let result := put result (index + 2) (Cartesian2.y cartesian) in
         Check.Returns result
     | _ => Check.Returns result
     end).

(** [Matrix2.packArray(array, result?)]. *)
Definition packArray (array : list Matrix2) (result : option JS.array)
  : Check.outcome JS.array :=
  let length := List.length array in
  let resultLength := (length * 4)%nat in
  match result with
  | None => Check.Returns (packFrom array (JS.newArray resultLength) 0)
  | Some result =>
      if negb (JS.isArray result) &&
         negb (JS.length result =? resultLength)%nat
      then
        if validated
        then Check.Throws
               (Check.Developer
                  (Check.Message
                     "If result is a typed array, it must have exactly array.length * 4 elements"))
        else Check.Returns (packFrom array result 0)
      else if negb (JS.length result =? resultLength)%nat
      then Check.Returns (packFrom array (JS.setLength result resultLength) 0)
      else Check.Returns (packFrom array result 0)
  end.

(** [Matrix2.unpackArray(array, result?)].  A length that is not a multiple
    of four makes [length / 4] a fraction, which neither [new Array] nor
    an assignment to [result.length] accepts. *)
Definition unpackArray (array : JS.array)
    (result : option (list (option Matrix2)))
  : Check.outcome (list (option Matrix2)) :=
  Check.guarded validated
    [Check.greaterThanOrEquals "array.length"
       (Check.ofIndex (JS.length array)) 4;
     if negb (JS.length array mod 4 =? 0)%nat
     then Some (Check.Message "array length must be a multiple of 4.")
     else None]
    (let length := JS.length array in
     if negb (length mod 4 =? 0)%nat then Check.Throws Check.RangeError
     else
       let result :=
         match result with
         | None => replicate (length / 4) None
         | Some result =>
             take (length / 4) result
             ++ replicate (length / 4 - List.length result) None
         end in
       Check.Returns (unpackFrom array result 0 (length / 4))).

End Validated.

End Matrix2.

(** ** BoundingRectangle *)

Module BoundingRectangle.

Local Open Scope Q_scope.

Record BoundingRectangle : Type := mk {
  x : JS.number;
  y : JS.number;
  width : JS.number;
  height : JS.number
}.

Definition packedLength : nat := 4.

(** [new BoundingRectangle(x = 0.0, y = 0.0, width = 0.0, height = 0.0)]. *)
Definition new (x y width height : option JS.number) : BoundingRectangle :=
  {| x := default 0%Q x;
     y := default 0%Q y;
     width := default 0%Q width;
     height := default 0%Q height |}.

Definition set_x (r : BoundingRectangle) (v : JS.number) : BoundingRectangle :=
  {| x := v; y := y r; width := width r; height := height r |}.
Definition set_y (r : BoundingRectangle) (v : JS.number) : BoundingRectangle :=
  {| x := x r; y := v; width := width r; height := height r |}.
Definition set_width (r : BoundingRectangle) (v : JS.number) : BoundingRectangle :=
  {| x := x r; y := y r; width := v; height := height r |}.
Definition set_height (r : BoundingRectangle) (v : JS.number) : BoundingRectangle :=
  {| x := x r; y := y r; width := width r; height := v |}.

(** [BoundingRectangle.pack(value, array, startingIndex = 0)]. *)
Definition pack (value : BoundingRectangle) (array : JS.array)
    (startingIndex : nat) : JS.array :=
  let array := JS.set array startingIndex (x value) in
  let startingIndex := S startingIndex in
  let array := JS.set array startingIndex (y value) in
  let startingIndex := S startingIndex in
  let array := JS.set array startingIndex (width value) in
  let startingIndex := S startingIndex in
  let array := JS.set array startingIndex (height value) in
  array.

(** [value] with each component as a slot of [array] holds it. *)
Definition storedIn (array : JS.array) (value : BoundingRectangle)
  : BoundingRectangle :=
  {| x := JS.stored array (x value);
     y := JS.stored array (y value);
     width := JS.stored array (width value);
     height := JS.stored array (height value) |}.

(** [BoundingRectangle.unpack(array, startingIndex = 0, result?)]; [None]
    when a component read is [undefined]. *)
Definition unpack (array : JS.array) (startingIndex : nat)
    (result : option BoundingRectangle) : option BoundingRectangle :=
  let result :=
    match result with
    | Some r => r
    | None => new None None None None
    end in
  v ← JS.get array startingIndex;
  let result := set_x result v in
  let startingIndex := S startingIndex in
  v ← JS.get array startingIndex;
  let result := set_y result v in
  let startingIndex := S startingIndex in
  v ← JS.get array startingIndex;
  let result := set_width result v in
  let startingIndex := S startingIndex in
  v ← JS.get array startingIndex;
  let result := set_height result v in
  Some result.

(** [BoundingRectangle.clone(rectangle, result?)]. *)
Definition clone (rectangle : option BoundingRectangle)
    (result : option BoundingRectangle) : option BoundingRectangle :=
  match rectangle with
  | None => None
  | Some rectangle =>
      match result with
      | None =>
          Some (new (Some (x rectangle)) (Some (y rectangle))
                    (Some (width rectangle)) (Some (height rectangle)))
      | Some result =>
          let result := set_x result (x rectangle) in
          let result := set_y result (y rectangle) in
          let result := set_width result (width rectangle) in
          let result := set_height result (height rectangle) in
          Some result
      end
  end.

(** [BoundingRectangle.union(left, right, result?)].  The four bounds are
    computed before [result] is written, so [result] may be [left] or
    [right] itself. *)
Definition union (left right : BoundingRectangle)
    (result : option BoundingRectangle) : BoundingRectangle :=
  let result :=
    match result with
    | Some r => r
    | None => new None None None None
    end in
  let lowerLeftX := Qmin (x left) (x right) in
  let lowerLeftY := Qmin (y left) (y right) in
  let upperRightX :=
    Qmax (JS.add (x left) (width left)) (JS.add (x right) (width right)) in
  let upperRightY :=
    Qmax (JS.add (y left) (height left)) (JS.add (y right) (height right)) in
  let result := set_x result lowerLeftX in
  let result := set_y result lowerLeftY in
  let result := set_width result (JS.sub upperRightX lowerLeftX) in
  let result := set_height result (JS.sub upperRightY lowerLeftY) in
  result.

(** The additions and subtractions of [union] are exact: the sums and the
    differences it forms are doubles. *)
Definition exactUnion (left right : BoundingRectangle) : Prop :=
  JS.isDouble (x left + width left) /\
  JS.isDouble (x right + width right) /\
  JS.isDouble (y left + height left) /\
  JS.isDouble (y right + height right) /\
  JS.isDouble (Qmax (x left + width left) (x right + width right)
               - Qmin (x left) (x right)) /\
  JS.isDouble (Qmax (y left + height left) (y right + height right)
               - Qmin (y left) (y right)).

(** A point lies within the extent
    [[r.x, r.x + r.width] x [r.y, r.y + r.height]]. *)
Definition inExtent (r : BoundingRectangle) (px py : JS.number) : Prop :=
  (x r <= px /\ px <= x r + width r) /\ (y r <= py /\ py <= y r + height r).

(** All four corners of [a] lie within the extent of [r]. *)
Definition containsCorners (r a : BoundingRectangle) : Prop :=
  inExtent r (x a) (y a) /\
  inExtent r (x a + width a) (y a) /\
  inExtent r (x a) (y a + height a) /\
  inExtent r (x a + width a) (y a + height a).

(** [r] with its right edge moved by [dx] and its upper edge by [dy]. *)
Definition widened (r : BoundingRectangle) (dx dy : Q) : BoundingRectangle :=
  {| x := x r; y := y r; width := width r + dx; height := height r + dy |}.

(** What the roundings of [union] can cost along one axis: the rounding of
    the sum [edge], and that of the difference that gives [size]. *)
Definition roundingSlack (edge size : Q) : Q :=
  JS.unitRoundoff * (Qabs edge + 2 * Qabs size).

(** *** The rest of BoundingRectangle *)

(** The four running bounds of the scan in [fromPoints]. *)
Record bounds : Type := mkBounds {
  minimumX : JS.number;
  minimumY : JS.number;
  maximumX : JS.number;
  maximumY : JS.number
}.

(** The body of [for (let i = 1; i < length; i++)], run over
    [positions[1..]]. *)
Fixpoint scan (positions : list Cartesian2.Cartesian2) (b : bounds) : bounds :=
  match positions with
  | [] => b
  | p :: positions =>
      let x := Cartesian2.x p in
      let y := Cartesian2.y p in
      scan positions
        {| minimumX := Qmin x (minimumX b);
           maximumX := Qmax x (maximumX b);
           minimumY := Qmin y (minimumY b);
           maximumY := Qmax y (maximumY b) |}
  end.

(** [BoundingRectangle.fromPoints(positions?, result?)]. *)
Definition fromPoints (positions : option (list Cartesian2.Cartesian2))
    (result : option BoundingRectangle) : BoundingRectangle :=
  let result :=
    match result with
    | Some r => r
    | None => new None None None None
    end in
  match positions with
  | None | Some [] =>
      let result := set_x result 0 in
      let result := set_y result 0 in
      let result := set_width result 0 in
      let result := set_height result 0 in
      result
  | Some (p0 :: rest) =>
      let b :=
        scan rest
          {| minimumX := Cartesian2.x p0;
             minimumY := Cartesian2.y p0;
             maximumX := Cartesian2.x p0;
             maximumY := Cartesian2.y p0 |} in
      let result := set_x result (minimumX b) in
      let result := set_y result (minimumY b) in
      let result := set_width result (JS.sub (maximumX b) (minimumX b)) in
      let result := set_height result (JS.sub (maximumY b) (minimumY b)) in
      result
  end.

(** [a > b] on numbers. *)
Definition gt (a b : JS.number) : bool := negb (Qle_bool a b).

(** [a < b] on numbers. *)
Definition lt (a b : JS.number) : bool := negb (Qle_bool b a).

(** [BoundingRectangle.expand(rectangle, point, result?)]. *)
Definition expand (rectangle : BoundingRectangle) (point : Cartesian2.Cartesian2)
    (result : option BoundingRectangle) : BoundingRectangle :=
  let result := default rectangle (clone (Some rectangle) result) in
  let width := JS.sub (Cartesian2.x point) (x result) in
  let height := JS.sub (Cartesian2.y point) (y result) in
  let result :=
    if gt width (BoundingRectangle.width result) then set_width result width
    else if lt width 0 then
      let result :=
        set_width result (JS.sub (BoundingRectangle.width result) width) in
      set_x result (Cartesian2.x point)
    else result in
  let result :=
    if gt height (BoundingRectangle.height result)
    then set_height result height
    else if lt height 0 then
      let result :=
        set_height result (JS.sub (BoundingRectangle.height result) height) in
      set_y result (Cartesian2.y point)
    else result in
  result.

(** The subtractions of [expand] are exact: the differences it forms are
    doubles. *)
Definition exactExpand (rectangle : BoundingRectangle)
    (point : Cartesian2.Cartesian2) : Prop :=
  JS.isDouble (Cartesian2.x point - x rectangle) /\
  JS.isDouble (width rectangle - (Cartesian2.x point - x rectangle)) /\
  JS.isDouble (Cartesian2.y point - y rectangle) /\
  JS.isDouble (height rectangle - (Cartesian2.y point - y rectangle)).

(** [BoundingRectangle.intersect(left, right)]. *)
Definition intersect (left right : BoundingRectangle) : Intersect :=
  let leftX := x left in
  let leftY := y left in
  let rightX := x right in
  let rightY := y right in
  if negb
       (gt leftX (JS.add rightX (width right)) ||
        lt (JS.add leftX (width left)) rightX ||
        lt (JS.add leftY (height left)) rightY ||
        gt leftY (JS.add rightY (height right)))
  then INTERSECTING
  else OUTSIDE.

(** [BoundingRectangle.equals(left?, right?)]; [left === right] holds of
    one object compared with itself and of two [undefined]. *)
Definition equals (left right : option BoundingRectangle) : bool :=
  match left, right with
  | None, None => true
  | Some l, Some r =>
      Qeq_bool (x l) (x r) && Qeq_bool (y l) (y r) &&
      Qeq_bool (width l) (width r) && Qeq_bool (height l) (height r)
  | _, _ => false
  end.

(** Width and height are not negative. *)
Definition proper (r : BoundingRectangle) : Prop :=
  0 <= width r /\ 0 <= height r.

End BoundingRectangle.

(** ** DistanceDisplayCondition *)

Module DistanceDisplayCondition.

Record DistanceDisplayCondition : Type := mk {
  _near : JS.number;
  _far : JS.number
}.

Definition packedLength : nat := 2.

(** [Number.MAX_VALUE], the largest finite double. *)
Definition MAX_VALUE : JS.number := inject_Z (2 ^ 1024 - 2 ^ 971).

(** [new DistanceDisplayCondition(near = 0.0, far = Number.MAX_VALUE)]. *)
Definition new (near far : option JS.number) : DistanceDisplayCondition :=
  {| _near := default 0%Q near; _far := default MAX_VALUE far |}.

(** The [near] and [far] accessors. *)
Definition near (c : DistanceDisplayCondition) : JS.number := _near c.
Definition far (c : DistanceDisplayCondition) : JS.number := _far c.
Definition set_near (c : DistanceDisplayCondition) (value : JS.number)
  : DistanceDisplayCondition := {| _near := value; _far := _far c |}.
Definition set_far (c : DistanceDisplayCondition) (value : JS.number)
  : DistanceDisplayCondition := {| _near := _near c; _far := value |}.

(** [DistanceDisplayCondition.pack(value, array, startingIndex = 0)]. *)
Definition pack (value : DistanceDisplayCondition) (array : JS.array)
    (startingIndex : nat) : JS.array :=
  let array := JS.set array startingIndex (near value) in
  let startingIndex := S startingIndex in
  let array := JS.set array startingIndex (far value) in
  array.

(** [value] with each component as a slot of [array] holds it. *)
Definition storedIn (array : JS.array) (value : DistanceDisplayCondition)
  : DistanceDisplayCondition :=
  {| _near := JS.stored array (near value);
     _far := JS.stored array (far value) |}.

(** [DistanceDisplayCondition.unpack(array, startingIndex = 0, result?)]. *)
Definition unpack (array : JS.array) (startingIndex : nat)
    (result : option DistanceDisplayCondition)
  : option DistanceDisplayCondition :=
  let result :=
    match result with
    | Some r => r
    | None => new None None
    end in
  v ← JS.get array startingIndex;
  let result := set_near result v in
  let startingIndex := S startingIndex in
  v ← JS.get array startingIndex;
  let result := set_far result v in
  Some result.

End DistanceDisplayCondition.

(** ** Cartesian3 *)

Module Cartesian3.

Local Open Scope Q_scope.

(** Modelled from the spec: the Cartesian3 class is imported by the sources
    but is not among them.  It is the "fixed-size vector type" with ordered
    numeric components x, y, z. *)
Record Cartesian3 : Type := mk {
  x : JS.number;
  y : JS.number;
  z : JS.number
}.

(** Modelled from the spec: [Cartesian3.ZERO], the origin. *)
Definition ZERO : Cartesian3 := {| x := 0; y := 0; z := 0 |}.

(** Modelled from the spec: [Cartesian3.clone(cartesian, result?)] follows
    the optional-result pattern: it copies the three components into
    [result], or into a new instance when [result] is omitted. *)
Definition clone (cartesian : Cartesian3) (result : option Cartesian3)
  : Cartesian3 :=
  {| x := x cartesian; y := y cartesian; z := z cartesian |}.

(** Modelled from the spec: [Cartesian3.midpoint(left, right, result)], the
    point halfway between [left] and [right]. *)
Definition midpoint (left right : Cartesian3) (result : Cartesian3)
  : Cartesian3 :=
  {| x := JS.mul (JS.add (x left) (x right)) (1 # 2);
     y := JS.mul (JS.add (y left) (y right)) (1 # 2);
     z := JS.mul (JS.add (z left) (z right)) (1 # 2) |}.

(** Modelled from the spec: [Cartesian3.subtract(left, right, result)]. *)
Definition subtract (left right result : Cartesian3) : Cartesian3 :=
  {| x := JS.sub (x left) (x right);
     y := JS.sub (y left) (y right);
     z := JS.sub (z left) (z right) |}.

(** Modelled from the spec: [Cartesian3.multiplyByScalar(cartesian, scalar,
    result)]. *)
Definition multiplyByScalar (cartesian : Cartesian3) (scalar : JS.number)
    (result : Cartesian3) : Cartesian3 :=
  {| x := JS.mul (x cartesian) scalar;
     y := JS.mul (y cartesian) scalar;
     z := JS.mul (z cartesian) scalar |}.

(** Modelled from the spec: [Cartesian3.dot(left, right)]. *)
Definition dot (left right : Cartesian3) : JS.number :=
  JS.add (JS.add (JS.mul (x left) (x right)) (JS.mul (y left) (y right)))
         (JS.mul (z left) (z right)).

(** Modelled from the spec: [Cartesian3.equals(left, right)], "exact
    equality", componentwise. *)
Definition equals (left right : Cartesian3) : bool :=
  Qeq_bool (x left) (x right) && Qeq_bool (y left) (y right) &&
  Qeq_bool (z left) (z right).

End Cartesian3.

(** ** AxisAlignedBoundingBox *)

Module AxisAlignedBoundingBox.

Local Open Scope Q_scope.

(** The three corner vectors of a box are objects of their own: the
    constructor clones what it is given. *)
Record AxisAlignedBoundingBox : Type := mk {
  minimum : Cartesian3.Cartesian3;
  maximum : Cartesian3.Cartesian3;
  center : Cartesian3.Cartesian3
}.

(** [new AxisAlignedBoundingBox(minimum?, maximum?, center?)]. *)
Definition new (minimum maximum center : option Cartesian3.Cartesian3)
  : AxisAlignedBoundingBox :=
  let this_minimum := Cartesian3.clone (default Cartesian3.ZERO minimum) None in
  let this_maximum := Cartesian3.clone (default Cartesian3.ZERO maximum) None in
  let this_center :=
    match center with
    | None => Cartesian3.midpoint this_minimum this_maximum Cartesian3.ZERO
    | Some center => Cartesian3.clone center None
    end in
  {| minimum := this_minimum; maximum := this_maximum; center := this_center |}.

(** The six running bounds of the scan in [fromPoints]. *)
Record bounds : Type := mkBounds {
  minimumX : JS.number;
  minimumY : JS.number;
  minimumZ : JS.number;
  maximumX : JS.number;
  maximumY : JS.number;
  maximumZ : JS.number
}.

(** The body of [for (let i = 1; i < length; i++)], run over
    [positions[1..]]. *)
Fixpoint scan (positions : list Cartesian3.Cartesian3) (b : bounds) : bounds :=
  match positions with
  | [] => b
  | p :: positions =>
      let x := Cartesian3.x p in
      let y := Cartesian3.y p in
      let z := Cartesian3.z p in
      scan positions
        {| minimumX := Qmin x (minimumX b);
           maximumX := Qmax x (maximumX b);
           minimumY := Qmin y (minimumY b);
           maximumY := Qmax y (maximumY b);
           minimumZ := Qmin z (minimumZ b);
           maximumZ := Qmax z (maximumZ b) |}
  end.

(** [AxisAlignedBoundingBox.fromPoints(positions?, result?)]. *)
Definition fromPoints (positions : option (list Cartesian3.Cartesian3))
    (result : option AxisAlignedBoundingBox) : AxisAlignedBoundingBox :=
  let result :=
    match result with
    | Some r => r
    | None => new None None None
    end in
  match positions with
  | None | Some [] =>
      {| minimum := Cartesian3.clone Cartesian3.ZERO (Some (minimum result));
         maximum := Cartesian3.clone Cartesian3.ZERO (Some (maximum result));
         center := Cartesian3.clone Cartesian3.ZERO (Some (center result)) |}
  | Some (p0 :: rest) =>
      let b :=
        scan rest
          {| minimumX := Cartesian3.x p0;
             minimumY := Cartesian3.y p0;
             minimumZ := Cartesian3.z p0;
             maximumX := Cartesian3.x p0;
             maximumY := Cartesian3.y p0;
             maximumZ := Cartesian3.z p0 |} in
      let minimum :=
        {| Cartesian3.x := minimumX b;
           Cartesian3.y := minimumY b;
           Cartesian3.z := minimumZ b |} in
      let maximum :=
        {| Cartesian3.x := maximumX b;
           Cartesian3.y := maximumY b;
           Cartesian3.z := maximumZ b |} in
      {| minimum := minimum;
         maximum := maximum;
         center := Cartesian3.midpoint minimum maximum (center result) |}
  end.

(** [p] lies between the two corners of [box], componentwise. *)
Definition contains (box : AxisAlignedBoundingBox) (p : Cartesian3.Cartesian3)
  : Prop :=
  (Cartesian3.x (minimum box) <= Cartesian3.x p /\
   Cartesian3.x p <= Cartesian3.x (maximum box)) /\
  (Cartesian3.y (minimum box) <= Cartesian3.y p /\
   Cartesian3.y p <= Cartesian3.y (maximum box)) /\
  (Cartesian3.z (minimum box) <= Cartesian3.z p /\
   Cartesian3.z p <= Cartesian3.z (maximum box)).

(** Each running bound is a coordinate of one of the positions seen. *)
Definition attains (seen : list Cartesian3.Cartesian3) (b : bounds) : Prop :=
  (exists p, p ∈ seen /\ Cartesian3.x p = minimumX b) /\
  (exists p, p ∈ seen /\ Cartesian3.y p = minimumY b) /\
  (exists p, p ∈ seen /\ Cartesian3.z p = minimumZ b) /\
  (exists p, p ∈ seen /\ Cartesian3.x p = maximumX b) /\
  (exists p, p ∈ seen /\ Cartesian3.y p = maximumY b) /\
  (exists p, p ∈ seen /\ Cartesian3.z p = maximumZ b).

(** [lo] and [hi] are the least and the greatest value of the coordinate
    [f] over [positions]: bounds that some position attains. *)
Definition extremes (f : Cartesian3.Cartesian3 -> JS.number)
    (positions : list Cartesian3.Cartesian3) (lo hi : JS.number) : Prop :=
  (forall p, p ∈ positions -> lo <= f p /\ f p <= hi) /\
  (exists p, p ∈ positions /\ f p == lo) /\
  (exists p, p ∈ positions /\ f p == hi).

(** The corners of [box] are the componentwise minimum and maximum of
    [positions]. *)
Definition tight (box : AxisAlignedBoundingBox)
    (positions : list Cartesian3.Cartesian3) : Prop :=
  extremes Cartesian3.x positions
    (Cartesian3.x (minimum box)) (Cartesian3.x (maximum box)) /\
  extremes Cartesian3.y positions
    (Cartesian3.y (minimum box)) (Cartesian3.y (maximum box)) /\
  extremes Cartesian3.z positions
    (Cartesian3.z (minimum box)) (Cartesian3.z (maximum box)).

(** *** The rest of AxisAlignedBoundingBox *)

(** Modelled from the spec: the Plane class is not among the sources; a
    plane is given by its normal and its distance from the origin, the
    signed distance of a point [p] being [dot(normal, p) + distance]. *)
Record Plane : Type := mkPlane {
  normal : Cartesian3.Cartesian3;
  distance : JS.number
}.

(** [AxisAlignedBoundingBox.fromCorners(minimum, maximum, result?)]. *)
Definition fromCorners (minimum maximum : Cartesian3.Cartesian3)
    (result : option AxisAlignedBoundingBox) : AxisAlignedBoundingBox :=
  let result :=
    match result with
    | Some r => r
    | None => new None None None
    end in
  {| AxisAlignedBoundingBox.minimum :=
       Cartesian3.clone minimum (Some (AxisAlignedBoundingBox.minimum result));
     AxisAlignedBoundingBox.maximum :=
       Cartesian3.clone maximum (Some (AxisAlignedBoundingBox.maximum result));
     center := Cartesian3.midpoint minimum maximum (center result) |}.

(** [AxisAlignedBoundingBox.clone(box, result?)]. *)
Definition clone (box : option AxisAlignedBoundingBox)
    (result : option AxisAlignedBoundingBox) : option AxisAlignedBoundingBox :=
  match box with
  | None => None
  | Some box =>
      match result with
      | None =>
          Some (new (Some (minimum box)) (Some (maximum box))
                    (Some (center box)))
      | Some result =>
          Some {| minimum :=
                    Cartesian3.clone (minimum box) (Some (minimum result));
                  maximum :=
                    Cartesian3.clone (maximum box) (Some (maximum result));
                  center :=
                    Cartesian3.clone (center box) (Some (center result)) |}
      end
  end.

(** [AxisAlignedBoundingBox.equals(left?, right?)]. *)
Definition equals (left right : option AxisAlignedBoundingBox) : bool :=
  match left, right with
  | None, None => true
  | Some l, Some r =>
      Cartesian3.equals (center l) (center r) &&
      Cartesian3.equals (minimum l) (minimum r) &&
      Cartesian3.equals (maximum l) (maximum r)
  | _, _ => false
  end.

(** The constant [e] of [intersectPlane]: the extent of the box along the
    normal, from the positive half diagonal [h]. *)
Definition extentAlong (box : AxisAlignedBoundingBox) (plane : Plane)
  : JS.number :=
  let intersectScratch :=
    Cartesian3.subtract (maximum box) (minimum box) Cartesian3.ZERO in
  let h :=
    Cartesian3.multiplyByScalar intersectScratch (1 # 2) intersectScratch in
  let normal := normal plane in
  JS.add
    (JS.add (JS.mul (Cartesian3.x h) (Qabs (Cartesian3.x normal)))
            (JS.mul (Cartesian3.y h) (Qabs (Cartesian3.y normal))))
    (JS.mul (Cartesian3.z h) (Qabs (Cartesian3.z normal))).

(** The constant [s] of [intersectPlane]: the signed distance from the
    center. *)
Definition centerDistance (box : AxisAlignedBoundingBox) (plane : Plane)
  : JS.number :=
  JS.add (Cartesian3.dot (center box) (normal plane)) (distance plane).

(** [AxisAlignedBoundingBox.intersectPlane(box, plane)]. *)
Definition intersectPlane (box : AxisAlignedBoundingBox) (plane : Plane)
  : Intersect :=
  let e := extentAlong box plane in
  let s := centerDistance box plane in
  if negb (Qle_bool (JS.sub s e) 0) then INSIDE
  else if negb (Qle_bool 0 (JS.add s e)) then OUTSIDE
  else INTERSECTING.

(** [AxisAlignedBoundingBox.intersectAxisAlignedBoundingBox(box, other)]. *)
Definition intersectAxisAlignedBoundingBox (box other : AxisAlignedBoundingBox)
  : bool :=
  Qle_bool (Cartesian3.x (minimum box)) (Cartesian3.x (maximum other)) &&
  Qle_bool (Cartesian3.x (minimum other)) (Cartesian3.x (maximum box)) &&
  Qle_bool (Cartesian3.y (minimum box)) (Cartesian3.y (maximum other)) &&
  Qle_bool (Cartesian3.y (minimum other)) (Cartesian3.y (maximum box)) &&
  Qle_bool (Cartesian3.z (minimum box)) (Cartesian3.z (maximum other)) &&
  Qle_bool (Cartesian3.z (minimum other)) (Cartesian3.z (maximum box)).

(** The signed distance of [p] from [plane]. *)
Definition signedDistance (plane : Plane) (p : Cartesian3.Cartesian3)
  : Q :=
  Cartesian3.x (normal plane) * Cartesian3.x p +
  Cartesian3.y (normal plane) * Cartesian3.y p +
  Cartesian3.z (normal plane) * Cartesian3.z p + distance plane.

(** The center of [box] is the midpoint of its corners; the constructor,
    [fromCorners] and [fromPoints] compute it in doubles, and so up to the
    rounding of a sum. *)
Definition centered (box : AxisAlignedBoundingBox) : Prop :=
  Cartesian3.x (center box)
  == (Cartesian3.x (minimum box) + Cartesian3.x (maximum box)) * (1 # 2) /\
  Cartesian3.y (center box)
  == (Cartesian3.y (minimum box) + Cartesian3.y (maximum box)) * (1 # 2) /\
  Cartesian3.z (center box)
  == (Cartesian3.z (minimum box) + Cartesian3.z (maximum box)) * (1 # 2).

(** The extent of [box] along the normal of [plane], in exact arithmetic:
    what [extentAlong] computes in doubles. *)
Definition exactExtent (box : AxisAlignedBoundingBox) (plane : Plane) : Q :=
  (Cartesian3.x (maximum box) - Cartesian3.x (minimum box)) * (1 # 2)
    * Qabs (Cartesian3.x (normal plane)) +
  (Cartesian3.y (maximum box) - Cartesian3.y (minimum box)) * (1 # 2)
    * Qabs (Cartesian3.y (normal plane)) +
  (Cartesian3.z (maximum box) - Cartesian3.z (minimum box)) * (1 # 2)
    * Qabs (Cartesian3.z (normal plane)).

(** The plane test of [box] is computed without rounding: its two
    constants are the exact extent along the normal and the exact signed
    distance of the center. *)
Definition exactPlaneTest (box : AxisAlignedBoundingBox) (plane : Plane)
  : Prop :=
  extentAlong box plane == exactExtent box plane /\
  centerDistance box plane == signedDistance plane (center box).

(** The minimum corner of [box] is nowhere above its maximum corner: the
    box holds at least one point. *)
Definition ordered (box : AxisAlignedBoundingBox) : Prop :=
  Cartesian3.x (minimum box) <= Cartesian3.x (maximum box) /\
  Cartesian3.y (minimum box) <= Cartesian3.y (maximum box) /\
  Cartesian3.z (minimum box) <= Cartesian3.z (maximum box).

End AxisAlignedBoundingBox.

(** ** JulianDate, ClockStep, ClockRange *)

Module JulianDate.

Local Open Scope Q_scope.

(** Modelled from the spec: the JulianDate class (the "date/time value
    type" the clock depends on) is not among the sources.  A date is a
    point on one time axis, counted in seconds from a fixed epoch. *)
Definition JulianDate : Type := Q.

(** Modelled from the spec: [JulianDate.clone(date, result?)]. *)
Definition clone (julianDate : JulianDate) : JulianDate := julianDate.

(** Modelled from the spec: [JulianDate.addSeconds(date, seconds, result)]. *)
Definition addSeconds (julianDate : JulianDate) (seconds : JS.number)
  : JulianDate := julianDate + seconds.

(** Modelled from the spec: [JulianDate.addDays(date, days, result)]. *)
Definition addDays (julianDate : JulianDate) (days : JS.number)
  : JulianDate := julianDate + days * 86400.

(** Modelled from the spec: [JulianDate.secondsDifference(left, right)],
    the seconds from [right] to [left]. *)
Definition secondsDifference (left right : JulianDate) : JS.number :=
  left - right.

(** Modelled from the spec: [JulianDate.lessThan(left, right)]. *)
Definition lessThan (left right : JulianDate) : bool :=
  negb (Qle_bool right left).

(** Modelled from the spec: [JulianDate.greaterThan(left, right)]. *)
Definition greaterThan (left right : JulianDate) : bool :=
  negb (Qle_bool left right).

(** Modelled from the spec: [JulianDate.equals(left, right)]. *)
Definition equals (left right : JulianDate) : bool := Qeq_bool left right.

End JulianDate.

(** Modelled from the spec: the ClockStep enumeration is not among the
    sources; the three step modes are "advance a fixed number of simulated
    seconds per tick", "follow system clock scaled by a multiplier" and
    "follow system clock exactly". *)
Inductive ClockStep : Type :=
| TICK_DEPENDENT
| SYSTEM_CLOCK_MULTIPLIER
| SYSTEM_CLOCK.

(** Modelled from the spec: the ClockRange enumeration is not among the
    sources; the three range modes are "unbounded", "clamp at bounds" and
    "loop back to start". *)
Inductive ClockRange : Type :=
| UNBOUNDED
| CLAMPED
| LOOP_STOP.

(** ** Clock *)

Module Clock.

Local Open Scope Q_scope.

(** What the clock reads from its host on each call: [getTimestamp()], in
    milliseconds, and [JulianDate.now()]. *)
Record System : Type := mkSystem {
  getTimestamp : JS.number;
  now : JulianDate.JulianDate
}.

(** Modelled from the spec: the Event class is not among the sources.
    [raiseEvent] notifies the subscribers of one of the clock's two
    subscription points; the model records which point was raised, in
    order. *)
Inductive Event : Type :=
| onTick
| onStop.

Record ClockOptions : Type := mkOptions {
  opt_startTime : option JulianDate.JulianDate;
  opt_stopTime : option JulianDate.JulianDate;
  opt_currentTime : option JulianDate.JulianDate;
  opt_multiplier : option JS.number;
  opt_clockStep : option ClockStep;
  opt_clockRange : option ClockRange;
  opt_canAnimate : option bool;
  opt_shouldAnimate : option bool
}.

Record Clock : Type := mk {
  startTime : JulianDate.JulianDate;
  stopTime : JulianDate.JulianDate;
  clockRange : ClockRange;
  canAnimate : bool;
  _currentTime : JulianDate.JulianDate;
  _multiplier : JS.number;
  _clockStep : ClockStep;
  _shouldAnimate : bool;
  _lastSystemTime : JS.number
}.

Definition with_currentTime (c : Clock) (v : JulianDate.JulianDate) : Clock :=
  mk (startTime c) (stopTime c) (clockRange c) (canAnimate c)
     v (_multiplier c) (_clockStep c) (_shouldAnimate c) (_lastSystemTime c).
Definition with_multiplier (c : Clock) (v : JS.number) : Clock :=
  mk (startTime c) (stopTime c) (clockRange c) (canAnimate c)
     (_currentTime c) v (_clockStep c) (_shouldAnimate c) (_lastSystemTime c).
Definition with_clockStep (c : Clock) (v : ClockStep) : Clock :=
  mk (startTime c) (stopTime c) (clockRange c) (canAnimate c)
     (_currentTime c) (_multiplier c) v (_shouldAnimate c) (_lastSystemTime c).
Definition with_shouldAnimate (c : Clock) (v : bool) : Clock :=
  mk (startTime c) (stopTime c) (clockRange c) (canAnimate c)
     (_currentTime c) (_multiplier c) (_clockStep c) v (_lastSystemTime c).
Definition with_lastSystemTime (c : Clock) (v : JS.number) : Clock :=
  mk (startTime c) (stopTime c) (clockRange c) (canAnimate c)
     (_currentTime c) (_multiplier c) (_clockStep c) (_shouldAnimate c) v.

Definition isSystemClock (s : ClockStep) : bool :=
  match s with
  | SYSTEM_CLOCK => true
  | _ => false
  end.

(** [set currentTime(value)]. *)
Definition set_currentTime (this : Clock) (value : JulianDate.JulianDate)
  : Clock :=
  if JulianDate.equals (_currentTime this) value then this
  else
    let this :=
      if isSystemClock (_clockStep this)
      then with_clockStep this SYSTEM_CLOCK_MULTIPLIER
      else this in
    with_currentTime this value.

(** [set multiplier(value)]; [===] on numbers is numeric equality. *)
Definition set_multiplier (this : Clock) (value : JS.number) : Clock :=
  if Qeq_bool (_multiplier this) value then this
  else
    let this :=
      if isSystemClock (_clockStep this)
      then with_clockStep this SYSTEM_CLOCK_MULTIPLIER
      else this in
    with_multiplier this value.

(** [set clockStep(value)]. *)
Definition set_clockStep (sys : System) (this : Clock) (value : ClockStep)
  : Clock :=
  let this :=
    if isSystemClock value
    then
      let this := with_multiplier this 1 in
      let this := with_shouldAnimate this true in
      with_currentTime this (now sys)
    else this in
  with_clockStep this value.

(** [set shouldAnimate(value)]. *)
Definition set_shouldAnimate (this : Clock) (value : bool) : Clock :=
  if Bool.eqb (_shouldAnimate this) value then this
  else
    let this :=
      if isSystemClock (_clockStep this)
      then with_clockStep this SYSTEM_CLOCK_MULTIPLIER
      else this in
    with_shouldAnimate this value.

(** [new Clock(options)] in a validated build: [None] is the
    [DeveloperError] "startTime must come before stopTime." *)
Definition new (sys : System) (opts : ClockOptions) : option Clock :=
  let currentTime :=
    match opt_currentTime opts with
    | None =>
        match opt_startTime opts with
        | Some startTime => JulianDate.clone startTime
        | None =>
            match opt_stopTime opts with
            | Some stopTime => JulianDate.addDays stopTime (-1)
            | None => now sys
            end
        end
    | Some currentTime => JulianDate.clone currentTime
    end in
  let startTime :=
    match opt_startTime opts with
    | None => JulianDate.clone currentTime
    | Some startTime => JulianDate.clone startTime
    end in
  let stopTime :=
    match opt_stopTime opts with
    | None => JulianDate.addDays startTime 1
    | Some stopTime => JulianDate.clone stopTime
    end in
  if JulianDate.greaterThan startTime stopTime then None
  else
    let this :=
      {| startTime := startTime;
         stopTime := stopTime;
         clockRange := default UNBOUNDED (opt_clockRange opts);
         canAnimate := default true (opt_canAnimate opts);
         _currentTime := currentTime;
         _multiplier := default 1 (opt_multiplier opts);
         _clockStep := default SYSTEM_CLOCK_MULTIPLIER (opt_clockStep opts);
         _shouldAnimate := default false (opt_shouldAnimate opts);
         _lastSystemTime := getTimestamp sys |} in
    let this := set_currentTime this currentTime in
    let this := set_multiplier this (default 1 (opt_multiplier opts)) in
    let this := set_shouldAnimate this (default false (opt_shouldAnimate opts)) in
    let this :=
      set_clockStep sys this
        (default SYSTEM_CLOCK_MULTIPLIER (opt_clockStep opts)) in
    Some this.

(** The [while (JulianDate.greaterThan(currentTime, stopTime))] loop of
    [tick].  [fuel] bounds the number of iterations the model runs; [None]
    means the loop is still running when the fuel is spent. *)
Fixpoint wrap (fuel : nat) (startTime stopTime currentTime : JulianDate.JulianDate)
    (raised : list Event) : option (JulianDate.JulianDate * list Event) :=
  if JulianDate.greaterThan currentTime stopTime then
    match fuel with
    | O => None
    | S fuel =>
        let currentTime :=
          JulianDate.addSeconds startTime
            (JulianDate.secondsDifference currentTime stopTime) in
        wrap fuel startTime stopTime currentTime (raised ++ [onStop])
    end
  else Some (currentTime, raised).

(** The part of [tick] under [if (this.canAnimate && this._shouldAnimate)]:
    the new current time and the events raised on the way. *)
Definition advance (fuel : nat) (sys : System) (this : Clock)
    (currentTime : JulianDate.JulianDate)
  : option (JulianDate.JulianDate * list Event) :=
  let currentSystemTime := getTimestamp sys in
  let clockStep := _clockStep this in
  match clockStep with
  | SYSTEM_CLOCK => Some (now sys, [])
  | _ =>
      let multiplier := _multiplier this in
      let currentTime :=
        match clockStep with
        | TICK_DEPENDENT => JulianDate.addSeconds currentTime multiplier
        | _ =>
            let milliseconds :=
              JS.sub currentSystemTime (_lastSystemTime this) in
            JulianDate.addSeconds currentTime
              (JS.mul multiplier (JS.div milliseconds 1000))
        end in
      let clockRange := clockRange this in
      let startTime := startTime this in
      let stopTime := stopTime this in
      match clockRange with
      | CLAMPED =>
          if JulianDate.lessThan currentTime startTime
          then Some (JulianDate.clone startTime, [])
          else if JulianDate.greaterThan currentTime stopTime
          then Some (JulianDate.clone stopTime, [onStop])
          else Some (currentTime, [])
      | LOOP_STOP =>
          let currentTime :=
            if JulianDate.lessThan currentTime startTime
            then JulianDate.clone startTime
            else currentTime in
          wrap fuel startTime stopTime currentTime []
      | UNBOUNDED => Some (currentTime, [])
      end
  end.

(** [tick()]: the clock after the call, the events raised in order, and
    the returned time.  [None]: the wrap loop has not finished within
    [fuel] iterations. *)
Definition tick (fuel : nat) (sys : System) (this : Clock)
  : option (Clock * list Event * JulianDate.JulianDate) :=
  let currentSystemTime := getTimestamp sys in
  let currentTime := JulianDate.clone (_currentTime this) in
  '(currentTime, raised) ←
    (if canAnimate this && _shouldAnimate this
     then advance fuel sys this currentTime
     else Some (currentTime, []));
  let this := with_currentTime this currentTime in
  let this := with_lastSystemTime this currentSystemTime in
  Some (this, raised ++ [onTick], currentTime).

(** How often the stop notification was raised. *)
Definition stops (raised : list Event) : nat :=
  List.length
    (List.filter (fun e => match e with onStop => true | onTick => false end)
       raised).

(** The seconds [tick] adds to the current time, before the range is
    applied, in the two step modes that add to it. *)
Definition elapsed (sys : System) (this : Clock) : JS.number :=
  match _clockStep this with
  | TICK_DEPENDENT => _multiplier this
  | _ =>
      JS.mul (_multiplier this)
        (JS.div (JS.sub (getTimestamp sys) (_lastSystemTime this)) 1000)
  end.

(** What the setters keep between the three coupled properties: a clock
    in step mode SYSTEM_CLOCK has multiplier 1 and is animating. *)
Definition coherent (this : Clock) : Prop :=
  _clockStep this = SYSTEM_CLOCK ->
  _multiplier this == 1 /\ _shouldAnimate this = true.

End Clock.

(** ** AssociativeArray *)

Module AssociativeArray.

(** What a collection can hold ([T = unknown]).  Numbers other than NaN are
    kept in canonical form, objects and functions by their identity, so
    that [===] is equality of terms except on NaN. *)
Inductive value : Type :=
| VUndefined
| VNull
| VNaN
| VNumber (n : Qc)
| VString (s : string)
| VObject (identity : nat).

#[global] Instance value_eq_dec : EqDecision value.
Proof. solve_decision. Defined.

(** [a === b]. *)
Definition strictEquals (a b : value) : bool :=
  match a, b with
  | VNaN, _ | _, VNaN => false
  | _, _ => bool_decide (a = b)
  end.

(** [array.indexOf(searchElement)], which compares with [===]. *)
Fixpoint firstIndex (array : list value) (searchElement : value) : option nat :=
  match array with
  | [] => None
  | v :: array =>
      if strictEquals v searchElement then Some O
      else S <$> firstIndex array searchElement
  end.

Definition indexOf (array : list value) (searchElement : value) : Z :=
  match firstIndex array searchElement with
  | Some i => Z.of_nat i
  | None => (-1)%Z
  end.

(** [array.splice(start, 1)]: a negative [start] counts from the end, and
    nothing is removed when the start lands on the end of the array. *)
Definition splice1 (array : list value) (start : Z) : list value :=
  let len := Z.of_nat (List.length array) in
  let actualStart :=
    if (start <? 0)%Z then Z.max (len + start) 0 else Z.min start len in
  delete (Z.to_nat actualStart) array.

Record AssociativeArray : Type := mk {
  _array : list value;
  _hash : gmap string value
}.

(** [new AssociativeArray()]. *)
Definition new : AssociativeArray := {| _array := []; _hash := ∅ |}.

Section Methods.

(** [defined.js] is not among the sources: the test it implements is a
    parameter of the model. *)
Variable defined : value -> bool.

(** [_hash] is created by the literal [{}]: a read of a key the object does
    not own falls through to what it inherits from [Object.prototype]
    ([toString], [constructor], ...); [inherited] gives those properties.
    Keys are property names: a number key is converted to its string. *)
Variable inherited : string -> option value.

(** [hash[key]]. *)
Definition property (hash : gmap string value) (key : string) : value :=
  match hash !! key with
  | Some v => v
  | None => default VUndefined (inherited key)
  end.

Definition length (this : AssociativeArray) : nat := List.length (_array this).

Definition values (this : AssociativeArray) : list value := _array this.

Definition contains (this : AssociativeArray) (key : string) : bool :=
  defined (property (_hash this) key).

Definition get (this : AssociativeArray) (key : string) : value :=
  property (_hash this) key.

(** [remove(key)]: the collection afterwards and the returned flag. *)
Definition remove (this : AssociativeArray) (key : string)
  : AssociativeArray * bool :=
  let value := property (_hash this) key in
  let hasValue := defined value in
  if hasValue then
    let array := _array this in
    ({| _array := splice1 array (indexOf array value);
        _hash := delete key (_hash this) |}, hasValue)
  else (this, hasValue).

(** [hash[key] = value].  The assignment creates or updates an own
    property, except under the key [__proto__] where the hash inherits that
    accessor and owns no property of the name: there the setter of
    [Object.prototype] runs, and no own property is created.  Given an
    object or [null] the setter replaces the prototype of the hash; what
    the hash inherits from then on is outside the model, which reads
    [inherited] throughout. *)
Definition assign (hash : gmap string value) (key : string) (v : value)
  : gmap string value :=
  if bool_decide (key = "__proto__" /\ hash !! key = None /\
                  is_Some (inherited key))
  then hash
  else <[key := v]> hash.

(** [set(key, value)]. *)
Definition set (this : AssociativeArray) (key : string) (value : value)
  : AssociativeArray :=
  let oldValue := property (_hash this) key in
  if negb (strictEquals value oldValue) then
    let this := fst (remove this key) in
    {| _hash := assign (_hash this) key value;
       _array := _array this ++ [value] |}
  else this.

(** [removeAll()]. *)
Definition removeAll (this : AssociativeArray) : AssociativeArray :=
  let array := _array this in
  if decide (0 < List.length array)%nat
  then {| _hash := ∅; _array := [] |}
  else this.

(** A call of one of the three mutating methods. *)
Inductive call : Type :=
| CallSet (key : string) (value : value)
| CallRemove (key : string)
| CallRemoveAll.

Definition perform (this : AssociativeArray) (c : call) : AssociativeArray :=
  match c with
  | CallSet key value => set this key value
  | CallRemove key => fst (remove this key)
  | CallRemoveAll => removeAll this
  end.

(** A sequence of calls, first to last. *)
Definition run (this : AssociativeArray) (calls : list call)
  : AssociativeArray := fold_left perform calls this.

(** The consistency the specification states: as many values as keys
    currently set, every value [get] reaches is in [values], and every
    element of [values] is reached by [get] under exactly one key. *)
Definition consistent (this : AssociativeArray) : Prop :=
  List.length (values this) = size (_hash this) /\
  (forall key v, get this key = v -> v <> VUndefined -> v ∈ values this) /\
  (forall v, v ∈ values this ->
     exists key, get this key = v /\ forall key', get this key' = v -> key' = key).

(** The calls the amended statement is about: every stored value passes
    [defined] and is not NaN, and no key names an inherited property. *)
Definition ordinaryCall (c : call) : Prop :=
  match c with
  | CallSet key value =>
      inherited key = None /\ defined value = true /\ value <> VNaN
  | CallRemove key => inherited key = None
  | CallRemoveAll => True
  end.

(** What the code keeps: [values] is the values of the hash, each as often
    as keys hold it. *)
Definition synchronized (this : AssociativeArray) : Prop :=
  _array this ≡ₚ (map_to_list (_hash this)).*2.

(** The invariant behind it: moreover every stored value passes [defined]
    and is not NaN, so that [remove] finds it. *)
Definition wellFormed (this : AssociativeArray) : Prop :=
  synchronized this /\
  map_Forall (fun _ v => defined v = true /\ v <> VNaN) (_hash this).

End Methods.

(** Modelled from the spec: [defined.js] is not among the sources.  Where
    an example needs the test itself, "defined-ness" is taken to mean
    neither [undefined] nor [null]. *)
Definition definedValue (v : value) : bool :=
  match v with
  | VUndefined | VNull => false
  | _ => true
  end.

(** Some of the properties every object literal inherits from
    [Object.prototype], for the examples. *)
Definition objectPrototype (key : string) : option value :=
  if bool_decide (key ∈ ["constructor"; "hasOwnProperty"; "isPrototypeOf";
                         "propertyIsEnumerable"; "toLocaleString";
                         "toString"; "valueOf"; "__proto__"]%string)
  then Some (VObject 0)
  else None.

End AssociativeArray.

(** ** Cartographic *)

Module Cartographic.

Local Open Scope Q_scope.

(** What a call does: return a value or throw. *)
Inductive outcome (A : Type) : Type :=
| Returns (a : A)
| Throws (message : string).

Arguments Returns {A} a.
Arguments Throws {A} message.

Record Cartographic : Type := mk {
  longitude : JS.number;
  latitude : JS.number;
  height : JS.number
}.

(** [new Cartographic(longitude = 0.0, latitude = 0.0, height = 0.0)]. *)
Definition new (longitude latitude height : option JS.number) : Cartographic :=
  {| longitude := default 0 longitude;
     latitude := default 0 latitude;
     height := default 0 height |}.

Record EllipsoidLike : Type := mkEllipsoid {
  oneOverRadii : Cartesian3.Cartesian3;
  oneOverRadiiSquared : Cartesian3.Cartesian3;
  _centerToleranceSquared : JS.number
}.

Definition _ellipsoidOneOverRadii : Cartesian3.Cartesian3 :=
  {| Cartesian3.x := 1 / 6378137;
     Cartesian3.y := 1 / 6378137;
     Cartesian3.z := 1 / (63567523142451793 # 10000000000) |}.

Definition _ellipsoidOneOverRadiiSquared : Cartesian3.Cartesian3 :=
  {| Cartesian3.x := 1 / (6378137 * 6378137);
     Cartesian3.y := 1 / (6378137 * 6378137);
     Cartesian3.z :=
       1 / ((63567523142451793 # 10000000000) *
            (63567523142451793 # 10000000000)) |}.

(** Modelled from the spec: [Cartesian3.multiplyComponents(left, right,
    result)], the componentwise product. *)
Definition multiplyComponents (left right : Cartesian3.Cartesian3)
  : Cartesian3.Cartesian3 :=
  {| Cartesian3.x := Cartesian3.x left * Cartesian3.x right;
     Cartesian3.y := Cartesian3.y left * Cartesian3.y right;
     Cartesian3.z := Cartesian3.z left * Cartesian3.z right |}.

(** Modelled from the spec: [Cartesian3.subtract(left, right, result)]. *)
Definition subtract (left right : Cartesian3.Cartesian3)
  : Cartesian3.Cartesian3 :=
  {| Cartesian3.x := Cartesian3.x left - Cartesian3.x right;
     Cartesian3.y := Cartesian3.y left - Cartesian3.y right;
     Cartesian3.z := Cartesian3.z left - Cartesian3.z right |}.

(** Modelled from the spec: [Cartesian3.dot(left, right)]. *)
Definition dot (left right : Cartesian3.Cartesian3) : JS.number :=
  Cartesian3.x left * Cartesian3.x right +
  Cartesian3.y left * Cartesian3.y right +
  Cartesian3.z left * Cartesian3.z right.

(** Modelled from the spec: [CesiumMath.sign(value)], the "dot-product sign
    test": 0 at 0, otherwise 1 or -1. *)
Definition sign (value : JS.number) : JS.number :=
  if Qeq_bool value 0 then value
  else if negb (Qle_bool value 0) then 1 else -1.

(** Modelled from the spec: the input is "within a small tolerance of the
    ellipsoid's center" when the square of its length, measured in radii,
    is below the ellipsoid's centering tolerance. *)
Definition withinCenterTolerance (cartesian oneOverRadii : Cartesian3.Cartesian3)
    (centerToleranceSquared : JS.number) : bool :=
  let sx := Cartesian3.x cartesian * Cartesian3.x oneOverRadii in
  let sy := Cartesian3.y cartesian * Cartesian3.y oneOverRadii in
  let sz := Cartesian3.z cartesian * Cartesian3.z oneOverRadii in
  negb (Qle_bool centerToleranceSquared (sx * sx + sy * sy + sz * sz)).

(** A point of the ellipsoid's surface:
    [x^2 / a^2 + y^2 / b^2 + z^2 / c^2 = 1]. *)
Definition onSurface (p oneOverRadiiSquared : Cartesian3.Cartesian3) : Prop :=
  Cartesian3.x p * Cartesian3.x p * Cartesian3.x oneOverRadiiSquared +
  Cartesian3.y p * Cartesian3.y p * Cartesian3.y oneOverRadiiSquared +
  Cartesian3.z p * Cartesian3.z p * Cartesian3.z oneOverRadiiSquared == 1.

Section FromCartesian.

(** [Math.sqrt], [Math.atan2] and [Math.asin], which exact rationals do not
    compute, are parameters; so are the constant [CesiumMath.EPSILON1] and
    the build: [validated] is true where the checks between the [debug]
    pragmas are compiled in. *)
Variable sqrt : JS.number -> JS.number.
Variable atan2 : JS.number -> JS.number -> JS.number.
Variable asin : JS.number -> JS.number.
Variable EPSILON1 : JS.number.
Variable validated : bool.

(** The limit of the geodetic-surface-projection iteration, a parameter:
    the closest point of the surface to [cartesian]. *)
Variable surfacePoint :
  Cartesian3.Cartesian3 -> Cartesian3.Cartesian3 -> Cartesian3.Cartesian3 ->
  Cartesian3.Cartesian3.

Definition _ellipsoidCenterToleranceSquared : JS.number := EPSILON1.

(** Modelled from the spec: [Cartesian3.magnitude(cartesian)]. *)
Definition magnitude (cartesian : Cartesian3.Cartesian3) : JS.number :=
  sqrt (dot cartesian cartesian).

(** Modelled from the spec: [Cartesian3.normalize(cartesian, result)];
    "normalize of a zero-length vector yields a runtime-error-class failure
    in validated builds", and garbage in the others. *)
Definition normalize (cartesian : Cartesian3.Cartesian3)
  : outcome Cartesian3.Cartesian3 :=
  if validated && Qeq_bool (dot cartesian cartesian) 0
  then Throws "normalized result is not a number"
  else
    let magnitude := magnitude cartesian in
    Returns {| Cartesian3.x := Cartesian3.x cartesian / magnitude;
               Cartesian3.y := Cartesian3.y cartesian / magnitude;
               Cartesian3.z := Cartesian3.z cartesian / magnitude |}.

(** Modelled from the spec: scaleToGeodeticSurface is imported by
    Cartographic.ts but is not among the sources.  It "iteratively finds
    the closest point on the ellipsoid surface" and gives no result "if the
    input is within a small tolerance of the ellipsoid's center". *)
Definition scaleToGeodeticSurface
    (cartesian oneOverRadii oneOverRadiiSquared : Cartesian3.Cartesian3)
    (centerToleranceSquared : JS.number) : option Cartesian3.Cartesian3 :=
  if withinCenterTolerance cartesian oneOverRadii centerToleranceSquared
  then None
  else Some (surfacePoint cartesian oneOverRadii oneOverRadiiSquared).

(** [Cartographic.fromCartesian(cartesian, ellipsoid?, result?)]:
    [Returns None] is the return of [undefined]. *)
Definition fromCartesian (cartesian : Cartesian3.Cartesian3)
    (ellipsoid : option EllipsoidLike) (result : option Cartographic)
  : outcome (option Cartographic) :=
  let oneOverRadii :=
    match ellipsoid with
    | Some e => oneOverRadii e
    | None => _ellipsoidOneOverRadii
    end in
  let oneOverRadiiSquared :=
    match ellipsoid with
    | Some e => oneOverRadiiSquared e
    | None => _ellipsoidOneOverRadiiSquared
    end in
  let centerToleranceSquared :=
    match ellipsoid with
    | Some e => _centerToleranceSquared e
    | None => _ellipsoidCenterToleranceSquared
    end in
  match scaleToGeodeticSurface cartesian oneOverRadii oneOverRadiiSquared
          centerToleranceSquared with
  | None => Returns None
  | Some p =>
      let n := multiplyComponents p oneOverRadiiSquared in
      match normalize n with
      | Throws message => Throws message
      | Returns n =>
          let h := subtract cartesian p in
          let longitude := atan2 (Cartesian3.y n) (Cartesian3.x n) in
          let latitude := asin (Cartesian3.z n) in
          let heightValue := sign (dot h cartesian) * magnitude h in
          match result with
          | None =>
              Returns (Some (new (Some longitude) (Some latitude)
                                 (Some heightValue)))
          | Some result =>
              Returns (Some {| longitude := longitude;
                               latitude := latitude;
                               height := heightValue |})
          end
      end
  end.

(** The ellipsoid data [fromCartesian] works with. *)
Definition radiiOf (ellipsoid : option EllipsoidLike)
  : Cartesian3.Cartesian3 * Cartesian3.Cartesian3 * JS.number :=
  match ellipsoid with
  | Some e => (oneOverRadii e, oneOverRadiiSquared e, _centerToleranceSquared e)
  | None =>
      (_ellipsoidOneOverRadii, _ellipsoidOneOverRadiiSquared,
       _ellipsoidCenterToleranceSquared)
  end.

End FromCartesian.

End Cartographic.

(* ===================================================================== *)
(** * Part II.  Properties                                                *)
(* ===================================================================== *)

(** ** Rounding to the nearest double *)

Section RoundingFacts.

Local Open Scope Q_scope.

Import JS.

Lemma pow2_pos k : 0 < pow2 k.
Proof. apply Qpower_0_lt. reflexivity. Qed.

Lemma pow2_plus a b : pow2 (a + b) == pow2 a * pow2 b.
Proof. apply Qpower_plus. discriminate. Qed.

Lemma pow2_cancel a : pow2 a * pow2 (- a) == 1.
Proof.
  rewrite <- pow2_plus. replace (a + - a)%Z with 0%Z by lia. reflexivity.
Qed.

Lemma pow2_succ a : pow2 (a + 1) == 2 * pow2 a.
Proof. rewrite pow2_plus. change (pow2 1) with 2. ring. Qed.

Lemma pow2_le a b : (a <= b)%Z -> pow2 a <= pow2 b.
Proof. intros H. apply Qpower_le_compat_l; [exact H | discriminate]. Qed.

Lemma pow2_lt a b : (a < b)%Z -> pow2 a < pow2 b.
Proof. intros H. apply Qpower_lt_compat_l; [exact H | reflexivity]. Qed.

Lemma pow2_lt_inv a b : pow2 a < pow2 b -> (a < b)%Z.
Proof. intros H. apply (Qpower_lt_compat_l_inv 2); [exact H | reflexivity]. Qed.

Lemma pow2_Z k : (0 <= k)%Z -> pow2 k == inject_Z (2 ^ k).
Proof. intros H. unfold pow2. by rewrite Zpower_Qpower. Qed.

(** Scaling by a power of two and back. *)
Lemma scale_back q e : q * pow2 (- e) * pow2 e == q.
Proof.
  rewrite <- Qmult_assoc, (Qmult_comm (pow2 (- e))), pow2_cancel. ring.
Qed.

Lemma scale_le q r e : q <= r -> q * pow2 e <= r * pow2 e.
Proof.
  intros H. apply Qmult_le_compat_r; [exact H | apply Qlt_le_weak, pow2_pos].
Qed.

Lemma scale_lt q r e : q < r -> q * pow2 e < r * pow2 e.
Proof. intros H. apply Qmult_lt_compat_r; [apply pow2_pos | exact H]. Qed.

(** [exponent q] is the integer part of the binary logarithm of [q]. *)
Lemma exponent_spec q :
  0 < q -> pow2 (exponent q) <= q /\ q < pow2 (exponent q + 1).
Proof.
  intros Hq. unfold exponent.
  destruct q as [n d]. cbn [Qnum Qden].
  assert (Hn : (0 < n)%Z) by (unfold Qlt in Hq; simpl in Hq; lia).
  destruct (Z.log2_spec n Hn) as [Hn1 Hn2].
  destruct (Z.log2_spec (Z.pos d) eq_refl) as [Hd1 Hd2].
  pose proof (Z.log2_nonneg n) as Hln.
  pose proof (Z.log2_nonneg (Z.pos d)) as Hld.
  set (ln := Z.log2 n) in *. set (ld := Z.log2 (Z.pos d)) in *.
  assert (HN1 : pow2 ln <= inject_Z n).
  { rewrite pow2_Z by done. by rewrite <- Zle_Qle. }
  assert (HN2 : inject_Z n < 2 * pow2 ln).
  { rewrite <- pow2_succ, pow2_Z by lia. rewrite <- Zlt_Qlt.
    by replace (ln + 1)%Z with (Z.succ ln) by lia. }
  assert (HD1 : pow2 ld <= inject_Z (Z.pos d)).
  { rewrite pow2_Z by done. by rewrite <- Zle_Qle. }
  assert (HD2 : inject_Z (Z.pos d) < 2 * pow2 ld).
  { rewrite <- pow2_succ, pow2_Z by lia. rewrite <- Zlt_Qlt.
    by replace (ld + 1)%Z with (Z.succ ld) by lia. }
  assert (Hq' : n # d == inject_Z n * / inject_Z (Z.pos d)).
  { rewrite (Qmake_Qdiv n d). reflexivity. }
  assert (Hdpos : 0 < inject_Z (Z.pos d)) by (rewrite <- (Zlt_Qlt 0); lia).
  pose proof (pow2_pos ln) as Hpln. pose proof (pow2_pos ld) as Hpld.
  pose proof (pow2_pos (- ld)) as Hpild.
  pose proof (pow2_cancel ld) as Hc.
  assert (Hk : pow2 (ln - ld) == pow2 ln * pow2 (- ld)).
  { rewrite <- pow2_plus. by replace (ln + - ld)%Z with (ln - ld)%Z by lia. }
  set (N := inject_Z n) in *. set (D := inject_Z (Z.pos d)) in *.
  assert (HiD : 0 < / D) by (by apply Qinv_lt_0_compat).
  assert (HDi : D * / D == 1) by (apply Qmult_inv_r; lra).
  (* the quotient lies within a factor of two of [pow2 (ln - ld)] *)
  assert (Hlow : pow2 (ln - ld) * (1 # 2) < N * / D).
  { rewrite Hk.
    assert (pow2 (- ld) * D < 2).
    { assert (pow2 (- ld) * D < pow2 (- ld) * (2 * pow2 ld))
        by (apply Qmult_lt_l; done).
      assert (pow2 (- ld) * (2 * pow2 ld) == 2) by lra.
      lra. }
    assert (H1 : pow2 ln * pow2 (- ld) * (1 # 2) * D < pow2 ln).
    { assert (pow2 ln * (pow2 (- ld) * D) < pow2 ln * 2)
        by (apply Qmult_lt_l; done).
      lra. }
    assert (H2 : pow2 ln * pow2 (- ld) * (1 # 2) * D * / D < N * / D).
    { apply Qmult_lt_compat_r; [done | lra]. }
    assert (pow2 ln * pow2 (- ld) * (1 # 2) * D * / D
            == pow2 ln * pow2 (- ld) * (1 # 2))
      by (rewrite <- Qmult_assoc, HDi; ring).
    lra. }
  assert (Hhigh : N * / D < pow2 (ln - ld) * 2).
  { rewrite Hk.
    assert (1 <= pow2 (- ld) * D).
    { assert (pow2 (- ld) * pow2 ld <= pow2 (- ld) * D)
        by (apply Qmult_le_l; done).
      assert (pow2 (- ld) * pow2 ld == 1) by lra.
      lra. }
    assert (H1 : N < pow2 ln * pow2 (- ld) * 2 * D).
    { assert (pow2 ln * 1 <= pow2 ln * (pow2 (- ld) * D))
        by (apply Qmult_le_l; done).
      lra. }
    assert (H2 : N * / D < pow2 ln * pow2 (- ld) * 2 * D * / D).
    { apply Qmult_lt_compat_r; [done | lra]. }
    assert (pow2 ln * pow2 (- ld) * 2 * D * / D
            == pow2 ln * pow2 (- ld) * 2)
      by (rewrite <- Qmult_assoc, HDi; ring).
    lra. }
  destruct (Qle_bool (pow2 (ln - ld)) (n # d)) eqn:E.
  - apply Qle_bool_iff in E. split; [exact E | ].
    rewrite pow2_succ, Hq'. lra.
  - assert (n # d < pow2 (ln - ld)).
    { destruct (Qlt_le_dec (n # d) (pow2 (ln - ld))) as [H | H]; [done | ].
      apply Qle_bool_iff in H. congruence. }
    replace (ln - ld - 1 + 1)%Z with (ln - ld)%Z by lia.
    split; [ | done].
    assert (pow2 (ln - ld) == 2 * pow2 (ln - ld - 1)).
    { rewrite <- pow2_succ. by replace (ln - ld - 1 + 1)%Z with (ln - ld)%Z by lia. }
    rewrite Hq'. lra.
Qed.

(** ... and the only such integer. *)
Lemma exponent_unique q k :
  pow2 k <= q -> q < pow2 (k + 1) -> exponent q = k.
Proof.
  intros H1 H2.
  assert (Hq : 0 < q) by (pose proof (pow2_pos k); lra).
  destruct (exponent_spec q Hq) as [E1 E2].
  assert (exponent q < k + 1)%Z by (apply pow2_lt_inv; lra).
  assert (k < exponent q + 1)%Z by (apply pow2_lt_inv; lra).
  lia.
Qed.

Lemma exponent_comp q r : 0 < q -> q == r -> exponent q = exponent r.
Proof.
  intros Hq Heq. symmetry. 
  destruct (exponent_spec q Hq) as [E1 E2].
  apply exponent_unique; rewrite <- Heq; done.
Qed.

(** How [roundHalfEven] chooses between the two neighbouring integers. *)
Lemma roundHalfEven_cases x :
  let f := Qfloor x in
  (x - inject_Z f < 1 # 2 /\ roundHalfEven x = f) \/
  (1 # 2 < x - inject_Z f /\ roundHalfEven x = (f + 1)%Z) \/
  (x - inject_Z f == 1 # 2 /\
   roundHalfEven x = if Z.even f then f else (f + 1)%Z).
Proof.
  intros f. unfold roundHalfEven. fold f.
  destruct (Qcompare (x - inject_Z f) (1 # 2)) eqn:E.
  - right. right. split; [by apply Qeq_alt | done].
  - left. split; [by apply Qlt_alt | done].
  - right. left. split; [by apply Qgt_alt | done].
Qed.

Lemma roundHalfEven_comp x y : x == y -> roundHalfEven x = roundHalfEven y.
Proof.
  intros H. unfold roundHalfEven. rewrite (Qfloor_comp x y H).
  assert (E : Qcompare (x - inject_Z (Qfloor y)) (1 # 2)
              = Qcompare (y - inject_Z (Qfloor y)) (1 # 2))
    by (by rewrite H).
  by rewrite E.
Qed.

Lemma roundHalfEven_Z z : roundHalfEven (inject_Z z) = z.
Proof.
  unfold roundHalfEven. rewrite Qfloor_Z.
  destruct (Qcompare (inject_Z z - inject_Z z) (1 # 2)) eqn:E;
    [apply Qeq_alt in E; lra | done | apply Qgt_alt in E; lra].
Qed.

Lemma roundHalfEven_near x :
  inject_Z (roundHalfEven x) - (1 # 2) <= x /\
  x <= inject_Z (roundHalfEven x) + (1 # 2).
Proof.
  pose proof (Qfloor_le x) as H1. pose proof (Qlt_floor x) as H2.
  rewrite inject_Z_plus in H2. change (inject_Z 1) with 1 in H2.
  destruct (roundHalfEven_cases x) as [[Hr ->] | [[Hr ->] | [Hr ->]]].
  - lra.
  - rewrite inject_Z_plus. change (inject_Z 1) with 1. lra.
  - destruct (Z.even (Qfloor x)).
    + lra.
    + rewrite inject_Z_plus. change (inject_Z 1) with 1. lra.
Qed.

Lemma roundHalfEven_monotone x y :
  x <= y -> (roundHalfEven x <= roundHalfEven y)%Z.
Proof.
  intros Hxy. pose proof (Qfloor_resp_le x y Hxy) as Hf.
  assert (Hx : (roundHalfEven x <= Qfloor x + 1)%Z).
  { destruct (roundHalfEven_cases x) as [[_ ->] | [[_ ->] | [_ ->]]];
      [lia | lia | destruct (Z.even (Qfloor x)); lia]. }
  assert (Hy : (Qfloor y <= roundHalfEven y)%Z).
  { destruct (roundHalfEven_cases y) as [[_ ->] | [[_ ->] | [_ ->]]];
      [lia | lia | destruct (Z.even (Qfloor y)); lia]. }
  destruct (Z.eq_dec (Qfloor x) (Qfloor y)) as [Heq | Hne]; [ | lia].
  destruct (roundHalfEven_cases x) as [[Hrx Ex] | [[Hrx Ex] | [Hrx Ex]]];
    destruct (roundHalfEven_cases y) as [[Hry Ey] | [[Hry Ey] | [Hry Ey]]];
    rewrite Ex, Ey; rewrite Heq in *;
    try lia; try lra;
    destruct (Z.even (Qfloor y)); lia || lra.
Qed.

End RoundingFacts.

Section RoundToPrecision.

Local Open Scope Q_scope.

Import JS.

Variable precision : Z.
Hypothesis precision_positive : (1 <= precision)%Z.

(** The integer [roundPositive] rounds to: a significand of [precision]
    bits, or the power of two above them. *)
Lemma significand_bounds q :
  0 < q ->
  let e := (exponent q - (precision - 1))%Z in
  (2 ^ (precision - 1) <= roundHalfEven (q * pow2 (- e)) <= 2 ^ precision)%Z.
Proof.
  intros Hq e. destruct (exponent_spec q Hq) as [E1 E2].
  assert (H1 : pow2 (precision - 1) <= q * pow2 (- e)).
  { replace (precision - 1)%Z with (exponent q + - e)%Z by (unfold e; lia).
    rewrite pow2_plus. by apply scale_le. }
  assert (H2 : q * pow2 (- e) <= pow2 precision).
  { replace (pow2 precision) with (pow2 (exponent q + 1 + - e))
      by (f_equal; unfold e; lia).
    rewrite pow2_plus. apply Qlt_le_weak. by apply scale_lt. }
  rewrite (pow2_Z (precision - 1)) in H1 by lia.
  rewrite (pow2_Z precision) in H2 by lia.
  apply roundHalfEven_monotone in H1, H2.
  rewrite roundHalfEven_Z in H1, H2. lia.
Qed.

Lemma roundPositive_bounds q :
  0 < q ->
  pow2 (exponent q) <= roundPositive precision q /\
  roundPositive precision q <= pow2 (exponent q + 1).
Proof.
  intros Hq. unfold roundPositive.
  set (e := (exponent q - (precision - 1))%Z).
  destruct (significand_bounds q Hq) as [H1 H2]. fold e in H1, H2.
  rewrite Zle_Qle in H1, H2.
  rewrite <- (pow2_Z (precision - 1)) in H1 by lia.
  rewrite <- (pow2_Z precision) in H2 by lia.
  apply (scale_le _ _ e) in H1, H2.
  rewrite <- pow2_plus in H1, H2.
  replace (precision - 1 + e)%Z with (exponent q) in H1 by (unfold e; lia).
  replace (precision + e)%Z with (exponent q + 1)%Z in H2 by (unfold e; lia).
  done.
Qed.

Lemma roundPositive_pos q : 0 < q -> 0 < roundPositive precision q.
Proof.
  intros Hq. destruct (roundPositive_bounds q Hq) as [H _].
  pose proof (pow2_pos (exponent q)). lra.
Qed.

Lemma roundPositive_comp q r :
  0 < q -> q == r -> roundPositive precision q == roundPositive precision r.
Proof.
  intros Hq Heq. unfold roundPositive.
  rewrite <- (exponent_comp q r Hq Heq).
  rewrite (roundHalfEven_comp (q * _) (r * pow2 (- (exponent q - (precision - 1))))).
  - reflexivity.
  - apply Qmult_comp; [exact Heq | reflexivity].
Qed.

Lemma roundPositive_monotone a b :
  0 < a -> a <= b -> roundPositive precision a <= roundPositive precision b.
Proof.
  intros Ha Hab. assert (Hb : 0 < b) by lra.
  destruct (exponent_spec a Ha) as [A1 A2].
  destruct (exponent_spec b Hb) as [B1 B2].
  assert (Hk : (exponent a <= exponent b)%Z).
  { assert (exponent a < exponent b + 1)%Z by (apply pow2_lt_inv; lra). lia. }
  destruct (Z.eq_dec (exponent a) (exponent b)) as [Heq | Hne].
  - unfold roundPositive. rewrite Heq.
    apply scale_le. rewrite <- Zle_Qle.
    apply roundHalfEven_monotone. by apply scale_le.
  - destruct (roundPositive_bounds a Ha) as [_ Ha2].
    destruct (roundPositive_bounds b Hb) as [Hb1 _].
    assert (pow2 (exponent a + 1) <= pow2 (exponent b)) by (apply pow2_le; lia).
    lra.
Qed.

(** A number that [roundPositive] returns is returned as it is. *)
Lemma roundPositive_idempotent q :
  0 < q ->
  roundPositive precision (roundPositive precision q)
  == roundPositive precision q.
Proof.
  intros Hq.
  pose proof (roundPositive_pos q Hq) as Hpos.
  destruct (significand_bounds q Hq) as [N1 N2].
  set (k := exponent q) in *.
  set (e := (k - (precision - 1))%Z) in *.
  set (N := roundHalfEven (q * pow2 (- e))) in *.
  assert (Hr : roundPositive precision q == inject_Z N * pow2 e) by reflexivity.
  destruct (Z.eq_dec N (2 ^ precision)%Z) as [Htop | Hbelow].
  - (* the significand was rounded up to the next power of two *)
    assert (Hval : roundPositive precision q == pow2 (k + 1)).
    { rewrite Hr, Htop, <- pow2_Z, <- pow2_plus by lia.
      by replace (precision + e)%Z with (k + 1)%Z by (unfold e; lia). }
    assert (Hk : exponent (roundPositive precision q) = (k + 1)%Z).
    { apply exponent_unique; rewrite Hval; [lra | apply pow2_lt; lia]. }
    unfold roundPositive at 1. rewrite Hk.
    rewrite (roundHalfEven_comp _ (inject_Z (2 ^ (precision - 1)))).
    + rewrite roundHalfEven_Z, Hval, <- pow2_Z, <- pow2_plus by lia.
      by replace (precision - 1 + (k + 1 - (precision - 1)))%Z
        with (k + 1)%Z by lia.
    + rewrite Hval, <- pow2_plus, <- pow2_Z by lia.
      by replace (k + 1 + - (k + 1 - (precision - 1)))%Z
        with (precision - 1)%Z by lia.
  - assert (Hk : exponent (roundPositive precision q) = k).
    { destruct (roundPositive_bounds q Hq) as [B1 _].
      apply exponent_unique; [exact B1 | ].
      rewrite Hr.
      assert (HN : inject_Z N < pow2 precision).
      { rewrite pow2_Z by lia. rewrite <- Zlt_Qlt. lia. }
      apply (scale_lt _ _ e) in HN. rewrite <- pow2_plus in HN.
      by replace (precision + e)%Z with (k + 1)%Z in HN by (unfold e; lia). }
    unfold roundPositive at 1. rewrite Hk. fold e.
    rewrite (roundHalfEven_comp _ (inject_Z N)).
    + by rewrite roundHalfEven_Z.
    + rewrite Hr. rewrite <- Qmult_assoc, pow2_cancel. ring.
Qed.

(** Rounding moves a number by at most half a unit in the last place. *)
Lemma roundPositive_error q :
  0 < q ->
  Qabs (roundPositive precision q - q) <= pow2 (- precision) * q.
Proof.
  intros Hq. destruct (exponent_spec q Hq) as [E1 _].
  unfold roundPositive.
  set (e := (exponent q - (precision - 1))%Z).
  destruct (roundHalfEven_near (q * pow2 (- e))) as [H1 H2].
  apply (scale_le _ _ e) in H1, H2.
  rewrite scale_back in H1, H2.
  assert (Hhalf : (1 # 2) * pow2 e == pow2 (- precision) * pow2 (exponent q)).
  { rewrite <- pow2_plus.
    replace (- precision + exponent q)%Z with (e + -1)%Z by (unfold e; lia).
    rewrite pow2_plus. change (pow2 (-1)) with (1 # 2). ring. }
  assert (Hle : pow2 (- precision) * pow2 (exponent q) <= pow2 (- precision) * q).
  { apply Qmult_le_l; [apply pow2_pos | exact E1]. }
  apply Qabs_case; intros _; lra.
Qed.

Lemma round_comp q r : q == r -> round precision q == round precision r.
Proof.
  intros Heq. unfold round. rewrite <- (Qcompare_comp q r Heq 0 0 (Qeq_refl 0)).
  destruct (Qcompare q 0) eqn:E.
  - reflexivity.
  - apply Qlt_alt in E. apply Qopp_comp, roundPositive_comp; [lra | by rewrite Heq].
  - apply Qgt_alt in E. by apply roundPositive_comp.
Qed.

Lemma round_positive q : 0 < q -> round precision q = roundPositive precision q.
Proof.
  intros Hq. unfold round.
  destruct (Qcompare q 0) eqn:E;
    [apply Qeq_alt in E; lra | apply Qlt_alt in E; lra | done].
Qed.

Lemma round_negative q :
  q < 0 -> round precision q = - roundPositive precision (- q).
Proof.
  intros Hq. unfold round.
  destruct (Qcompare q 0) eqn:E;
    [apply Qeq_alt in E; lra | done | apply Qgt_alt in E; lra].
Qed.

Lemma round_zero q : q == 0 -> round precision q = 0.
Proof.
  intros Hq. unfold round.
  destruct (Qcompare q 0) eqn:E;
    [done | apply Qlt_alt in E; lra | apply Qgt_alt in E; lra].
Qed.

(** The sign of a number is the sign of what it rounds to. *)
Lemma round_sign q :
  (0 < q -> 0 < round precision q) /\
  (q < 0 -> round precision q < 0) /\
  (q == 0 -> round precision q == 0).
Proof.
  split_and!; intros Hq.
  - rewrite round_positive by done. by apply roundPositive_pos.
  - rewrite round_negative by done.
    assert (0 < roundPositive precision (- q)) by (apply roundPositive_pos; lra).
    lra.
  - by rewrite round_zero.
Qed.

Lemma round_opp q : round precision (- q) == - round precision q.
Proof.
  destruct (Q_dec q 0) as [[Hq | Hq] | Hq].
  - rewrite (round_negative q), round_positive by lra. ring.
  - rewrite (round_positive q), round_negative by lra.
    rewrite (roundPositive_comp (- - q) q); [reflexivity | lra | ring].
  - rewrite (round_zero q), round_zero by lra. reflexivity.
Qed.

Lemma round_monotone a b : a <= b -> round precision a <= round precision b.
Proof.
  intros Hab.
  destruct (round_sign a) as (Apos & Aneg & Azero).
  destruct (round_sign b) as (Bpos & Bneg & Bzero).
  destruct (Q_dec a 0) as [[Ha | Ha] | Ha];
    destruct (Q_dec b 0) as [[Hb | Hb] | Hb]; try lra;
    first
      [ rewrite (round_negative a), (round_negative b) by done;
        apply Qopp_le_compat, roundPositive_monotone; lra
      | rewrite (round_positive a), (round_positive b) by done;
        by apply roundPositive_monotone
      | pose proof (fun H => Qlt_le_weak _ _ (Apos H));
        pose proof (fun H => Qlt_le_weak _ _ (Aneg H));
        pose proof (fun H => Qlt_le_weak _ _ (Bpos H));
        pose proof (fun H => Qlt_le_weak _ _ (Bneg H));
        repeat match goal with
               | H : ?P -> _, H' : ?P |- _ => specialize (H H')
               end;
        lra ].
Qed.

Lemma round_idempotent q :
  round precision (round precision q) == round precision q.
Proof.
  destruct (Q_dec q 0) as [[Hq | Hq] | Hq].
  - rewrite (round_negative q) by done.
    rewrite round_opp. apply Qopp_comp.
    rewrite round_positive by (apply roundPositive_pos; lra).
    apply roundPositive_idempotent. lra.
  - rewrite (round_positive q) by done.
    rewrite round_positive by (by apply roundPositive_pos).
    by apply roundPositive_idempotent.
  - rewrite (round_zero q) by done. by rewrite round_zero.
Qed.

Lemma round_error q :
  Qabs (round precision q - q) <= pow2 (- precision) * Qabs q.
Proof.
  destruct (Q_dec q 0) as [[Hq | Hq] | Hq].
  - rewrite (round_negative q) by done.
    pose proof (roundPositive_error (- q)) as H.
    rewrite (Qabs_neg q) by lra.
    assert (E : - roundPositive precision (- q) - q
                == - (roundPositive precision (- q) - - q)) by ring.
    rewrite E, Qabs_opp. apply H. lra.
  - rewrite (round_positive q), (Qabs_pos q) by lra.
    by apply roundPositive_error.
  - rewrite (round_zero q) by done. rewrite Hq. 
    change (Qabs (0 - 0)) with 0. change (Qabs 0) with 0. lra.
Qed.

End RoundToPrecision.

Section DoubleArithmetic.

Local Open Scope Q_scope.

Lemma binary64_comp q r : q == r -> JS.binary64 q == JS.binary64 r.
Proof. by apply round_comp. Qed.

#[global] Instance binary64_proper : Proper (Qeq ==> Qeq) JS.binary64.
Proof. intros q r H. by apply binary64_comp. Qed.

#[global] Instance JS_add_proper : Proper (Qeq ==> Qeq ==> Qeq) JS.add.
Proof. intros a a' Ha b b' Hb. unfold JS.add. by rewrite Ha, Hb. Qed.

#[global] Instance JS_sub_proper : Proper (Qeq ==> Qeq ==> Qeq) JS.sub.
Proof. intros a a' Ha b b' Hb. unfold JS.sub. by rewrite Ha, Hb. Qed.

#[global] Instance JS_mul_proper : Proper (Qeq ==> Qeq ==> Qeq) JS.mul.
Proof. intros a a' Ha b b' Hb. unfold JS.mul. by rewrite Ha, Hb. Qed.

Lemma binary64_monotone a b : a <= b -> JS.binary64 a <= JS.binary64 b.
Proof. by apply round_monotone. Qed.

Lemma binary64_idempotent q : JS.isDouble (JS.binary64 q).
Proof. by apply round_idempotent. Qed.

Lemma binary64_opp q : JS.binary64 (- q) == - JS.binary64 q.
Proof. by apply round_opp. Qed.

Lemma binary64_zero : JS.binary64 0 == 0.
Proof. reflexivity. Qed.

Lemma binary64_sign q :
  (0 < q -> 0 < JS.binary64 q) /\
  (q < 0 -> JS.binary64 q < 0) /\
  (q == 0 -> JS.binary64 q == 0).
Proof. by apply round_sign. Qed.

Lemma binary64_nonneg q : 0 <= q -> 0 <= JS.binary64 q.
Proof.
  intros Hq. destruct (binary64_sign q) as (Hpos & _ & Hzero).
  destruct (Qle_lt_or_eq _ _ Hq) as [H | H].
  - apply Qlt_le_weak. by apply Hpos.
  - rewrite Hzero by (by symmetry). lra.
Qed.

(** Rounding moves a number by at most [2 ** -53] of its magnitude. *)
Lemma binary64_error q :
  Qabs (JS.binary64 q - q) <= (1 # 9007199254740992) * Qabs q.
Proof. exact (round_error 53 q). Qed.

(** The results of the four operations are doubles, and doubles are closed
    under negation. *)
Lemma isDouble_opp q : JS.isDouble q -> JS.isDouble (- q).
Proof. unfold JS.isDouble. intros H. by rewrite binary64_opp, H. Qed.

Lemma isDouble_0 : JS.isDouble 0.
Proof. reflexivity. Qed.

Lemma isDouble_1 : JS.isDouble 1.
Proof. reflexivity. Qed.

Lemma JS_add_comm a b : JS.add a b == JS.add b a.
Proof. unfold JS.add. by rewrite Qplus_comm. Qed.

Lemma JS_mul_comm a b : JS.mul a b == JS.mul b a.
Proof. unfold JS.mul. by rewrite Qmult_comm. Qed.

Lemma JS_add_0_r a : JS.isDouble a -> JS.add a 0 == a.
Proof. unfold JS.add, JS.isDouble. intros H. by rewrite Qplus_0_r. Qed.

Lemma JS_add_0_l a : JS.isDouble a -> JS.add 0 a == a.
Proof. unfold JS.add, JS.isDouble. intros H. by rewrite Qplus_0_l. Qed.

Lemma JS_mul_0_r a : JS.mul a 0 == 0.
Proof. unfold JS.mul. by rewrite Qmult_0_r. Qed.

Lemma JS_mul_0_l a : JS.mul 0 a == 0.
Proof. unfold JS.mul. by rewrite Qmult_0_l. Qed.

Lemma JS_mul_1_r a : JS.isDouble a -> JS.mul a 1 == a.
Proof. unfold JS.mul, JS.isDouble. intros H. by rewrite Qmult_1_r. Qed.

Lemma JS_mul_1_l a : JS.isDouble a -> JS.mul 1 a == a.
Proof. unfold JS.mul, JS.isDouble. intros H. by rewrite Qmult_1_l. Qed.

Lemma JS_sub_diag a : JS.sub a a == 0.
Proof.
  unfold JS.sub. assert (H : a - a == 0) by ring. by rewrite H.
Qed.

Lemma JS_add_opp a : JS.add a (- a) == 0.
Proof.
  unfold JS.add. assert (H : a + - a == 0) by ring. by rewrite H.
Qed.

Lemma isDouble_add a b : JS.isDouble (JS.add a b).
Proof. apply binary64_idempotent. Qed.

Lemma isDouble_sub a b : JS.isDouble (JS.sub a b).
Proof. apply binary64_idempotent. Qed.

Lemma isDouble_mul a b : JS.isDouble (JS.mul a b).
Proof. apply binary64_idempotent. Qed.

Lemma JS_sub_add_opp a b : JS.sub a b == JS.add a (- b).
Proof. reflexivity. Qed.

(** A sum that is a double is computed exactly, and so its summand is
    recovered by subtraction. *)
Lemma JS_add_exact a b : JS.isDouble (a + b) -> JS.add a b == a + b.
Proof. intros H. exact H. Qed.

Lemma JS_sub_add a b :
  JS.isDouble a -> JS.isDouble (a + b) -> JS.sub (JS.add a b) b == a.
Proof.
  intros Ha Hab. unfold JS.sub. rewrite (JS_add_exact _ _ Hab).
  unfold JS.isDouble in Ha. rewrite <- Ha at 2. apply binary64_comp. ring.
Qed.


End DoubleArithmetic.

(** ** Reading back what was written to a buffer *)

Section BufferFacts.

Implicit Types (a : JS.array) (i j n : nat) (v : JS.number).

Lemma JS_get_set_eq a i v :
  JS.largeEnough a i 1 -> JS.get (JS.set a i v) i = Some (JS.stored a v).
Proof.
  destruct a as [l | t l]; simpl; intros Hi.
  - case_decide as Hlt; simpl.
    + by rewrite list_lookup_insert_eq.
    + rewrite lookup_app_r by lia.
      rewrite lookup_app_r by (rewrite length_replicate; lia).
      rewrite length_replicate.
      by replace (i - length l - (i - length l))%nat with 0%nat by lia.
  - rewrite list_lookup_insert_eq by lia. done.
Qed.

Lemma JS_get_set_ne a i j v :
  i <> j -> JS.get (JS.set a i v) j = JS.get a j.
Proof.
  destruct a as [l | t l]; simpl; intros Hne.
  - case_decide as Hlt; simpl.
    + by rewrite list_lookup_insert_ne.
    + destruct (decide (j < length l)%nat) as [Hj | Hj].
      * by rewrite lookup_app_l.
      * rewrite (lookup_ge_None_2 l j) by lia.
        rewrite lookup_app_r by lia.
        destruct (decide (j < i)%nat) as [Hji | Hji].
        -- rewrite lookup_app_l by (rewrite length_replicate; lia).
           rewrite lookup_replicate_2 by lia. done.
        -- rewrite lookup_app_r by (rewrite length_replicate; lia).
           rewrite length_replicate.
           rewrite lookup_ge_None_2; [done | simpl; lia].
  - by rewrite list_lookup_insert_ne.
Qed.

Lemma JS_largeEnough_set a i j n v :
  JS.largeEnough a i n -> JS.largeEnough (JS.set a j v) i n.
Proof.
  destruct a as [l | t l]; simpl.
  - by case_decide.
  - by rewrite length_insert.
Qed.

Lemma JS_largeEnough_slot a i n j :
  JS.largeEnough a i n -> (i <= j < i + n)%nat -> JS.largeEnough a j 1.
Proof. destruct a; simpl; [done | lia]. Qed.

(** A write does not change what the buffer makes of a number. *)
Lemma JS_stored_set a i v w : JS.stored (JS.set a i v) w = JS.stored a w.
Proof. destruct a as [l | t l]; simpl; [by case_decide | done]. Qed.

Lemma JS_storesExactly_set a i v :
  JS.storesExactly a -> JS.storesExactly (JS.set a i v).
Proof. destruct a as [l | t l]; simpl; [by case_decide | done]. Qed.

Lemma JS_stored_exactly a v : JS.storesExactly a -> JS.stored a v = v.
Proof. destruct a as [l | t l]; simpl; [done | by intros ->]. Qed.

End BufferFacts.

(** Reads a slot back after a run of writes, [H] saying that the buffer is
    large enough for all of them. *)
Ltac read_back H :=
  repeat first
    [ rewrite JS_get_set_ne by lia
    | rewrite JS_get_set_eq
        by (repeat apply JS_largeEnough_set;
            apply (JS_largeEnough_slot _ _ _ _ H);
            cbv [Matrix2.packedLength BoundingRectangle.packedLength
                 DistanceDisplayCondition.packedLength]; lia) ];
  rewrite ?JS_stored_set;
  simpl.

Lemma Matrix2_unpack_pack value array startingIndex result :
  JS.largeEnough array startingIndex Matrix2.packedLength ->
  Matrix2.unpack (Matrix2.pack value array startingIndex) startingIndex result
  = Some (Matrix2.storedIn array value).
Proof.
  intros Hlarge. unfold Matrix2.unpack, Matrix2.pack.
  read_back Hlarge. by destruct value.
Qed.

Lemma BoundingRectangle_unpack_pack value array startingIndex result :
  JS.largeEnough array startingIndex BoundingRectangle.packedLength ->
  BoundingRectangle.unpack (BoundingRectangle.pack value array startingIndex)
    startingIndex result = Some (BoundingRectangle.storedIn array value).
Proof.
  intros Hlarge. unfold BoundingRectangle.unpack, BoundingRectangle.pack.
  read_back Hlarge. by destruct value.
Qed.

Lemma DistanceDisplayCondition_unpack_pack value array startingIndex result :
  JS.largeEnough array startingIndex DistanceDisplayCondition.packedLength ->
  DistanceDisplayCondition.unpack
    (DistanceDisplayCondition.pack value array startingIndex)
    startingIndex result
  = Some (DistanceDisplayCondition.storedIn array value).
Proof.
  intros Hlarge.
  unfold DistanceDisplayCondition.unpack, DistanceDisplayCondition.pack.
  read_back Hlarge. by destruct value.
Qed.

(** On a buffer that holds numbers as they are, the value comes back as
    it was. *)
Lemma Matrix2_storedIn_exactly array value :
  JS.storesExactly array -> Matrix2.storedIn array value = value.
Proof.
  intros H. unfold Matrix2.storedIn. rewrite !JS_stored_exactly by done.
  by destruct value.
Qed.

Lemma BoundingRectangle_storedIn_exactly array value :
  JS.storesExactly array -> BoundingRectangle.storedIn array value = value.
Proof.
  intros H. unfold BoundingRectangle.storedIn.
  rewrite !JS_stored_exactly by done. by destruct value.
Qed.

Lemma DistanceDisplayCondition_storedIn_exactly array value :
  JS.storesExactly array ->
  DistanceDisplayCondition.storedIn array value = value.
Proof.
  intros H. unfold DistanceDisplayCondition.storedIn.
  rewrite !JS_stored_exactly by done. by destruct value.
Qed.

(** C8, as the specification states it, fails: a [Float32Array] of four
    elements is large enough for a matrix, and holds the single-precision
    number nearest to each element.  The double nearest to 0.1 comes back
    as 13421773 / 2 ** 27 (0.10000000149011612), and an [Int32Array] gives
    1 back for 1.5. *)
Lemma pack_into_Float32Array_rounds :
  let value := (Matrix2.mk (JS.binary64 (1 # 10)) 0 0 0)%Q in
  let array := JS.TypedArray JS.Float32 [0; 0; 0; 0]%Q in
  JS.largeEnough array 0 Matrix2.packedLength /\
  (exists unpacked,
      Matrix2.unpack (Matrix2.pack value array 0) 0 None = Some unpacked /\
      (Matrix2.m0 unpacked == 13421773 # 134217728)%Q /\
      Matrix2.equals (Some unpacked) (Some value) = false) /\
  BoundingRectangle.unpack
    (BoundingRectangle.pack (BoundingRectangle.mk (3 # 2) 0 0 0)%Q
       (JS.TypedArray JS.Int32 [0; 0; 0; 0]%Q) 0) 0 None
  = Some (BoundingRectangle.mk 1 0 0 0)%Q.
Proof.
  intros value array. split_and!.
  - simpl. unfold Matrix2.packedLength. lia.
  - eexists. split_and!; [reflexivity | by vm_compute | by vm_compute].
  - by vm_compute.
Qed.

(** C8, amended.  Pack/unpack is a round trip on the buffers that hold
    numbers as they are: for every Matrix2, BoundingRectangle and
    DistanceDisplayCondition value, every plain array (which grows) or
    [Float64Array] with [packedLength] slots from the offset on, and every
    starting offset, unpacking at that offset from the buffer [pack]
    produced gives back the value, component by component, with or without
    a pre-allocated result.  From any other typed array that is large
    enough it gives back the value with each component converted to the
    element type of the array. *)
Theorem pack_unpack_round_trip :
  (forall (value : Matrix2.Matrix2) array startingIndex result,
      JS.largeEnough array startingIndex Matrix2.packedLength ->
      Matrix2.unpack (Matrix2.pack value array startingIndex)
        startingIndex result = Some (Matrix2.storedIn array value) /\
      (JS.storesExactly array ->
       Matrix2.unpack (Matrix2.pack value array startingIndex)
         startingIndex result = Some value)) /\
  (forall (value : BoundingRectangle.BoundingRectangle) array startingIndex
          result,
      JS.largeEnough array startingIndex BoundingRectangle.packedLength ->
      BoundingRectangle.unpack
        (BoundingRectangle.pack value array startingIndex)
        startingIndex result
      = Some (BoundingRectangle.storedIn array value) /\
      (JS.storesExactly array ->
       BoundingRectangle.unpack
         (BoundingRectangle.pack value array startingIndex)
         startingIndex result = Some value)) /\
  (forall (value : DistanceDisplayCondition.DistanceDisplayCondition) array
          startingIndex result,
      JS.largeEnough array startingIndex
        DistanceDisplayCondition.packedLength ->
      DistanceDisplayCondition.unpack
        (DistanceDisplayCondition.pack value array startingIndex)
        startingIndex result
      = Some (DistanceDisplayCondition.storedIn array value) /\
      (JS.storesExactly array ->
       DistanceDisplayCondition.unpack
         (DistanceDisplayCondition.pack value array startingIndex)
         startingIndex result = Some value)).
Proof.
  split; [ | split ]; intros value array startingIndex result Hlarge.
  - rewrite Matrix2_unpack_pack by done.
    split; [done | intros H; by rewrite Matrix2_storedIn_exactly].
  - rewrite BoundingRectangle_unpack_pack by done.
    split; [done | intros H; by rewrite BoundingRectangle_storedIn_exactly].
  - rewrite DistanceDisplayCondition_unpack_pack by done.
    split;
      [done | intros H; by rewrite DistanceDisplayCondition_storedIn_exactly].
Qed.

(** The round trip at offset 1 of a six-slot [Float64Array], of a plain
    array that has to grow, and of a two-slot [Float64Array]. *)
Lemma pack_unpack_round_trip_witness :
  Matrix2.unpack
    (Matrix2.pack (Matrix2.mk 1 2 3 4)%Q
       (JS.TypedArray JS.Float64 [0; 0; 0; 0; 0; 0]%Q) 1)
    1 None = Some (Matrix2.mk 1 2 3 4)%Q /\
  BoundingRectangle.unpack
    (BoundingRectangle.pack (BoundingRectangle.mk 5 6 7 8)%Q
       (JS.PlainArray [Some 9%Q]) 3)
    3 None = Some (BoundingRectangle.mk 5 6 7 8)%Q /\
  DistanceDisplayCondition.unpack
    (DistanceDisplayCondition.pack (DistanceDisplayCondition.mk 10 20)%Q
       (JS.TypedArray JS.Float64 [0; 0]%Q) 0)
    0 None = Some (DistanceDisplayCondition.mk 10 20)%Q.
Proof.
  destruct pack_unpack_round_trip as (HM & HR & HD).
  split; [ | split ].
  - apply HM; [unfold Matrix2.packedLength; simpl; lia | reflexivity].
  - apply HR; [simpl; exact I | simpl; exact I].
  - apply HD;
      [unfold DistanceDisplayCondition.packedLength; simpl; lia | reflexivity].
Defined.

(** A typed array too short for the value does not give it back: the
    write past its end is dropped. *)
Example Matrix2_pack_short_typed_array :
  Matrix2.unpack
    (Matrix2.pack (Matrix2.mk 1 2 3 4)%Q
       (JS.TypedArray JS.Float64 [0; 0; 0]%Q) 0) 0 None
  = None.
Proof. reflexivity. Qed.

(** ** The optional result parameter *)

(** C10, as the specification states it, fails: [Matrix2.clone] takes any
    matrix-like object, and for the one-element array [[1]] the allocating
    path hands the missing elements to the constructor, whose defaults make
    them 0.0, while the in-place path copies [undefined] into the result. *)
Lemma clone_short_array_paths_differ :
  let matrix := Some (Matrix2.LikeArray (JS.PlainArray [Some 1%Q])) in
  let result := (Matrix2.mk 9 9 9 9)%Q in
  Matrix2.clone matrix None = Matrix2.ReturnsMatrix2 (Matrix2.mk 1 0 0 0)%Q /\
  Matrix2.clone matrix (Some result) = Matrix2.ReturnsIncomplete /\
  Matrix2.clone matrix None <> Matrix2.clone matrix (Some result).
Proof. split_and!; [reflexivity | reflexivity | discriminate]. Qed.

(** C10, amended.  The allocating and the in-place path of the
    optional-result pattern compute the same value: [Matrix2.unpack] and
    [BoundingRectangle.clone] for every input, and [Matrix2.clone] for
    every input that is undefined or has all four elements (a Matrix2, or
    an array of at least four numbers), return, when [result] is omitted,
    a value componentwise equal to the one they store and return when a
    pre-allocated [result] is supplied. *)
Theorem optional_result_paths_agree :
  (forall array startingIndex (result : Matrix2.Matrix2),
      Matrix2.unpack array startingIndex None
      = Matrix2.unpack array startingIndex (Some result)) /\
  (forall matrix (result : Matrix2.Matrix2),
      match matrix with
      | Some matrix => Matrix2.complete matrix
      | None => True
      end ->
      Matrix2.clone matrix None = Matrix2.clone matrix (Some result)) /\
  (forall rectangle (result : BoundingRectangle.BoundingRectangle),
      BoundingRectangle.clone rectangle None
      = BoundingRectangle.clone rectangle (Some result)).
Proof.
  split; [ | split ].
  - intros array startingIndex result. unfold Matrix2.unpack.
    destruct (JS.get array startingIndex) as [v0 | ]; [simpl | done].
    destruct (JS.get array (S startingIndex)) as [v1 | ]; [simpl | done].
    destruct (JS.get array (S (S startingIndex))) as [v2 | ]; [simpl | done].
    destruct (JS.get array (S (S (S startingIndex)))) as [v3 | ]; [simpl | done].
    reflexivity.
  - intros [matrix | ] result Hcomplete; [ | reflexivity].
    destruct (Hcomplete 0%nat) as [v0 H0]; [lia | ].
    destruct (Hcomplete 1%nat) as [v1 H1]; [lia | ].
    destruct (Hcomplete 2%nat) as [v2 H2]; [lia | ].
    destruct (Hcomplete 3%nat) as [v3 H3]; [lia | ].
    unfold Matrix2.clone. rewrite H0, H1, H2, H3. reflexivity.
  - intros [rectangle | ] result; reflexivity.
Qed.

(** A matrix cloned into a result that held other numbers. *)
Lemma optional_result_paths_agree_witness :
  Matrix2.clone (Some (Matrix2.LikeMatrix2 (Matrix2.mk 1 2 3 4)%Q)) None
  = Matrix2.clone (Some (Matrix2.LikeMatrix2 (Matrix2.mk 1 2 3 4)%Q))
      (Some (Matrix2.mk 9 9 9 9)%Q).
Proof.
  destruct optional_result_paths_agree as (_ & Hclone & _).
  apply Hclone. intros i Hi.
  destruct i as [ | [ | [ | [ | i]]]]; simpl; by eauto || lia.
Defined.

(** ** BoundingRectangle.union *)

Section UnionFacts.

Local Open Scope Q_scope.

Import BoundingRectangle.

(** [union], whatever result object it is given. *)
Lemma union_fields left right result :
  union left right result
  = BoundingRectangle.mk
      (Qmin (x left) (x right)) (Qmin (y left) (y right))
      (JS.sub (Qmax (JS.add (x left) (width left))
                    (JS.add (x right) (width right)))
              (Qmin (x left) (x right)))
      (JS.sub (Qmax (JS.add (y left) (height left))
                    (JS.add (y right) (height right)))
              (Qmin (y left) (y right))).
Proof. by destruct result as [[] | ]. Qed.

(** One axis of [union]: the lower edge [lo], the upper edge [hi] that is
    subtracted from, and the size [JS.sub hi lo].  An exact sum [s] whose
    rounding is not above [hi] is not above the upper edge of the result
    by more than the slack. *)
Lemma union_axis_slack lo hi s :
  JS.binary64 s <= hi ->
  s <= lo + (JS.sub hi lo + roundingSlack s (JS.sub hi lo)).
Proof.
  intros Hs. unfold roundingSlack, JS.unitRoundoff, JS.sub.
  pose proof (binary64_error s) as E1.
  pose proof (binary64_error (hi - lo)) as E2.
  apply Qabs_Qle_condition in E1, E2.
  set (W := JS.binary64 (hi - lo)) in *.
  pose proof (Qabs_nonneg s). pose proof (Qabs_nonneg W).
  pose proof (Qle_Qabs W) as HW1.
  pose proof (Qle_Qabs (- W)) as HW2. rewrite Qabs_opp in HW2.
  revert E2. apply Qabs_case; intros Hsign E2; lra.
Qed.

(** With exact sums and an exact difference the size reaches the upper
    edge. *)
Lemma union_axis_exact a wa b wb :
  JS.isDouble (a + wa) -> JS.isDouble (b + wb) ->
  JS.isDouble (Qmax (a + wa) (b + wb) - Qmin a b) ->
  JS.sub (Qmax (JS.add a wa) (JS.add b wb)) (Qmin a b)
  == Qmax (a + wa) (b + wb) - Qmin a b.
Proof.
  unfold JS.isDouble, JS.add, JS.sub. intros Ha Hb Hd.
  assert (E : Qmax (JS.binary64 (a + wa)) (JS.binary64 (b + wb))
              == Qmax (a + wa) (b + wb)) by (by rewrite Ha, Hb).
  by rewrite E, Hd.
Qed.

End UnionFacts.

(** C7, as the specification states it, fails twice.  A rectangle of
    negative width has corners to the left of its [x], and [union] takes
    [min(left.x, right.x)] for the left edge of the result.  And with
    widths that are not negative the subtraction that gives the width
    rounds: for A = (0.2, 0, 0, 1) and B = (0.7, 0, 0.1, 1) the right edge
    of the union, as a sum of doubles and as an exact sum, is below the
    right edge of B. *)
Lemma union_corners_escape :
  (let A := BoundingRectangle.mk 0 0 (-5) 1 in
   let B := BoundingRectangle.mk 10 0 1 1 in
   BoundingRectangle.equals (Some (BoundingRectangle.union A B None))
     (Some (BoundingRectangle.mk 0 0 11 1)) = true /\
   ~ (BoundingRectangle.containsCorners (BoundingRectangle.union A B None) A /\
      BoundingRectangle.containsCorners (BoundingRectangle.union A B None) B))%Q /\
  (let A := BoundingRectangle.mk (JS.binary64 (2 # 10)) 0 0 1 in
   let B := BoundingRectangle.mk (JS.binary64 (7 # 10)) 0
              (JS.binary64 (1 # 10)) 1 in
   let r := BoundingRectangle.union A B None in
   BoundingRectangle.proper A /\ BoundingRectangle.proper B /\
   BoundingRectangle.x r + BoundingRectangle.width r
   < BoundingRectangle.x B + BoundingRectangle.width B /\
   JS.add (BoundingRectangle.x r) (BoundingRectangle.width r)
   < JS.add (BoundingRectangle.x B) (BoundingRectangle.width B) /\
   ~ BoundingRectangle.containsCorners r B)%Q.
Proof.
  split.
  - split; [by vm_compute | ].
    intros [(_ & ((Hx & _) & _) & _) _].
    vm_compute in Hx. by apply Hx.
  - split_and!; try (by vm_compute).
    intros (_ & ((_ & Hx) & _) & _).
    vm_compute in Hx. by apply Hx.
Qed.

(** C7, amended.  For every pair of BoundingRectangles A and B whose widths
    and heights are not negative, whether or not a result object is
    supplied: the lower left corner of [union(A, B)] is the componentwise
    minimum of the lower left corners of A and B; all four corners of A
    and all four corners of B fall within the extent of the result widened
    to the right and upward by the rounding error of the additions and the
    subtraction of the axis, [2 ** -53] times the magnitude of the
    rectangle's own upper edge plus twice the result's size; and when
    these additions and subtractions are exact, all four corners of A and
    of B fall within
    [[result.x, result.x + result.width] x
     [result.y, result.y + result.height]] itself. *)
Theorem union_contains_both (A B : BoundingRectangle.BoundingRectangle)
    (result : option BoundingRectangle.BoundingRectangle) :
  BoundingRectangle.proper A -> BoundingRectangle.proper B ->
  let r := BoundingRectangle.union A B result in
  (BoundingRectangle.x r
   == Qmin (BoundingRectangle.x A) (BoundingRectangle.x B))%Q /\
  (BoundingRectangle.y r
   == Qmin (BoundingRectangle.y A) (BoundingRectangle.y B))%Q /\
  BoundingRectangle.containsCorners
    (BoundingRectangle.widened r
       (BoundingRectangle.roundingSlack
          (BoundingRectangle.x A + BoundingRectangle.width A)
          (BoundingRectangle.width r))
       (BoundingRectangle.roundingSlack
          (BoundingRectangle.y A + BoundingRectangle.height A)
          (BoundingRectangle.height r))) A /\
  BoundingRectangle.containsCorners
    (BoundingRectangle.widened r
       (BoundingRectangle.roundingSlack
          (BoundingRectangle.x B + BoundingRectangle.width B)
          (BoundingRectangle.width r))
       (BoundingRectangle.roundingSlack
          (BoundingRectangle.y B + BoundingRectangle.height B)
          (BoundingRectangle.height r))) B /\
  (BoundingRectangle.exactUnion A B ->
   BoundingRectangle.containsCorners r A /\
   BoundingRectangle.containsCorners r B).
Proof.
  intros [HwA HhA] [HwB HhB] r. unfold r. rewrite union_fields.
  destruct A as [ax ay aw ah], B as [bx byy bw bh].
  cbn [BoundingRectangle.x BoundingRectangle.y BoundingRectangle.width
       BoundingRectangle.height] in *.
  pose proof (Q.le_min_l ax bx). pose proof (Q.le_min_r ax bx).
  pose proof (Q.le_min_l ay byy). pose proof (Q.le_min_r ay byy).
  pose proof (union_axis_slack (Qmin ax bx)
                (Qmax (JS.add ax aw) (JS.add bx bw)) (ax + aw)
                (Q.le_max_l _ _)) as SAx.
  pose proof (union_axis_slack (Qmin ay byy)
                (Qmax (JS.add ay ah) (JS.add byy bh)) (ay + ah)
                (Q.le_max_l _ _)) as SAy.
  pose proof (union_axis_slack (Qmin ax bx)
                (Qmax (JS.add ax aw) (JS.add bx bw)) (bx + bw)
                (Q.le_max_r _ _)) as SBx.
  pose proof (union_axis_slack (Qmin ay byy)
                (Qmax (JS.add ay ah) (JS.add byy bh)) (byy + bh)
                (Q.le_max_r _ _)) as SBy.
  split_and!.
  - reflexivity.
  - reflexivity.
  - unfold BoundingRectangle.containsCorners, BoundingRectangle.inExtent,
      BoundingRectangle.widened; simpl. split_and!; lra.
  - unfold BoundingRectangle.containsCorners, BoundingRectangle.inExtent,
      BoundingRectangle.widened; simpl. split_and!; lra.
  - intros (E1 & E2 & E3 & E4 & E5 & E6). simpl in E1, E2, E3, E4, E5, E6.
    pose proof (union_axis_exact ax aw bx bw E1 E2 E5) as Ex.
    pose proof (union_axis_exact ay ah byy bh E3 E4 E6) as Ey.
    pose proof (Q.le_max_l (ax + aw) (bx + bw)).
    pose proof (Q.le_max_r (ax + aw) (bx + bw)).
    pose proof (Q.le_max_l (ay + ah) (byy + bh)).
    pose proof (Q.le_max_r (ay + ah) (byy + bh)).
    unfold BoundingRectangle.containsCorners, BoundingRectangle.inExtent;
      simpl.
    split; split_and!; lra.
Qed.

(** Two rectangles with integer coordinates, where nothing is rounded, and
    the two of the counterexample, within the slack. *)
Lemma union_contains_both_witness :
  (BoundingRectangle.containsCorners
     (BoundingRectangle.union (BoundingRectangle.mk 0 0 2 3)
        (BoundingRectangle.mk 1 (-1) 4 1) None)
     (BoundingRectangle.mk 0 0 2 3) /\
   BoundingRectangle.containsCorners
     (BoundingRectangle.union (BoundingRectangle.mk 0 0 2 3)
        (BoundingRectangle.mk 1 (-1) 4 1) None)
     (BoundingRectangle.mk 1 (-1) 4 1))%Q /\
  (let A := BoundingRectangle.mk (JS.binary64 (2 # 10)) 0 0 1 in
   let B := BoundingRectangle.mk (JS.binary64 (7 # 10)) 0
              (JS.binary64 (1 # 10)) 1 in
   let r := BoundingRectangle.union A B None in
   BoundingRectangle.containsCorners
     (BoundingRectangle.widened r
        (BoundingRectangle.roundingSlack
           (BoundingRectangle.x B + BoundingRectangle.width B)
           (BoundingRectangle.width r))
        (BoundingRectangle.roundingSlack
           (BoundingRectangle.y B + BoundingRectangle.height B)
           (BoundingRectangle.height r))) B)%Q.
Proof.
  split.
  - destruct (union_contains_both (BoundingRectangle.mk 0 0 2 3)%Q
                (BoundingRectangle.mk 1 (-1) 4 1)%Q None)
      as (_ & _ & _ & _ & Hexact).
    + split; simpl; unfold Qle; simpl; lia.
    + split; simpl; unfold Qle; simpl; lia.
    + apply Hexact. unfold BoundingRectangle.exactUnion. simpl.
      split_and!; by vm_compute.
  - intros A B r.
    destruct (union_contains_both A B None) as (_ & _ & _ & HB & _).
    + split; by vm_compute.
    + split; by vm_compute.
    + exact HB.
Defined.

(** ** AxisAlignedBoundingBox.fromPoints *)

Section FromPointsFacts.

Local Open Scope Q_scope.

Import AxisAlignedBoundingBox.

(** The scan only widens the running bounds. *)
Lemma scan_widens positions b :
  (minimumX (scan positions b) <= minimumX b /\
   maximumX b <= maximumX (scan positions b)) /\
  (minimumY (scan positions b) <= minimumY b /\
   maximumY b <= maximumY (scan positions b)) /\
  (minimumZ (scan positions b) <= minimumZ b /\
   maximumZ b <= maximumZ (scan positions b)).
Proof.
  revert b. induction positions as [ | p positions IH]; intros b; simpl.
  - repeat split; lra.
  - destruct (IH (mkBounds
                    (Qmin (Cartesian3.x p) (minimumX b))
                    (Qmin (Cartesian3.y p) (minimumY b))
                    (Qmin (Cartesian3.z p) (minimumZ b))
                    (Qmax (Cartesian3.x p) (maximumX b))
                    (Qmax (Cartesian3.y p) (maximumY b))
                    (Qmax (Cartesian3.z p) (maximumZ b))))
      as ((Hx1 & Hx2) & (Hy1 & Hy2) & (Hz1 & Hz2)).
    simpl in *.
    pose proof (Q.le_min_r (Cartesian3.x p) (minimumX b)).
    pose proof (Q.le_min_r (Cartesian3.y p) (minimumY b)).
    pose proof (Q.le_min_r (Cartesian3.z p) (minimumZ b)).
    pose proof (Q.le_max_r (Cartesian3.x p) (maximumX b)).
    pose proof (Q.le_max_r (Cartesian3.y p) (maximumY b)).
    pose proof (Q.le_max_r (Cartesian3.z p) (maximumZ b)).
    repeat split; lra.
Qed.

(** Every scanned position ends up between the final bounds. *)
Lemma scan_encloses positions b p :
  p ∈ positions ->
  (minimumX (scan positions b) <= Cartesian3.x p /\
   Cartesian3.x p <= maximumX (scan positions b)) /\
  (minimumY (scan positions b) <= Cartesian3.y p /\
   Cartesian3.y p <= maximumY (scan positions b)) /\
  (minimumZ (scan positions b) <= Cartesian3.z p /\
   Cartesian3.z p <= maximumZ (scan positions b)).
Proof.
  revert b. induction positions as [ | q positions IH]; intros b Hin.
  - by apply elem_of_nil in Hin.
  - apply elem_of_cons in Hin as [-> | Hin]; simpl.
    + pose proof (scan_widens positions
                    (mkBounds
                       (Qmin (Cartesian3.x q) (minimumX b))
                       (Qmin (Cartesian3.y q) (minimumY b))
                       (Qmin (Cartesian3.z q) (minimumZ b))
                       (Qmax (Cartesian3.x q) (maximumX b))
                       (Qmax (Cartesian3.y q) (maximumY b))
                       (Qmax (Cartesian3.z q) (maximumZ b))))
        as ((Hx1 & Hx2) & (Hy1 & Hy2) & (Hz1 & Hz2)).
      simpl in *.
      pose proof (Q.le_min_l (Cartesian3.x q) (minimumX b)).
      pose proof (Q.le_min_l (Cartesian3.y q) (minimumY b)).
      pose proof (Q.le_min_l (Cartesian3.z q) (minimumZ b)).
      pose proof (Q.le_max_l (Cartesian3.x q) (maximumX b)).
      pose proof (Q.le_max_l (Cartesian3.y q) (maximumY b)).
      pose proof (Q.le_max_l (Cartesian3.z q) (maximumZ b)).
      repeat split; lra.
    + by apply IH.
Qed.

(** [min] and [max] return one of their arguments. *)
Lemma Qmin_either a b : Qmin a b = a \/ Qmin a b = b.
Proof.
  unfold Qmin, GenericMinMax.gmin. destruct (a ?= b); auto.
Qed.

Lemma Qmax_either a b : Qmax a b = a \/ Qmax a b = b.
Proof.
  unfold Qmax, GenericMinMax.gmax. destruct (a ?= b); auto.
Qed.

(** The running bounds stay coordinates of positions seen. *)
Lemma scan_attains positions seen b :
  attains seen b -> attains (seen ++ positions) (scan positions b).
Proof.
  revert seen b. induction positions as [ | q positions IH]; intros seen b Hb.
  - by rewrite app_nil_r.
  - simpl. rewrite (cons_middle q seen positions), app_assoc.
    apply IH.
    destruct Hb as (Hx1 & Hy1 & Hz1 & Hx2 & Hy2 & Hz2).
    unfold attains; simpl.
    split_and!;
      match goal with
      | |- exists p, _ /\ _ = Qmin ?a ?c =>
          destruct (Qmin_either a c) as [-> | ->]
      | |- exists p, _ /\ _ = Qmax ?a ?c =>
          destruct (Qmax_either a c) as [-> | ->]
      end;
      first [ exists q; split;
              [apply elem_of_app; right; by apply list_elem_of_singleton
              | reflexivity]
            | match goal with
              | H : exists p, p ∈ seen /\ ?f p = ?v |- exists p, _ /\ ?f p = ?v =>
                  destruct H as (p & Hp & Hv); exists p; split;
                  [apply elem_of_app; by left | exact Hv]
              end ].
Qed.

(** [fromPoints] on a list with at least one position. *)
Lemma fromPoints_cons p0 rest result :
  let box := fromPoints (Some (p0 :: rest)) result in
  (forall p, p ∈ p0 :: rest -> contains box p) /\ tight box (p0 :: rest).
Proof.
  set (b0 := mkBounds (Cartesian3.x p0) (Cartesian3.y p0) (Cartesian3.z p0)
                      (Cartesian3.x p0) (Cartesian3.y p0) (Cartesian3.z p0)).
  assert (Hall : forall p, p ∈ p0 :: rest ->
            (minimumX (scan rest b0) <= Cartesian3.x p /\
             Cartesian3.x p <= maximumX (scan rest b0)) /\
            (minimumY (scan rest b0) <= Cartesian3.y p /\
             Cartesian3.y p <= maximumY (scan rest b0)) /\
            (minimumZ (scan rest b0) <= Cartesian3.z p /\
             Cartesian3.z p <= maximumZ (scan rest b0))).
  { intros p Hin. apply elem_of_cons in Hin as [-> | Hin].
    - exact (scan_widens rest b0).
    - by apply scan_encloses. }
  assert (Hatt : attains ([p0] ++ rest) (scan rest b0)).
  { apply scan_attains. unfold attains, b0; simpl.
    split_and!; exists p0; (split; [by apply list_elem_of_singleton | reflexivity]). }
  simpl in Hatt. destruct Hatt as (Hx1 & Hy1 & Hz1 & Hx2 & Hy2 & Hz2).
  split.
  - intros p Hin. exact (Hall p Hin).
  - unfold tight, extremes; simpl. fold b0.
    split_and!;
      first
        [ intros p Hin; destruct (Hall p Hin) as (Hx & Hy & Hz);
          first [exact Hx | exact Hy | exact Hz]
        | match goal with
          | H : exists p, _ /\ ?f p = ?v |- exists p, _ /\ ?f p == ?v =>
              destruct H as (p & Hp & Hv); exists p; split;
              [exact Hp | rewrite Hv; reflexivity]
          end ].
Qed.

End FromPointsFacts.

(** C6.  For every list of points, [fromPoints] returns a box whose minimum
    and maximum are the componentwise minimum and maximum of the points, so
    every point of the list lies between them on each axis; for an empty or
    undefined list it returns the zero-sized box with minimum, maximum and
    center at the origin. *)
Theorem fromPoints_encloses :
  (forall positions result,
      (forall p, p ∈ positions ->
         AxisAlignedBoundingBox.contains
           (AxisAlignedBoundingBox.fromPoints (Some positions) result) p) /\
      (positions <> [] ->
         AxisAlignedBoundingBox.tight
           (AxisAlignedBoundingBox.fromPoints (Some positions) result)
           positions)) /\
  (forall positions result,
      positions = None \/ positions = Some [] ->
      let box := AxisAlignedBoundingBox.fromPoints positions result in
      AxisAlignedBoundingBox.minimum box = Cartesian3.ZERO /\
      AxisAlignedBoundingBox.maximum box = Cartesian3.ZERO /\
      AxisAlignedBoundingBox.center box = Cartesian3.ZERO).
Proof.
  split.
  - intros [ | p0 rest] result.
    + split; [ | done]. intros p Hin. by apply elem_of_nil in Hin.
    + destruct (fromPoints_cons p0 rest result) as [Hall Htight].
      split; [exact Hall | intros _; exact Htight].
  - intros positions result [-> | ->]; simpl; done.
Qed.

(** The box of the two points of the source's example, and of no points. *)
Lemma fromPoints_encloses_witness :
  let positions := [Cartesian3.mk 2 0 0; Cartesian3.mk (-2) 0 0]%Q in
  AxisAlignedBoundingBox.contains
    (AxisAlignedBoundingBox.fromPoints (Some positions) None)
    (Cartesian3.mk 2 0 0)%Q /\
  AxisAlignedBoundingBox.tight
    (AxisAlignedBoundingBox.fromPoints (Some positions) None) positions /\
  AxisAlignedBoundingBox.minimum
    (AxisAlignedBoundingBox.fromPoints (Some []) None) = Cartesian3.ZERO.
Proof.
  intros positions.
  destruct fromPoints_encloses as [Hpoints Hempty].
  destruct (Hpoints positions None) as [Hall Htight].
  split; [ | split ].
  - apply Hall. unfold positions. apply elem_of_cons. by left.
  - apply Htight. unfold positions. discriminate.
  - apply (Hempty (Some []) None). by right.
Defined.

Example fromPoints_example :
  AxisAlignedBoundingBox.fromPoints
    (Some [Cartesian3.mk 2 1 0; Cartesian3.mk (-2) 3 5; Cartesian3.mk 0 0 (-1)]%Q)
    None
  = AxisAlignedBoundingBox.mk
      (Cartesian3.mk (-2) 0 (-1))%Q (Cartesian3.mk 2 3 5)%Q
      (Cartesian3.mk (JS.mul (JS.add (-2) 2) (1 # 2))
                     (JS.mul (JS.add 0 3) (1 # 2))
                     (JS.mul (JS.add (-1) 5) (1 # 2)))%Q.
Proof. reflexivity. Qed.

(** ** The clock *)

Section ClockFacts.

Local Open Scope Q_scope.

Import Clock.

Lemma greaterThan_true l r : r < l -> JulianDate.greaterThan l r = true.
Proof.
  intros H. unfold JulianDate.greaterThan.
  destruct (Qle_bool l r) eqn:E; [ | done].
  apply Qle_bool_iff in E. lra.
Qed.

Lemma greaterThan_false l r : l <= r -> JulianDate.greaterThan l r = false.
Proof.
  intros H. unfold JulianDate.greaterThan.
  apply Qle_bool_iff in H. by rewrite H.
Qed.

Lemma greaterThan_spec l r :
  (JulianDate.greaterThan l r = true /\ r < l) \/
  (JulianDate.greaterThan l r = false /\ l <= r).
Proof.
  destruct (Qlt_le_dec r l) as [H | H].
  - left. split; [by apply greaterThan_true | done].
  - right. split; [by apply greaterThan_false | done].
Qed.

Lemma lessThan_true l r : l < r -> JulianDate.lessThan l r = true.
Proof.
  intros H. unfold JulianDate.lessThan.
  destruct (Qle_bool r l) eqn:E; [ | done].
  apply Qle_bool_iff in E. lra.
Qed.

Lemma lessThan_false l r : r <= l -> JulianDate.lessThan l r = false.
Proof.
  intros H. unfold JulianDate.lessThan.
  apply Qle_bool_iff in H. by rewrite H.
Qed.

(** One test of the loop condition that fails: the loop is over. *)
Lemma wrap_done fuel startTime stopTime currentTime raised :
  currentTime <= stopTime ->
  wrap fuel startTime stopTime currentTime raised = Some (currentTime, raised).
Proof.
  intros H. destruct fuel; simpl; by rewrite greaterThan_false.
Qed.

(** One iteration of the loop. *)
Lemma wrap_step fuel startTime stopTime currentTime raised :
  stopTime < currentTime ->
  wrap (S fuel) startTime stopTime currentTime raised
  = wrap fuel startTime stopTime
      (JulianDate.addSeconds startTime
         (JulianDate.secondsDifference currentTime stopTime))
      (raised ++ [onStop]).
Proof.
  intros H. simpl. by rewrite greaterThan_true.
Qed.

(** Out of fuel with the condition still true. *)
Lemma wrap_out_of_fuel startTime stopTime currentTime raised :
  stopTime < currentTime ->
  wrap 0 startTime stopTime currentTime raised = None.
Proof.
  intros H. simpl. by rewrite greaterThan_true.
Qed.

(** The loop ends once the overshoot fits into [n] periods. *)
Lemma wrap_finishes_within n startTime stopTime :
  forall currentTime raised,
    currentTime - stopTime <= inject_Z (Z.of_nat n) * (stopTime - startTime) ->
    exists t raised',
      wrap n startTime stopTime currentTime raised = Some (t, raised') /\
      t <= stopTime.
Proof.
  induction n as [ | n IH]; intros currentTime raised Hn.
  - change (inject_Z (Z.of_nat 0)) with 0 in Hn.
    exists currentTime, raised. split; [apply wrap_done | ]; lra.
  - destruct (Qlt_le_dec stopTime currentTime) as [Hgt | Hle].
    + rewrite wrap_step by done. apply IH.
      unfold JulianDate.addSeconds, JulianDate.secondsDifference.
      rewrite Nat2Z.inj_succ in Hn. unfold Z.succ in Hn.
      rewrite inject_Z_plus in Hn. change (inject_Z 1) with 1 in Hn.
      lra.
    + exists currentTime, raised. split; [by apply wrap_done | done].
Qed.

(** More fuel does not change a finished loop. *)
Lemma wrap_fuel_monotone n m startTime stopTime :
  forall currentTime raised result,
    (n <= m)%nat ->
    wrap n startTime stopTime currentTime raised = Some result ->
    wrap m startTime stopTime currentTime raised = Some result.
Proof.
  revert m. induction n as [ | n IH]; intros m currentTime raised result Hle Hn.
  - destruct (greaterThan_spec currentTime stopTime) as [[E Hc] | [E Hc]].
    + simpl in Hn. by rewrite E in Hn.
    + rewrite wrap_done in Hn by done. by rewrite wrap_done.
  - destruct m as [ | m]; [lia | ].
    destruct (greaterThan_spec currentTime stopTime) as [[E Hc] | [E Hc]].
    + rewrite wrap_step in Hn |- * by done. apply (IH m); [lia | done].
    + rewrite wrap_done in Hn by done. by rewrite wrap_done.
Qed.

(** With [startTime < stopTime] the loop ends, whatever the overshoot. *)
Lemma wrap_terminates startTime stopTime currentTime raised :
  startTime < stopTime ->
  exists fuel t raised',
    wrap fuel startTime stopTime currentTime raised = Some (t, raised') /\
    t <= stopTime.
Proof.
  intros Hlt.
  destruct (Qarchimedean ((currentTime - stopTime) / (stopTime - startTime)))
    as [p Hp].
  exists (Pos.to_nat p).
  apply wrap_finishes_within.
  rewrite positive_nat_Z.
  apply Qlt_le_weak.
  apply (Qmult_lt_r _ _ (stopTime - startTime)) in Hp; [ | lra].
  assert (Hd : ~ stopTime - startTime == 0) by lra.
  rewrite (Qmult_comm (_ / _)), Qmult_div_r in Hp by exact Hd.
  exact Hp.
Qed.

End ClockFacts.

Section ClockScenarios.

Local Open Scope Q_scope.

Import Clock.

(** C1.  A clock with startTime = T0, stopTime = T0 + 10 s, LOOP_STOP,
    TICK_DEPENDENT, multiplier 25, shouldAnimate and canAnimate true and
    currentTime = T0: one [tick()] leaves currentTime at T0 + 5 s, the
    overflow past stopTime being wrapped back to startTime once per period
    crossed, and raises onStop exactly twice.  ([fuel]: the iterations the
    model may run; two are needed.) *)
Theorem tick_loop_wraps_twice (T0 : JulianDate.JulianDate) (sys : System)
    (this : Clock) (fuel : nat) :
  startTime this == T0 ->
  stopTime this == T0 + 10 ->
  clockRange this = LOOP_STOP ->
  _clockStep this = TICK_DEPENDENT ->
  _multiplier this == 25 ->
  _shouldAnimate this = true ->
  canAnimate this = true ->
  _currentTime this == T0 ->
  (2 <= fuel)%nat ->
  exists this' raised t,
    tick fuel sys this = Some (this', raised, t) /\
    _currentTime this' == T0 + 5 /\
    t == T0 + 5 /\
    stops raised = 2%nat /\
    raised = [onStop; onStop; onTick].
Proof.
  intros Hstart Hstop Hrange Hstep Hmul Hshould Hcan Hcur Hfuel.
  destruct fuel as [ | [ | fuel]]; [lia | lia | ].
  unfold tick, advance. rewrite Hcan, Hshould, Hstep, Hrange. cbn [andb].
  unfold JulianDate.clone.
  rewrite lessThan_false
    by (unfold JulianDate.addSeconds; lra).
  rewrite wrap_step
    by (unfold JulianDate.addSeconds; lra).
  rewrite wrap_step
    by (unfold JulianDate.addSeconds, JulianDate.secondsDifference; lra).
  rewrite wrap_done
    by (unfold JulianDate.addSeconds, JulianDate.secondsDifference; lra).
  cbn [mbind option_bind].
  eexists _, _, _. split; [reflexivity | ].
  cbn [_currentTime with_lastSystemTime with_currentTime].
  unfold JulianDate.addSeconds, JulianDate.secondsDifference.
  split_and!; [lra | lra | reflexivity | reflexivity].
Qed.

Lemma tick_loop_wraps_twice_witness :
  exists this' raised t,
    tick 2 (mkSystem 0 0)
      (mk 0 10 LOOP_STOP true 0 25 TICK_DEPENDENT true 0) =
      Some (this', raised, t) /\
    _currentTime this' == 0 + 5 /\
    t == 0 + 5 /\
    stops raised = 2%nat /\
    raised = [onStop; onStop; onTick].
Proof.
  apply (tick_loop_wraps_twice 0 (mkSystem 0 0)
           (mk 0 10 LOOP_STOP true 0 25 TICK_DEPENDENT true 0) 2);
    simpl; first [reflexivity | lia].
Defined.

(** C2.  The same clock under CLAMPED with multiplier 100: one [tick()]
    advances currentTime by the multiplier, 100 simulated seconds, to
    T0 + 100 s, then clamps it to stopTime = T0 + 10 s, and raises onStop
    exactly once. *)
Theorem tick_clamps_at_stop (T0 : JulianDate.JulianDate) (sys : System)
    (this : Clock) (fuel : nat) :
  startTime this == T0 ->
  stopTime this == T0 + 10 ->
  clockRange this = CLAMPED ->
  _clockStep this = TICK_DEPENDENT ->
  _multiplier this == 100 ->
  _shouldAnimate this = true ->
  canAnimate this = true ->
  _currentTime this == T0 ->
  JulianDate.addSeconds (JulianDate.clone (_currentTime this)) (_multiplier this)
    == T0 + 100 /\
  exists this' raised t,
    tick fuel sys this = Some (this', raised, t) /\
    _currentTime this' == T0 + 10 /\
    t == T0 + 10 /\
    stops raised = 1%nat /\
    raised = [onStop; onTick].
Proof.
  intros Hstart Hstop Hrange Hstep Hmul Hshould Hcan Hcur.
  split; [unfold JulianDate.addSeconds, JulianDate.clone; lra | ].
  unfold tick, advance. rewrite Hcan, Hshould, Hstep, Hrange. cbn [andb].
  unfold JulianDate.clone.
  rewrite lessThan_false by (unfold JulianDate.addSeconds; lra).
  rewrite greaterThan_true by (unfold JulianDate.addSeconds; lra).
  cbn [mbind option_bind].
  eexists _, _, _. split; [reflexivity | ].
  cbn [_currentTime with_lastSystemTime with_currentTime].
  split_and!; [lra | lra | reflexivity | reflexivity].
Qed.

Lemma tick_clamps_at_stop_witness :
  JulianDate.addSeconds (JulianDate.clone 0) 100 == 0 + 100 /\
  exists this' raised t,
    tick 0 (mkSystem 0 0)
      (mk 0 10 CLAMPED true 0 100 TICK_DEPENDENT true 0) =
      Some (this', raised, t) /\
    _currentTime this' == 0 + 10 /\
    t == 0 + 10 /\
    stops raised = 1%nat /\
    raised = [onStop; onTick].
Proof.
  apply (tick_clamps_at_stop 0 (mkSystem 0 0)
           (mk 0 10 CLAMPED true 0 100 TICK_DEPENDENT true 0) 0);
    simpl; reflexivity.
Defined.

End ClockScenarios.

Section ClockSetters.

Local Open Scope Q_scope.

Import Clock.

(** C3, as the specification states it, fails: each of the three setters
    returns at once when the value assigned equals the current one, and the
    step mode stays SYSTEM_CLOCK. *)
Lemma setter_same_value_keeps_system_clock :
  let this := mk 0 10 UNBOUNDED true 0 1 SYSTEM_CLOCK true 0 in
  _clockStep this = SYSTEM_CLOCK /\
  _clockStep (set_currentTime this 0) <> SYSTEM_CLOCK_MULTIPLIER /\
  _clockStep (set_multiplier this 1) <> SYSTEM_CLOCK_MULTIPLIER /\
  _clockStep (set_shouldAnimate this true) <> SYSTEM_CLOCK_MULTIPLIER.
Proof. simpl. split_and!; [reflexivity | discriminate ..]. Qed.

(** C3, amended.  For every Clock whose clockStep is SYSTEM_CLOCK,
    assigning to currentTime, multiplier or shouldAnimate a value that
    differs from the current one changes clockStep to
    SYSTEM_CLOCK_MULTIPLIER (and stores the value), while assigning the
    current value again leaves the clock as it is; and for every Clock,
    assigning SYSTEM_CLOCK to clockStep sets multiplier to 1.0,
    shouldAnimate to true and currentTime to the current system time. *)
Theorem setter_coupling (sys : System) (this : Clock) :
  (_clockStep this = SYSTEM_CLOCK ->
   (forall value, ~ _currentTime this == value ->
      _clockStep (set_currentTime this value) = SYSTEM_CLOCK_MULTIPLIER /\
      _currentTime (set_currentTime this value) = value) /\
   (forall value, ~ _multiplier this == value ->
      _clockStep (set_multiplier this value) = SYSTEM_CLOCK_MULTIPLIER /\
      _multiplier (set_multiplier this value) = value) /\
   (forall value, _shouldAnimate this <> value ->
      _clockStep (set_shouldAnimate this value) = SYSTEM_CLOCK_MULTIPLIER /\
      _shouldAnimate (set_shouldAnimate this value) = value)) /\
  ((forall value, _currentTime this == value ->
      set_currentTime this value = this) /\
   (forall value, _multiplier this == value ->
      set_multiplier this value = this) /\
   (forall value, _shouldAnimate this = value ->
      set_shouldAnimate this value = this)) /\
  (_multiplier (set_clockStep sys this SYSTEM_CLOCK) = 1 /\
   _shouldAnimate (set_clockStep sys this SYSTEM_CLOCK) = true /\
   _currentTime (set_clockStep sys this SYSTEM_CLOCK) = now sys /\
   _clockStep (set_clockStep sys this SYSTEM_CLOCK) = SYSTEM_CLOCK).
Proof.
  split_and!.
  - intros Hstep. split_and!; intros value Hne.
    + unfold set_currentTime, JulianDate.equals.
      destruct (Qeq_bool (_currentTime this) value) eqn:E.
      * by apply Qeq_bool_iff in E.
      * by rewrite Hstep.
    + unfold set_multiplier.
      destruct (Qeq_bool (_multiplier this) value) eqn:E.
      * by apply Qeq_bool_iff in E.
      * by rewrite Hstep.
    + unfold set_shouldAnimate.
      destruct (Bool.eqb (_shouldAnimate this) value) eqn:E.
      * by apply Bool.eqb_prop in E.
      * by rewrite Hstep.
  - intros value Heq. unfold set_currentTime, JulianDate.equals.
    apply Qeq_bool_iff in Heq. by rewrite Heq.
  - intros value Heq. unfold set_multiplier.
    apply Qeq_bool_iff in Heq. by rewrite Heq.
  - intros value <-. unfold set_shouldAnimate.
    by rewrite Bool.eqb_reflx.
  - reflexivity.
  - reflexivity.
  - reflexivity.
  - reflexivity.
Qed.

Lemma setter_coupling_witness :
  let this := mk 0 10 UNBOUNDED true 0 1 SYSTEM_CLOCK true 0 in
  _clockStep (set_currentTime this 3) = SYSTEM_CLOCK_MULTIPLIER /\
  _clockStep (set_multiplier this 2) = SYSTEM_CLOCK_MULTIPLIER /\
  _clockStep (set_shouldAnimate this false) = SYSTEM_CLOCK_MULTIPLIER /\
  set_multiplier this 1 = this.
Proof.
  intros this.
  destruct (setter_coupling (mkSystem 0 0) this)
    as (Hdemote & (_ & Hsame & _) & _).
  destruct (Hdemote eq_refl) as (Hc & Hm & Hs).
  split_and!.
  - apply Hc. simpl. discriminate.
  - apply Hm. simpl. discriminate.
  - apply Hs. simpl. discriminate.
  - apply Hsame. simpl. reflexivity.
Defined.

End ClockSetters.

Section ClockTermination.

Local Open Scope Q_scope.

Import Clock.

Lemma wrap_returns startTime stopTime :
  startTime < stopTime ->
  forall currentTime raised,
  exists fuel result,
    wrap fuel startTime stopTime currentTime raised = Some result.
Proof.
  intros Hlt currentTime raised.
  destruct (wrap_terminates startTime stopTime currentTime raised Hlt)
    as (fuel & t & raised' & Hw & _).
  by exists fuel, (t, raised').
Qed.

(** With [startTime < stopTime], the advance of [tick()] ends. *)
Lemma advance_terminates sys this currentTime :
  startTime this < stopTime this ->
  exists fuel result, advance fuel sys this currentTime = Some result.
Proof.
  intros Hlt. unfold advance.
  destruct (_clockStep this), (clockRange this);
    first
      [ by apply wrap_returns
      | exists 0%nat;
        repeat match goal with
               | |- context [if ?b then _ else _] => destruct b
               end; eexists; reflexivity ].
Qed.

(** With [startTime < stopTime], [tick()] returns. *)
Lemma tick_terminates sys this :
  startTime this < stopTime this ->
  exists fuel result, tick fuel sys this = Some result.
Proof.
  intros Hlt. unfold tick.
  destruct (canAnimate this && _shouldAnimate this).
  - destruct (advance_terminates sys this
                (JulianDate.clone (_currentTime this)) Hlt)
      as (fuel & [t raised] & Hadv).
    exists fuel. rewrite Hadv. eexists. reflexivity.
  - exists 0%nat. eexists. reflexivity.
Qed.

(** On an interval of length zero, a time past [stopTime] is wrapped onto
    itself: the loop never ends. *)
Lemma wrap_never_ends fuel startTime stopTime :
  startTime == stopTime ->
  forall currentTime raised,
    stopTime < currentTime ->
    wrap fuel startTime stopTime currentTime raised = None.
Proof.
  intros Heq. induction fuel as [ | fuel IH]; intros currentTime raised Hgt.
  - by apply wrap_out_of_fuel.
  - rewrite wrap_step by done. apply IH.
    unfold JulianDate.addSeconds, JulianDate.secondsDifference. lra.
Qed.

(** A looping, tick-dependent clock on an interval of length zero never
    returns from a tick that steps past [stopTime]. *)
Lemma tick_never_returns sys this :
  startTime this == stopTime this ->
  clockRange this = LOOP_STOP ->
  _clockStep this = TICK_DEPENDENT ->
  canAnimate this = true ->
  _shouldAnimate this = true ->
  stopTime this < _currentTime this + _multiplier this ->
  forall fuel, tick fuel sys this = None.
Proof.
  intros Heq Hrange Hstep Hcan Hshould Hpast fuel.
  unfold tick, advance. rewrite Hcan, Hshould, Hstep, Hrange. cbn [andb].
  unfold JulianDate.clone.
  rewrite lessThan_false by (unfold JulianDate.addSeconds; lra).
  rewrite wrap_never_ends; [reflexivity | exact Heq | ].
  unfold JulianDate.addSeconds. exact Hpast.
Qed.

(** C9.  [Clock.tick()] should terminate for every clock with
    startTime <= stopTime, the precondition the constructor enforces.  The
    code does not: the constructor accepts startTime = stopTime, and under
    LOOP_STOP the first tick that carries currentTime past stopTime wraps
    it to startTime plus the excess, which is the same time again, so the
    loop runs without end, whatever number of iterations it is given. *)
Theorem tick_hangs_on_empty_interval (sys : System) :
  let options :=
    {| opt_startTime := Some 0; opt_stopTime := Some 0;
       opt_currentTime := Some 0; opt_multiplier := Some 1;
       opt_clockStep := Some TICK_DEPENDENT;
       opt_clockRange := Some LOOP_STOP;
       opt_canAnimate := None; opt_shouldAnimate := Some true |} in
  exists this,
    new sys options = Some this /\
    startTime this <= stopTime this /\
    forall fuel, tick fuel sys this = None.
Proof.
  intros options. eexists. split; [reflexivity | ]. split.
  - simpl. lra.
  - apply tick_never_returns; simpl; reflexivity.
Qed.

End ClockTermination.

(** ** The associative array *)

Section AssociativeArrayFacts.

Import AssociativeArray.

Variable defined : value -> bool.
Variable inherited : string -> option value.
Hypothesis defined_undefined : defined VUndefined = false.

Local Abbreviation property := (property inherited).
Local Abbreviation get := (get inherited).
Local Abbreviation contains := (contains defined inherited).
Local Abbreviation remove := (remove defined inherited).
Local Abbreviation set := (set defined inherited).
Local Abbreviation perform := (perform defined inherited).
Local Abbreviation run := (run defined inherited).
Local Abbreviation ordinaryCall := (ordinaryCall defined inherited).
Local Abbreviation wellFormed := (wellFormed defined).

(** Away from NaN, [===] is equality. *)
Lemma strictEquals_decide a b :
  a <> VNaN -> strictEquals a b = bool_decide (a = b).
Proof.
  intros Ha. destruct a, b; try done; simpl;
    by rewrite bool_decide_eq_false_2.
Qed.

Lemma strictEquals_decide_r a b :
  b <> VNaN -> strictEquals a b = bool_decide (a = b).
Proof.
  intros Hb. destruct a, b; try done; simpl;
    by rewrite bool_decide_eq_false_2.
Qed.

(** [indexOf] finds a value that is there and is not NaN. *)
Lemma firstIndex_elem array v :
  v <> VNaN -> v ∈ array ->
  exists i, firstIndex array v = Some i /\ array !! i = Some v.
Proof.
  intros Hv. induction array as [ | w array IH]; intros Hin.
  - by apply elem_of_nil in Hin.
  - simpl. rewrite strictEquals_decide_r by done.
    case_bool_decide as Hw.
    + exists 0%nat. by subst.
    + apply elem_of_cons in Hin as [-> | Hin]; [done | ].
      destruct (IH Hin) as (i & -> & Hi). by exists (S i).
Qed.

(** [array.splice(array.indexOf(v), 1)] takes one [v] out. *)
Lemma splice1_indexOf array v :
  v <> VNaN -> v ∈ array ->
  array ≡ₚ v :: splice1 array (indexOf array v).
Proof.
  intros Hv Hin.
  destruct (firstIndex_elem array v Hv Hin) as (i & Hfirst & Hi).
  unfold indexOf, splice1. rewrite Hfirst.
  pose proof (lookup_lt_Some _ _ _ Hi) as Hlt.
  replace (Z.of_nat i <? 0)%Z with false by (symmetry; apply Z.ltb_ge; lia).
  rewrite Z.min_l by lia. rewrite Nat2Z.id.
  by apply delete_Permutation.
Qed.

(** The value under an ordinary key. *)
Lemma property_ordinary hash key :
  inherited key = None ->
  property hash key = default VUndefined (hash !! key).
Proof.
  intros Hkey. unfold AssociativeArray.property.
  destruct (hash !! key); [done | by rewrite Hkey].
Qed.

(** The assignment under a key that names no inherited property, and under
    a key other than [__proto__], stores an own property. *)
Lemma assign_ordinary hash key v :
  inherited key = None ->
  AssociativeArray.assign inherited hash key v = <[key := v]> hash.
Proof.
  intros Hkey. unfold AssociativeArray.assign.
  rewrite bool_decide_eq_false_2; [done | ].
  intros (_ & _ & [w Hw]). congruence.
Qed.

Lemma assign_own hash key v :
  key <> "__proto__" ->
  AssociativeArray.assign inherited hash key v = <[key := v]> hash.
Proof.
  intros Hkey. unfold AssociativeArray.assign.
  rewrite bool_decide_eq_false_2; [done | ]. by intros (? & _).
Qed.

Lemma remove_wellFormed this key :
  inherited key = None -> wellFormed this ->
  wellFormed (fst (remove this key)) /\
  _hash (fst (remove this key)) = delete key (_hash this).
Proof.
  intros Hkey [Hsync Hall]. unfold AssociativeArray.remove.
  rewrite property_ordinary by done.
  destruct (_hash this !! key) as [v | ] eqn:Hlook; simpl.
  - destruct (Hall key v Hlook) as [Hdef Hnan]. rewrite Hdef. simpl.
    split; [ | done]. split; [ | by apply map_Forall_delete].
    unfold synchronized in *; simpl.
    assert (Hin : v ∈ _array this).
    { rewrite Hsync. apply (list_elem_of_fmap_2' snd _ (key, v)); [ | done].
      by apply elem_of_map_to_list. }
    apply (Permutation_cons_inv (a := v)).
    rewrite <- (splice1_indexOf _ _ Hnan Hin), Hsync.
    by rewrite <- (map_to_list_delete _ key v Hlook).
  - rewrite defined_undefined. simpl.
    split; [done | ]. by rewrite delete_id.
Qed.

Lemma set_wellFormed this key v :
  inherited key = None -> defined v = true -> v <> VNaN ->
  wellFormed this -> wellFormed (set this key v).
Proof.
  intros Hkey Hdef Hnan Hwf. unfold AssociativeArray.set.
  destruct (negb (strictEquals v (property (_hash this) key))); [ | done].
  destruct (remove_wellFormed this key Hkey Hwf) as [[Hsync Hall] Hhash].
  rewrite assign_ordinary by done.
  split.
  - unfold synchronized in *; simpl.
    rewrite map_to_list_insert by (rewrite Hhash; apply lookup_delete_eq).
    rewrite fmap_cons. simpl. rewrite <- Hsync.
    by rewrite Permutation_app_comm.
  - simpl. by apply map_Forall_insert_2.
Qed.

Lemma removeAll_wellFormed this :
  wellFormed this -> wellFormed (removeAll this).
Proof.
  intros Hwf. unfold removeAll. case_decide; [ | done].
  split; [ | apply map_Forall_empty].
  unfold synchronized; simpl. by rewrite map_to_list_empty.
Qed.

Lemma new_wellFormed : wellFormed new.
Proof.
  split; [ | apply map_Forall_empty].
  unfold synchronized; simpl. by rewrite map_to_list_empty.
Qed.

Lemma perform_wellFormed this c :
  ordinaryCall c -> wellFormed this -> wellFormed (perform this c).
Proof.
  destruct c as [key v | key | ]; simpl.
  - intros (Hkey & Hdef & Hnan). by apply set_wellFormed.
  - intros Hkey Hwf. by apply remove_wellFormed.
  - intros _. apply removeAll_wellFormed.
Qed.

Lemma run_wellFormed calls :
  forall this,
    Forall ordinaryCall calls -> wellFormed this -> wellFormed (run this calls).
Proof.
  induction calls as [ | c calls IH]; intros this Hcalls Hwf; [done | ].
  apply Forall_cons in Hcalls as [Hc Hcalls]. simpl.
  apply IH; [done | ]. by apply perform_wellFormed.
Qed.

(** What a well-formed collection offers through [length], [values],
    [get] and [contains]. *)
Lemma wellFormed_consistent this :
  wellFormed this ->
  List.length (values this) = size (_hash this) /\
  (forall key, inherited key = None ->
     (contains this key = true <-> key ∈ dom (_hash this))) /\
  (forall key v, inherited key = None ->
     get this key = v -> v <> VUndefined -> v ∈ values this) /\
  (forall v, v ∈ values this -> exists key, get this key = v).
Proof.
  intros [Hsync Hall]. unfold synchronized, values in *. split_and!.
  - by rewrite Hsync, length_fmap, length_map_to_list.
  - intros key Hkey. unfold AssociativeArray.contains.
    rewrite property_ordinary by done. rewrite elem_of_dom.
    destruct (_hash this !! key) as [v | ] eqn:Hlook; simpl.
    + destruct (Hall key v Hlook) as [-> _]. split; [by eauto | done].
    + rewrite defined_undefined. split; [done | by intros [? ?]].
  - intros key v Hkey Hget Hv. unfold AssociativeArray.get in Hget.
    rewrite property_ordinary in Hget by done.
    destruct (_hash this !! key) as [w | ] eqn:Hlook; simpl in Hget; [ | done].
    subst w. rewrite Hsync.
    apply (list_elem_of_fmap_2' snd _ (key, v)); [ | done].
    by apply elem_of_map_to_list.
  - intros v Hin. rewrite Hsync in Hin.
    apply list_elem_of_fmap in Hin as ([key w] & -> & Hin).
    apply elem_of_map_to_list in Hin. exists key.
    unfold AssociativeArray.get, AssociativeArray.property. by rewrite Hin.
Qed.

End AssociativeArrayFacts.

(** C4, as the specification states it, fails: one value stored under two
    keys sits twice in [values], and [get] returns it under both keys, not
    under exactly one. *)
Lemma shared_value_has_two_keys :
  let this :=
    AssociativeArray.run AssociativeArray.definedValue
      AssociativeArray.objectPrototype AssociativeArray.new
      [AssociativeArray.CallSet "a" (AssociativeArray.VObject 1);
       AssociativeArray.CallSet "b" (AssociativeArray.VObject 1)] in
  AssociativeArray.values this
  = [AssociativeArray.VObject 1; AssociativeArray.VObject 1] /\
  AssociativeArray.get AssociativeArray.objectPrototype this "a"
  = AssociativeArray.VObject 1 /\
  AssociativeArray.get AssociativeArray.objectPrototype this "b"
  = AssociativeArray.VObject 1 /\
  ~ AssociativeArray.consistent AssociativeArray.objectPrototype this.
Proof.
  intros this.
  assert (Ha : AssociativeArray.get AssociativeArray.objectPrototype this "a"
               = AssociativeArray.VObject 1) by reflexivity.
  assert (Hb : AssociativeArray.get AssociativeArray.objectPrototype this "b"
               = AssociativeArray.VObject 1) by reflexivity.
  split_and!; [reflexivity | exact Ha | exact Hb | ].
  intros (_ & _ & Hunique).
  destruct (Hunique (AssociativeArray.VObject 1)) as (key & _ & Honly).
  { apply elem_of_cons. by left. }
  pose proof (Honly "a" Ha) as Hkey_a.
  pose proof (Honly "b" Hb) as Hkey_b.
  congruence.
Qed.

(** Why the amended statement asks for more than "not undefined": a value
    that fails [defined] stays in [values] when its key is overwritten, ... *)
Example null_value_is_left_behind :
  let this :=
    AssociativeArray.run AssociativeArray.definedValue
      AssociativeArray.objectPrototype AssociativeArray.new
      [AssociativeArray.CallSet "a" AssociativeArray.VNull;
       AssociativeArray.CallSet "a" (AssociativeArray.VObject 1)] in
  AssociativeArray.values this
  = [AssociativeArray.VNull; AssociativeArray.VObject 1] /\
  size (AssociativeArray._hash this) = 1%nat.
Proof. split; reflexivity. Qed.

(** ... [indexOf] never finds NaN, so that removing its key splices the
    last element out instead, ... *)
Example NaN_removes_the_last_value :
  let this :=
    AssociativeArray.run AssociativeArray.definedValue
      AssociativeArray.objectPrototype AssociativeArray.new
      [AssociativeArray.CallSet "a" AssociativeArray.VNaN;
       AssociativeArray.CallSet "b" (AssociativeArray.VObject 1);
       AssociativeArray.CallRemove "a"] in
  AssociativeArray.values this = [AssociativeArray.VNaN] /\
  AssociativeArray.get AssociativeArray.objectPrototype this "b"
  = AssociativeArray.VObject 1.
Proof. split; reflexivity. Qed.

(** ... and a key that names an inherited property reads as present before
    it is set, with the same effect. *)
Example inherited_key_removes_the_last_value :
  let this :=
    AssociativeArray.run AssociativeArray.definedValue
      AssociativeArray.objectPrototype AssociativeArray.new
      [AssociativeArray.CallSet "a" (AssociativeArray.VObject 1);
       AssociativeArray.CallSet "toString" (AssociativeArray.VObject 2)] in
  AssociativeArray.values this = [AssociativeArray.VObject 2] /\
  AssociativeArray.get AssociativeArray.objectPrototype this "a"
  = AssociativeArray.VObject 1.
Proof. split; reflexivity. Qed.

(** C4, amended.  For every AssociativeArray and every finite sequence of
    set, remove and removeAll calls whose values pass [defined] and are not
    NaN, and whose keys do not name inherited properties, the values array
    and the hash stay mutually consistent: the array holds the values of
    the hash, each as often as keys hold it; values.length equals the
    number of keys currently set; every value reachable through get under
    some key appears in the values array; and every element of the values
    array is retrievable via get under at least one key. *)
Theorem AssociativeArray_stays_synchronized
    (defined : AssociativeArray.value -> bool)
    (inherited : string -> option AssociativeArray.value)
    (calls : list AssociativeArray.call) :
  defined AssociativeArray.VUndefined = false ->
  Forall (AssociativeArray.ordinaryCall defined inherited) calls ->
  let this :=
    AssociativeArray.run defined inherited AssociativeArray.new calls in
  AssociativeArray.synchronized this /\
  List.length (AssociativeArray.values this)
  = size (AssociativeArray._hash this) /\
  (forall key, inherited key = None ->
     (AssociativeArray.contains defined inherited this key = true <->
      key ∈ dom (AssociativeArray._hash this))) /\
  (forall key v, inherited key = None ->
     AssociativeArray.get inherited this key = v ->
     v <> AssociativeArray.VUndefined ->
     v ∈ AssociativeArray.values this) /\
  (forall v, v ∈ AssociativeArray.values this ->
     exists key, AssociativeArray.get inherited this key = v).
Proof.
  intros Hundefined Hcalls this.
  assert (Hwf : AssociativeArray.wellFormed defined this).
  { apply run_wellFormed; [done | done | apply new_wellFormed]. }
  split; [exact (proj1 Hwf) | ].
  by apply wellFormed_consistent.
Qed.

Lemma AssociativeArray_stays_synchronized_witness :
  let this :=
    AssociativeArray.run AssociativeArray.definedValue
      AssociativeArray.objectPrototype AssociativeArray.new
      [AssociativeArray.CallSet "a" (AssociativeArray.VObject 1);
       AssociativeArray.CallSet "b" (AssociativeArray.VObject 1);
       AssociativeArray.CallSet "a" (AssociativeArray.VString "x");
       AssociativeArray.CallRemove "b";
       AssociativeArray.CallRemove "missing";
       AssociativeArray.CallSet "c" (AssociativeArray.VObject 1)] in
  AssociativeArray.synchronized this /\
  List.length (AssociativeArray.values this)
  = size (AssociativeArray._hash this) /\
  AssociativeArray.VObject 1 ∈ AssociativeArray.values this.
Proof.
  intros this.
  destruct (AssociativeArray_stays_synchronized AssociativeArray.definedValue
              AssociativeArray.objectPrototype
              [AssociativeArray.CallSet "a" (AssociativeArray.VObject 1);
               AssociativeArray.CallSet "b" (AssociativeArray.VObject 1);
               AssociativeArray.CallSet "a" (AssociativeArray.VString "x");
               AssociativeArray.CallRemove "b";
               AssociativeArray.CallRemove "missing";
               AssociativeArray.CallSet "c" (AssociativeArray.VObject 1)])
    as (Hsync & Hlen & _ & Hget & _).
  - reflexivity.
  - repeat constructor; vm_compute; discriminate.
  - split_and!; [exact Hsync | exact Hlen | ].
    apply (Hget "c"); [reflexivity | reflexivity | discriminate].
Defined.

(** ** Cartographic.fromCartesian *)

Section FromCartesianFacts.

Local Open Scope Q_scope.

Import Cartographic.

(** A sum of three squares that vanishes has vanishing terms. *)
Lemma squares_vanish (a b c : Q) :
  a * a + b * b + c * c == 0 -> a == 0 /\ b == 0 /\ c == 0.
Proof.
  intros H.
  assert (0 <= a * a) by nra.
  assert (0 <= b * b) by nra.
  assert (0 <= c * c) by nra.
  split_and!; nra.
Qed.

(** The normal [p * oneOverRadiiSquared] at a point of the surface is not
    the zero vector. *)
Lemma surface_normal_nonzero p oneOverRadiiSquared :
  onSurface p oneOverRadiiSquared ->
  Qeq_bool
    (dot (multiplyComponents p oneOverRadiiSquared)
         (multiplyComponents p oneOverRadiiSquared)) 0 = false.
Proof.
  unfold onSurface, dot, multiplyComponents. simpl. intros Hsurface.
  destruct (Qeq_bool _ 0) eqn:E; [ | done].
  apply Qeq_bool_iff in E. apply squares_vanish in E as (Hx & Hy & Hz).
  exfalso.
  assert (Cartesian3.x p * Cartesian3.x p * Cartesian3.x oneOverRadiiSquared
          == 0) as Hx0.
  { rewrite <- Qmult_assoc, Hx. ring. }
  assert (Cartesian3.y p * Cartesian3.y p * Cartesian3.y oneOverRadiiSquared
          == 0) as Hy0.
  { rewrite <- Qmult_assoc, Hy. ring. }
  assert (Cartesian3.z p * Cartesian3.z p * Cartesian3.z oneOverRadiiSquared
          == 0) as Hz0.
  { rewrite <- Qmult_assoc, Hz. ring. }
  rewrite Hx0, Hy0, Hz0 in Hsurface. lra.
Qed.

End FromCartesianFacts.

(** C5.  [Cartographic.fromCartesian] returns the no-result sentinel
    exactly when the input lies within the ellipsoid's center tolerance;
    for every other input it returns a defined Cartographic and does not
    throw: in production builds always, in validated builds because the
    projection is a point of the ellipsoid's surface, where the normal that
    [normalize] receives is not the zero vector. *)
Theorem fromCartesian_sentinel
    (sqrt : JS.number -> JS.number)
    (atan2 : JS.number -> JS.number -> JS.number)
    (asin : JS.number -> JS.number)
    (EPSILON1 : JS.number) (validated : bool)
    (surfacePoint : Cartesian3.Cartesian3 -> Cartesian3.Cartesian3 ->
                    Cartesian3.Cartesian3 -> Cartesian3.Cartesian3)
    (cartesian : Cartesian3.Cartesian3)
    (ellipsoid : option Cartographic.EllipsoidLike)
    (result : option Cartographic.Cartographic) :
  let oneOverRadii := fst (fst (Cartographic.radiiOf EPSILON1 ellipsoid)) in
  let oneOverRadiiSquared :=
    snd (fst (Cartographic.radiiOf EPSILON1 ellipsoid)) in
  let centerToleranceSquared := snd (Cartographic.radiiOf EPSILON1 ellipsoid) in
  let nearCenter :=
    Cartographic.withinCenterTolerance cartesian oneOverRadii
      centerToleranceSquared in
  let answer :=
    Cartographic.fromCartesian sqrt atan2 asin EPSILON1 validated surfacePoint
      cartesian ellipsoid result in
  (validated = true -> nearCenter = false ->
   Cartographic.onSurface
     (surfacePoint cartesian oneOverRadii oneOverRadiiSquared)
     oneOverRadiiSquared) ->
  (answer = Cartographic.Returns None <-> nearCenter = true) /\
  (nearCenter = false ->
   exists cartographic, answer = Cartographic.Returns (Some cartographic)) /\
  (forall message, answer <> Cartographic.Throws message).
Proof.
  intros oneOverRadii oneOverRadiiSquared centerToleranceSquared nearCenter
    answer Hsurface.
  unfold answer, Cartographic.fromCartesian,
    Cartographic.scaleToGeodeticSurface.
  assert (Hn : nearCenter =
    Cartographic.withinCenterTolerance cartesian
      match ellipsoid with
      | Some e => Cartographic.oneOverRadii e
      | None => Cartographic._ellipsoidOneOverRadii
      end
      match ellipsoid with
      | Some e => Cartographic._centerToleranceSquared e
      | None => Cartographic._ellipsoidCenterToleranceSquared EPSILON1
      end).
  { unfold nearCenter, oneOverRadii, centerToleranceSquared.
    by destruct ellipsoid. }
  rewrite <- Hn.
  destruct nearCenter eqn:Hnear.
  - split_and!; [done | done | done].
  - unfold Cartographic.normalize.
    assert (Hp :
      match ellipsoid with
      | Some e => Cartographic.oneOverRadiiSquared e
      | None => Cartographic._ellipsoidOneOverRadiiSquared
      end = oneOverRadiiSquared).
    { unfold oneOverRadiiSquared. by destruct ellipsoid. }
    assert (Hr :
      match ellipsoid with
      | Some e => Cartographic.oneOverRadii e
      | None => Cartographic._ellipsoidOneOverRadii
      end = oneOverRadii).
    { unfold oneOverRadii. by destruct ellipsoid. }
    rewrite Hp, Hr.
    assert (Hcheck :
      validated &&
      Qeq_bool
        (Cartographic.dot
           (Cartographic.multiplyComponents
              (surfacePoint cartesian oneOverRadii oneOverRadiiSquared)
              oneOverRadiiSquared)
           (Cartographic.multiplyComponents
              (surfacePoint cartesian oneOverRadii oneOverRadiiSquared)
              oneOverRadiiSquared)) 0 = false).
    { destruct validated; [ | done].
      by rewrite (surface_normal_nonzero _ _ (Hsurface eq_refl eq_refl)). }
    rewrite Hcheck.
    destruct result; split_and!; try done; intros _; eexists; reflexivity.
Qed.

(** The point (2, 0, 0) over the unit sphere, whose closest surface point
    is (1, 0, 0); on the values met there the square root of 1 is 1, the
    angle of (1, 0) is 0 and the arcsine of 0 is 0. *)
Lemma fromCartesian_sentinel_witness :
  let unitSphere :=
    Cartographic.mkEllipsoid (Cartesian3.mk 1 1 1)%Q (Cartesian3.mk 1 1 1)%Q
      (1 # 10)%Q in
  let answer :=
    Cartographic.fromCartesian (fun q => q) (fun _ _ => 0%Q) (fun _ => 0%Q)
      (1 # 10)%Q true (fun _ _ _ => (Cartesian3.mk 1 0 0)%Q)
      (Cartesian3.mk 2 0 0)%Q (Some unitSphere) None in
  answer = Cartographic.Returns (Some (Cartographic.mk 0 0 (1 * 1))%Q) /\
  (forall message, answer <> Cartographic.Throws message).
Proof.
  intros unitSphere answer.
  destruct (fromCartesian_sentinel (fun q => q) (fun _ _ => 0%Q)
              (fun _ => 0%Q) (1 # 10)%Q true
              (fun _ _ _ => (Cartesian3.mk 1 0 0)%Q)
              (Cartesian3.mk 2 0 0)%Q (Some unitSphere) None)
    as (_ & _ & Hthrows).
  - intros _ _. vm_compute. reflexivity.
  - split; [reflexivity | exact Hthrows].
Defined.

(** At the center itself there is no result. *)
Example fromCartesian_at_center :
  Cartographic.fromCartesian (fun q => q) (fun _ _ => 0%Q) (fun _ => 0%Q)
    (1 # 10)%Q true (fun _ _ _ => (Cartesian3.mk 1 0 0)%Q)
    Cartesian3.ZERO None None
  = Cartographic.Returns None.
Proof. reflexivity. Qed.

(* ===================================================================== *)
(** * Part III.  Further properties of the code                           *)
(* ===================================================================== *)

(** ** Matrix2 arithmetic *)

Section Matrix2Algebra.

Local Open Scope Q_scope.

Import Matrix2.

(** [Matrix2.equals] on two matrices is componentwise numeric equality. *)
Lemma Matrix2_equals_iff a b :
  equals (Some a) (Some b) = true <->
  m0 a == m0 b /\ m1 a == m1 b /\ m2 a == m2 b /\ m3 a == m3 b.
Proof.
  unfold equals. rewrite !andb_true_iff, !Qeq_bool_iff. tauto.
Qed.

End Matrix2Algebra.

(** Reduces an equation between matrices to equations between numbers. *)
Ltac matrix_eq :=
  apply Matrix2_equals_iff; cbn -[JS.add JS.sub JS.mul]; split_and!.

(** Simplifies sums and products of doubles with 0 and 1. *)
Ltac double_side :=
  first [assumption | apply isDouble_mul | apply isDouble_0 | apply isDouble_1].

Ltac double_simpl :=
  repeat match goal with
  | |- context [JS.mul ?a 0%Q] => rewrite (JS_mul_0_r a)
  | |- context [JS.mul 0%Q ?a] => rewrite (JS_mul_0_l a)
  | |- context [JS.mul ?a 1%Q] => rewrite (JS_mul_1_r a) by double_side
  | |- context [JS.mul 1%Q ?a] => rewrite (JS_mul_1_l a) by double_side
  | |- context [JS.add ?a 0%Q] => rewrite (JS_add_0_r a) by double_side
  | |- context [JS.add 0%Q ?a] => rewrite (JS_add_0_l a) by double_side
  end;
  try reflexivity.

Section Matrix2Products.

Local Open Scope Q_scope.

Import Matrix2.

(** X1.  On matrices of doubles [Matrix2.IDENTITY] is the unit of
    [Matrix2.multiply] on both sides and [Matrix2.ZERO] absorbs on both
    sides, up to [Matrix2.equals] and whatever result object is passed; the
    product of any two matrices is a matrix of doubles. *)
Theorem Matrix2_multiply_identity (a b r : Matrix2) :
  ofDoubles (multiply a b r) /\
  equals (Some (multiply ZERO a r)) (Some ZERO) = true /\
  equals (Some (multiply a ZERO r)) (Some ZERO) = true /\
  (ofDoubles a ->
   equals (Some (multiply IDENTITY a r)) (Some a) = true /\
   equals (Some (multiply a IDENTITY r)) (Some a) = true).
Proof.
  split_and!.
  - repeat split; apply isDouble_add.
  - matrix_eq; by double_simpl.
  - matrix_eq; by double_simpl.
  - intros (H0 & H1 & H2 & H3). split; matrix_eq; by double_simpl.
Qed.

Lemma Matrix2_multiply_identity_witness :
  let a := mk 3 (1 # 2) (- (5)) (7 # 4) in
  equals (Some (multiply IDENTITY a ZERO)) (Some a) = true /\
  equals (Some (multiply a IDENTITY ZERO)) (Some a) = true.
Proof.
  intros a.
  apply (Matrix2_multiply_identity a a ZERO).
  by repeat split.
Defined.

(** The product is not associative: rounding each sum and product to a
    double, [(0.1 * 0.2) * 0.3] and [0.1 * (0.2 * 0.3)] differ in the last
    place. *)
Example Matrix2_multiply_not_associative :
  let scaled s := fromUniformScale (JS.binary64 s) None in
  let a := scaled (1 # 10) in
  let b := scaled (2 # 10) in
  let c := scaled (3 # 10) in
  ofDoubles a /\ ofDoubles b /\ ofDoubles c /\
  equals (Some (multiply (multiply a b ZERO) c ZERO))
         (Some (multiply a (multiply b c ZERO) ZERO)) = false.
Proof. vm_compute. by repeat split. Qed.

(** X2.  [Matrix2.transpose] undoes itself and turns a product into the
    product of the transposes in the opposite order. *)
Theorem Matrix2_transpose_product (a b r1 r2 r3 r4 r5 : Matrix2) :
  transpose (transpose a r1) r2 = a /\
  equals (Some (transpose (multiply a b r1) r2))
         (Some (multiply (transpose b r3) (transpose a r4) r5)) = true.
Proof.
  split; [by destruct a | ].
  matrix_eq; apply JS_add_proper; apply JS_mul_comm.
Qed.

(** X3.  Scaling is multiplication by the scale matrix on the right:
    [multiplyByScale(m, scale)] equals [multiply(m, fromScale(scale))], as
    the source's example says, and [multiplyByUniformScale(m, s)] equals
    [multiply(m, fromUniformScale(s))] and is [multiplyByScalar(m, s)]. *)
Theorem Matrix2_scale_is_product (m r1 r2 : Matrix2)
    (scale : Cartesian2.Cartesian2) (s : JS.number) (r3 : option Matrix2) :
  equals (Some (multiplyByScale m scale r1))
         (Some (multiply m (fromScale scale r3) r2)) = true /\
  equals (Some (multiplyByUniformScale m s r1))
         (Some (multiply m (fromUniformScale s r3) r2)) = true /\
  multiplyByUniformScale m s r1 = multiplyByScalar m s r1.
Proof.
  split_and!; [ | | reflexivity]; destruct r3; matrix_eq; by double_simpl.
Qed.

(** X4.  [Matrix2.multiplyByVector] applied to a column of the right
    factor gives that column of the product [Matrix2.multiply] computes;
    on doubles the identity matrix leaves every column as it is, and the
    two unit columns are sent to the two columns of the matrix. *)
Theorem Matrix2_multiplyByVector_columns (a b r : Matrix2)
    (v r1 : Cartesian2.Cartesian2) :
  multiplyByVector a (Cartesian2.mk (m0 b) (m1 b)) r1
  = Cartesian2.mk (m0 (multiply a b r)) (m1 (multiply a b r)) /\
  multiplyByVector a (Cartesian2.mk (m2 b) (m3 b)) r1
  = Cartesian2.mk (m2 (multiply a b r)) (m3 (multiply a b r)) /\
  (JS.isDouble (Cartesian2.x v) -> JS.isDouble (Cartesian2.y v) ->
   Cartesian2.x (multiplyByVector IDENTITY v r1) == Cartesian2.x v /\
   Cartesian2.y (multiplyByVector IDENTITY v r1) == Cartesian2.y v) /\
  (ofDoubles a ->
   Cartesian2.x (multiplyByVector a (Cartesian2.mk 1 0) r1) == m0 a /\
   Cartesian2.y (multiplyByVector a (Cartesian2.mk 1 0) r1) == m1 a /\
   Cartesian2.x (multiplyByVector a (Cartesian2.mk 0 1) r1) == m2 a /\
   Cartesian2.y (multiplyByVector a (Cartesian2.mk 0 1) r1) == m3 a).
Proof.
  split_and!; [reflexivity | reflexivity | | ].
  - intros Hx Hy. cbn -[JS.add JS.sub JS.mul]. split; by double_simpl.
  - intros (H0 & H1 & H2 & H3). cbn -[JS.add JS.sub JS.mul].
    split_and!; by double_simpl.
Qed.

Lemma Matrix2_multiplyByVector_columns_witness :
  let a := mk 3 (1 # 2) (- (5)) (7 # 4) in
  let v := Cartesian2.mk (1 # 4) 9 in
  (Cartesian2.x (multiplyByVector IDENTITY v v) == Cartesian2.x v /\
   Cartesian2.y (multiplyByVector IDENTITY v v) == Cartesian2.y v) /\
  Cartesian2.x (multiplyByVector a (Cartesian2.mk 0 1) v) == - (5).
Proof.
  intros a v.
  destruct (Matrix2_multiplyByVector_columns a a ZERO v v)
    as (_ & _ & Hidentity & Hcolumns).
  split.
  - by apply Hidentity.
  - apply Hcolumns. by repeat split.
Defined.

(** Acting with a product and acting with its factors in turn round at
    different places and can differ. *)
Example Matrix2_multiplyByVector_does_not_compose :
  let a := fromUniformScale (JS.binary64 (1 # 10)) None in
  let b := fromUniformScale (JS.binary64 (2 # 10)) None in
  let v := Cartesian2.mk (JS.binary64 (3 # 10)) 0 in
  ofDoubles a /\ ofDoubles b /\ JS.isDouble (Cartesian2.x v) /\
  ~ Cartesian2.x (multiplyByVector (multiply a b ZERO) v v)
    == Cartesian2.x (multiplyByVector a (multiplyByVector b v v) v).
Proof. vm_compute. by repeat split. Qed.

(** X5.  Addition, subtraction and negation fit together:
    [add] is commutative, [add(m, negate(m))] and [subtract(m, m)] are
    [Matrix2.ZERO], [subtract(a, b)] is [add(a, negate(b))], and
    [subtract(add(a, b), b)] is [a] where [a] is a matrix of doubles and
    the four sums of [add(a, b)] are computed without rounding. *)
Theorem Matrix2_add_subtract_negate (a b r1 r2 r3 : Matrix2) :
  equals (Some (add a b r1)) (Some (add b a r2)) = true /\
  equals (Some (add a (negate a r1) r2)) (Some ZERO) = true /\
  equals (Some (subtract a a r1)) (Some ZERO) = true /\
  equals (Some (subtract a b r1)) (Some (add a (negate b r2) r3)) = true /\
  (ofDoubles a ->
   JS.isDouble (m0 a + m0 b) -> JS.isDouble (m1 a + m1 b) ->
   JS.isDouble (m2 a + m2 b) -> JS.isDouble (m3 a + m3 b) ->
   equals (Some (subtract (add a b r1) b r2)) (Some a) = true).
Proof.
  split_and!.
  - matrix_eq; apply JS_add_comm.
  - matrix_eq; apply JS_add_opp.
  - matrix_eq; apply JS_sub_diag.
  - matrix_eq; apply JS_sub_add_opp.
  - intros (H0 & H1 & H2 & H3) ? ? ? ?. matrix_eq; by apply JS_sub_add.
Qed.

Lemma Matrix2_add_subtract_negate_witness :
  let a := mk 3 (1 # 2) (- (5)) (7 # 4) in
  let b := mk (1 # 8) 6 2 (- (3 # 4)) in
  equals (Some (subtract (add a b ZERO) b ZERO)) (Some a) = true.
Proof.
  intros a b.
  by apply (Matrix2_add_subtract_negate a b ZERO ZERO ZERO).
Defined.

(** Where a sum is rounded the summand is not recovered:
    [(0.1 + 0.2) - 0.2] is not [0.1]. *)
Example Matrix2_subtract_add_rounds :
  let a := fromUniformScale (JS.binary64 (1 # 10)) None in
  let b := fromUniformScale (JS.binary64 (2 # 10)) None in
  ofDoubles a /\ ofDoubles b /\
  equals (Some (subtract (add a b ZERO) b ZERO)) (Some a) = false.
Proof. vm_compute. by repeat split. Qed.

End Matrix2Products.

(** ** Matrix2 columns, rows and element indices *)

Section Matrix2Elements.

Local Open Scope Q_scope.

Import Matrix2.

(** The index checks pass on 0 and 1 ... *)
Lemma index_checks_pass (name : string) index :
  (index <= 1)%nat ->
  Check.firstFailure
    [Check.greaterThanOrEquals name (Check.ofIndex index) 0;
     Check.lessThanOrEquals name (Check.ofIndex index) 1] = None.
Proof.
  intros Hi. destruct index as [ | [ | index]]; [reflexivity | reflexivity | lia].
Qed.

(** ... and fail on everything above. *)
Lemma index_checks_fail (name : string) index :
  (2 <= index)%nat ->
  Check.firstFailure
    [Check.greaterThanOrEquals name (Check.ofIndex index) 0;
     Check.lessThanOrEquals name (Check.ofIndex index) 1]
  = Some (Check.ExpectedLessThanOrEquals name 1 (Check.ofIndex index)).
Proof.
  intros Hi. unfold Check.firstFailure, Check.greaterThanOrEquals,
    Check.lessThanOrEquals, Check.ofIndex.
  assert (H0 : Qle_bool 0 (inject_Z (Z.of_nat index)) = true).
  { apply Qle_bool_iff. unfold Qle; simpl. lia. }
  assert (H1 : Qle_bool (inject_Z (Z.of_nat index)) 1 = false).
  { destruct (Qle_bool _ 1) eqn:E; [ | done].
    apply Qle_bool_iff in E. unfold Qle in E; simpl in E. lia. }
  by rewrite H0, H1.
Qed.

(** X6.  For an index of 0 or 1, in either build: [setColumn] followed by
    [getColumn] at that index gives back the vector and leaves the other
    column as it was, and likewise [setRow] and [getRow]; for a larger
    index a validated build throws from all four. *)
Theorem Matrix2_column_row_round_trip (validated : bool) (m result : Matrix2)
    (index : nat) (c r : Cartesian2.Cartesian2) :
  ((index <= 1)%nat ->
   (exists m',
      setColumn validated m index c result = Check.Returns m' /\
      getColumn validated m' index r = Check.Returns (Some c) /\
      getColumn validated m' (1 - index) r
      = getColumn validated m (1 - index) r) /\
   (exists m',
      setRow validated m index c result = Check.Returns m' /\
      getRow validated m' index r = Check.Returns (Some c) /\
      getRow validated m' (1 - index) r
      = getRow validated m (1 - index) r)) /\
  ((2 <= index)%nat ->
   let e :=
     Check.Developer
       (Check.ExpectedLessThanOrEquals "index" 1 (Check.ofIndex index)) in
   getColumn true m index r = Check.Throws e /\
   setColumn true m index c result = Check.Throws e /\
   getRow true m index r = Check.Throws e /\
   setRow true m index c result = Check.Throws e).
Proof.
  split.
  - intros Hi. destruct c as [cx cy], m as [a0 a1 a2 a3].
    destruct index as [ | [ | index]]; [ | | lia];
      (split; eexists; (split; [destruct validated; reflexivity | ]);
       split; destruct validated; reflexivity).
  - intros Hi e.
    unfold getColumn, setColumn, getRow, setRow, Check.guarded.
    by rewrite !index_checks_fail.
Qed.

Lemma Matrix2_column_row_round_trip_witness :
  exists m',
    setColumn true (Matrix2.mk 1 2 3 4) 1 (Cartesian2.mk 7 8)
      (Matrix2.mk 0 0 0 0) = Check.Returns m' /\
    getColumn true m' 1 (Cartesian2.mk 0 0)
    = Check.Returns (Some (Cartesian2.mk 7 8)) /\
    getColumn true m' (1 - 1) (Cartesian2.mk 0 0)
    = getColumn true (Matrix2.mk 1 2 3 4) (1 - 1) (Cartesian2.mk 0 0).
Proof.
  destruct (Matrix2_column_row_round_trip true (Matrix2.mk 1 2 3 4)
              (Matrix2.mk 0 0 0 0) 1 (Cartesian2.mk 7 8) (Cartesian2.mk 0 0))
    as [Hin _].
  destruct Hin as [Hcolumn _]; [lia | exact Hcolumn].
Defined.

(** X7.  [getElementIndex(column, row)] addresses the element that is
    component [row] of column [column] and component [column] of row
    [row]: for column and row in 0..1 it returns an index below 4, that of
    no other pair, and the element stored there is the one [getColumn] and
    [getRow] report. *)
Theorem Matrix2_getElementIndex_addresses (validated : bool) (m : Matrix2)
    (column row : nat) (r : Cartesian2.Cartesian2) :
  (column <= 1)%nat -> (row <= 1)%nat ->
  exists i columnVector rowVector,
    getElementIndex validated column row = Check.Returns i /\
    (i < 4)%nat /\
    (forall column' row',
        (column' <= 1)%nat -> (row' <= 1)%nat ->
        getElementIndex validated column' row' = Check.Returns i ->
        column' = column /\ row' = row) /\
    getColumn validated m column r = Check.Returns (Some columnVector) /\
    getRow validated m row r = Check.Returns (Some rowVector) /\
    get m i
    = Some (if (row =? 0)%nat then Cartesian2.x columnVector
            else Cartesian2.y columnVector) /\
    get m i
    = Some (if (column =? 0)%nat then Cartesian2.x rowVector
            else Cartesian2.y rowVector).
Proof.
  intros Hc Hr.
  assert (Hidx : forall c' r', (c' <= 1)%nat -> (r' <= 1)%nat ->
            getElementIndex validated c' r' = Check.Returns (c' * 2 + r')%nat).
  { intros c' r' Hc' Hr'.
    destruct c' as [ | [ | c']], r' as [ | [ | r']]; try lia;
      destruct validated; reflexivity. }
  exists (column * 2 + row)%nat.
  destruct m as [a0 a1 a2 a3].
  destruct column as [ | [ | column]], row as [ | [ | row]]; try lia;
    eexists; eexists;
    (split; [by apply Hidx | ]);
    (split; [simpl; lia | ]);
    (split;
     [ intros c' r' Hc' Hr' Heq; rewrite Hidx in Heq by done;
       injection Heq as Heq; lia | ]);
    (split; [destruct validated; reflexivity | ]);
    (split; [destruct validated; reflexivity | ]);
    split; reflexivity.
Qed.

Lemma Matrix2_getElementIndex_addresses_witness :
  exists i columnVector rowVector,
    getElementIndex true 1 0 = Check.Returns i /\
    (i < 4)%nat /\
    (forall column' row',
        (column' <= 1)%nat -> (row' <= 1)%nat ->
        getElementIndex true column' row' = Check.Returns i ->
        column' = 1%nat /\ row' = 0%nat) /\
    getColumn true (Matrix2.mk 1 2 3 4) 1 (Cartesian2.mk 0 0)
    = Check.Returns (Some columnVector) /\
    getRow true (Matrix2.mk 1 2 3 4) 0 (Cartesian2.mk 0 0)
    = Check.Returns (Some rowVector) /\
    get (Matrix2.mk 1 2 3 4) i = Some (Cartesian2.x columnVector) /\
    get (Matrix2.mk 1 2 3 4) i = Some (Cartesian2.y rowVector).
Proof.
  apply (Matrix2_getElementIndex_addresses true (Matrix2.mk 1 2 3 4) 1 0
           (Cartesian2.mk 0 0)); lia.
Defined.

End Matrix2Elements.

(** ** Matrix2 and flat arrays *)

Section Matrix2Arrays.

Local Open Scope Q_scope.

Import Matrix2.

(** The four elements of an array that has them. *)
Lemma complete_elements values :
  complete (LikeArray values) ->
  exists v0 v1 v2 v3,
    JS.get values 0 = Some v0 /\ JS.get values 1 = Some v1 /\
    JS.get values 2 = Some v2 /\ JS.get values 3 = Some v3.
Proof.
  intros Hc.
  destruct (Hc 0%nat) as [v0 H0]; [lia | ].
  destruct (Hc 1%nat) as [v1 H1]; [lia | ].
  destruct (Hc 2%nat) as [v2 H2]; [lia | ].
  destruct (Hc 3%nat) as [v3 H3]; [lia | ].
  by exists v0, v1, v2, v3.
Qed.

(** X8.  [toArray] lays a matrix out so that [fromColumnMajorArray] and
    [unpack] at offset 0 read it back, into a fresh array or into a
    supplied plain array or [Float64Array] that is large enough; and on
    every array of four numbers [fromRowMajorArray] is the transpose of
    [fromColumnMajorArray], with or without a result object. *)
Theorem Matrix2_toArray_round_trip :
  (forall (m : Matrix2) target result,
      match target with
      | Some target => JS.largeEnough target 0 4 /\ JS.storesExactly target
      | None => True
      end ->
      fromColumnMajorArray (toArray m target) result = ReturnsMatrix2 m /\
      unpack (toArray m target) 0 result = Some m) /\
  (forall values result result' r,
      complete (LikeArray values) ->
      exists m,
        fromColumnMajorArray values result = ReturnsMatrix2 m /\
        fromRowMajorArray values result' = ReturnsMatrix2 (transpose m r)).
Proof.
  split.
  - intros m target result Htarget.
    assert (Hunpack : forall result, unpack (toArray m target) 0 result = Some m).
    { intros result0. destruct target as [target | ].
      - destruct Htarget as [Hlarge Hexact].
        rewrite <- (Matrix2_storedIn_exactly target m Hexact) at 2.
        exact (Matrix2_unpack_pack m target 0 result0 Hlarge).
      - by destruct m, result0. }
    split; [ | apply Hunpack].
    assert (Hget : JS.get (toArray m target) 0 = Some (m0 m) /\
                   JS.get (toArray m target) 1 = Some (m1 m) /\
                   JS.get (toArray m target) 2 = Some (m2 m) /\
                   JS.get (toArray m target) 3 = Some (m3 m)).
    { destruct target as [target | ]; [ | done].
      destruct Htarget as [Hlarge Hexact].
      unfold toArray.
      split_and!; read_back Hlarge; by rewrite JS_stored_exactly. }
    destruct Hget as (H0 & H1 & H2 & H3).
    unfold fromColumnMajorArray, clone, element.
    rewrite H0, H1, H2, H3. by destruct m, result.
  - intros values result result' r Hc.
    destruct (complete_elements values Hc) as (v0 & v1 & v2 & v3 & H0 & H1 & H2 & H3).
    exists (Matrix2.mk v0 v1 v2 v3).
    unfold fromColumnMajorArray, fromRowMajorArray, clone, element.
    rewrite H0, H1, H2, H3.
    by destruct result, result'.
Qed.

Lemma Matrix2_toArray_round_trip_witness :
  fromColumnMajorArray
    (toArray (Matrix2.mk 1 2 3 4)
       (Some (JS.TypedArray JS.Float64 [0; 0; 0; 0; 0])))
    None = ReturnsMatrix2 (Matrix2.mk 1 2 3 4) /\
  exists m,
    fromColumnMajorArray (JS.PlainArray [Some 1; Some 2; Some 3; Some 4])
      None = ReturnsMatrix2 m /\
    fromRowMajorArray (JS.PlainArray [Some 1; Some 2; Some 3; Some 4])
      None = ReturnsMatrix2 (transpose m ZERO).
Proof.
  destruct Matrix2_toArray_round_trip as [Hto Hrow].
  split.
  - apply (Hto (Matrix2.mk 1 2 3 4)
             (Some (JS.TypedArray JS.Float64 [0; 0; 0; 0; 0])) None).
    simpl. split; [lia | reflexivity].
  - apply (Hrow (JS.PlainArray [Some 1; Some 2; Some 3; Some 4]) None None).
    intros i Hi. destruct i as [ | [ | [ | [ | i]]]]; simpl; by eauto || lia.
Defined.

(** X9.  [equalsArray] recognises a matrix in the plain array or
    [Float64Array] it was packed into, at the offset it was packed at; in
    any typed array that is large enough it recognises the matrix with
    its elements converted to the element type of the array. *)
Theorem Matrix2_equalsArray_after_pack (m : Matrix2) (array : JS.array)
    (offset : nat) :
  JS.largeEnough array offset packedLength ->
  equalsArray (storedIn array m) (pack m array offset) offset = true /\
  (JS.storesExactly array ->
   equalsArray m (pack m array offset) offset = true).
Proof.
  intros Hlarge.
  assert (Hstored :
            equalsArray (storedIn array m) (pack m array offset) offset = true).
  { unfold equalsArray, pack, storedIn.
    replace (offset + 1)%nat with (S offset) by lia.
    replace (offset + 2)%nat with (S (S offset)) by lia.
    replace (offset + 3)%nat with (S (S (S offset))) by lia.
    read_back Hlarge.
    rewrite !andb_true_iff, !Qeq_bool_iff. split_and!; reflexivity. }
  split; [exact Hstored | ].
  intros Hexact. by rewrite Matrix2_storedIn_exactly in Hstored.
Qed.

Lemma Matrix2_equalsArray_after_pack_witness :
  equalsArray (Matrix2.mk 1 2 3 4)
    (pack (Matrix2.mk 1 2 3 4) (JS.PlainArray []) 2) 2 = true.
Proof.
  destruct (Matrix2_equalsArray_after_pack (Matrix2.mk 1 2 3 4)
              (JS.PlainArray []) 2) as [_ Hexact].
  - simpl. exact I.
  - apply Hexact. simpl. exact I.
Defined.

(** In a [Float32Array] the matrix itself is not recognised when an
    element is not a single-precision number. *)
Example Matrix2_equalsArray_Float32Array :
  let m := Matrix2.mk (JS.binary64 (1 # 10)) 0 0 0 in
  equalsArray m (pack m (JS.TypedArray JS.Float32 [0; 0; 0; 0]) 0) 0 = false.
Proof. by vm_compute. Qed.

End Matrix2Arrays.

Section Matrix2PackArray.

Local Open Scope Q_scope.

Import Matrix2.

Lemma JS_length_set a i v :
  (i < JS.length a)%nat -> JS.length (JS.set a i v) = JS.length a.
Proof.
  destruct a as [l | t l]; simpl; intros Hi.
  - rewrite decide_True by done. simpl. by rewrite length_insert.
  - by rewrite length_insert.
Qed.

Lemma JS_largeEnough_of_length a i n :
  (i + n <= JS.length a)%nat -> JS.largeEnough a i n.
Proof. destruct a; simpl; [done | lia]. Qed.

Lemma pack_length m a j :
  (j + 4 <= JS.length a)%nat -> JS.length (pack m a j) = JS.length a.
Proof.
  intros Hj. unfold pack.
  assert (H0 : JS.length (JS.set a j (m0 m)) = JS.length a)
    by (apply JS_length_set; lia).
  assert (H1 : JS.length (JS.set (JS.set a j (m0 m)) (S j) (m1 m))
               = JS.length a)
    by (rewrite JS_length_set; lia).
  assert (H2 : JS.length
                 (JS.set (JS.set (JS.set a j (m0 m)) (S j) (m1 m))
                    (S (S j)) (m2 m)) = JS.length a)
    by (rewrite JS_length_set; lia).
  rewrite JS_length_set; lia.
Qed.

Lemma pack_storesExactly m a j :
  JS.storesExactly a -> JS.storesExactly (pack m a j).
Proof. intros H. unfold pack. by repeat apply JS_storesExactly_set. Qed.

(** A matrix packed elsewhere does not disturb what is unpacked here. *)
Lemma unpack_pack_elsewhere m a j i r :
  (i + 4 <= j \/ j + 4 <= i)%nat -> unpack (pack m a j) i r = unpack a i r.
Proof.
  intros Hij. unfold unpack, pack.
  by rewrite !JS_get_set_ne by lia.
Qed.

Lemma packFrom_length ms :
  forall a i0,
    ((i0 + List.length ms) * 4 <= JS.length a)%nat ->
    JS.length (packFrom ms a i0) = JS.length a.
Proof.
  induction ms as [ | m ms IH]; intros a i0 Hlen; [done | ].
  simpl in *. rewrite IH; rewrite pack_length; lia.
Qed.

(** The matrices packed later lie behind the slots of the earlier ones. *)
Lemma packFrom_earlier ms :
  forall a i0 i r,
    (i + 4 <= i0 * 4)%nat -> unpack (packFrom ms a i0) i r = unpack a i r.
Proof.
  induction ms as [ | m ms IH]; intros a i0 i r Hi; [done | ].
  simpl. rewrite IH by lia. apply unpack_pack_elsewhere. lia.
Qed.

Lemma packFrom_unpack ms :
  forall a i0 k m r,
    JS.storesExactly a ->
    ((i0 + List.length ms) * 4 <= JS.length a)%nat ->
    ms !! k = Some m ->
    unpack (packFrom ms a i0) ((i0 + k) * 4) r = Some m.
Proof.
  induction ms as [ | m' ms IH]; intros a i0 k m r Hexact Hlen Hk; [done | ].
  simpl in Hlen. destruct k as [ | k]; simpl in *.
  - injection Hk as ->. rewrite Nat.add_0_r.
    rewrite packFrom_earlier by lia.
    rewrite Matrix2_unpack_pack
      by (apply JS_largeEnough_of_length; unfold packedLength; lia).
    by rewrite Matrix2_storedIn_exactly.
  - replace ((i0 + S k) * 4)%nat with ((S i0 + k) * 4)%nat by lia.
    apply IH; [by apply pack_storesExactly | | done].
    rewrite pack_length; lia.
Qed.

(** The loop of [unpackArray] over slots that unpack to the matrices of a
    list returns that list. *)
Lemma unpackFrom_list packed result ms :
  forall i0,
    (forall k m r, ms !! k = Some m ->
                   unpack packed ((i0 + k) * 4) r = Some m) ->
    unpackFrom packed result (i0 * 4) (List.length ms) = Some <$> ms.
Proof.
  induction ms as [ | m ms IH]; intros i0 Hslots; [done | ].
  simpl. f_equal.
  - rewrite <- (Nat.add_0_r i0) at 1. by apply Hslots.
  - replace (i0 * 4 + 4)%nat with (S i0 * 4)%nat by lia.
    apply IH. intros k m' r Hk.
    replace (S i0 + k)%nat with (i0 + S k)%nat by lia. by apply Hslots.
Qed.

(** [packArray] into a buffer of exactly the right length fills it
    without changing its length. *)
Lemma packFrom_round_trip validated ms a :
  ms <> [] ->
  JS.storesExactly a ->
  JS.length a = (List.length ms * 4)%nat ->
  JS.length (packFrom ms a 0) = (4 * List.length ms)%nat /\
  unpackArray validated (packFrom ms a 0) None = Check.Returns (Some <$> ms).
Proof.
  intros Hne Hexact Hlen.
  assert (Hlength : JS.length (packFrom ms a 0) = (List.length ms * 4)%nat).
  { rewrite packFrom_length; simpl; lia. }
  split; [lia | ].
  assert (Hn : (1 <= List.length ms)%nat) by (destruct ms; [done | simpl; lia]).
  unfold unpackArray, Check.guarded. rewrite Hlength.
  rewrite Nat.Div0.mod_mul, Nat.div_mul by lia. simpl negb. cbn iota.
  assert (Hcheck :
    Check.greaterThanOrEquals "array.length"
      (Check.ofIndex (List.length ms * 4)) 4 = None).
  { unfold Check.greaterThanOrEquals, Check.ofIndex.
    replace (Qle_bool 4 (inject_Z (Z.of_nat (List.length ms * 4)))) with true;
      [done | ].
    symmetry. apply Qle_bool_iff. unfold Qle; simpl. lia. }
  assert (Hloop :
    unpackFrom (packFrom ms a 0) (replicate (List.length ms) None) 0
      (List.length ms) = Some <$> ms).
  { apply (unpackFrom_list _ _ ms 0). intros k m r Hk.
    apply packFrom_unpack; [done | simpl; lia | done]. }
  simpl Check.firstFailure. rewrite Hcheck, Hloop.
  by destruct validated.
Qed.

(** X10.  [unpackArray] undoes [packArray]: for a non-empty list of
    matrices packed into a new array, into a plain array of any length
    (which is resized) or into a [Float64Array] of exactly four slots per
    matrix, the packed array has four elements per matrix and unpacks to
    the same matrices, in either build.  The empty list packs to the empty
    array, which a validated build refuses to unpack. *)
Theorem Matrix2_packArray_round_trip (validated : bool) (ms : list Matrix2)
    (result : option JS.array) :
  (ms <> [] ->
   match result with
   | Some result =>
       JS.isArray result = true \/
       (JS.storesExactly result /\
        JS.length result = (List.length ms * 4)%nat)
   | None => True
   end ->
   exists packed,
     packArray validated ms result = Check.Returns packed /\
     JS.length packed = (4 * List.length ms)%nat /\
     unpackArray validated packed None = Check.Returns (Some <$> ms)) /\
  packArray validated [] None = Check.Returns (JS.PlainArray []) /\
  unpackArray true (JS.PlainArray []) None
  = Check.Throws
      (Check.Developer
         (Check.ExpectedGreaterThanOrEquals "array.length" 4 0)) /\
  unpackArray false (JS.PlainArray []) None = Check.Returns [].
Proof.
  split; [ | split_and!; reflexivity].
  intros Hne Hresult. unfold packArray.
  destruct result as [result | ].
  - assert (Hexact : JS.storesExactly result).
    { destruct Hresult as [Harray | [Hexact _]]; [ | done].
      by destruct result. }
    destruct (JS.length result =? List.length ms * 4)%nat eqn:Hlen.
    + apply Nat.eqb_eq in Hlen. rewrite andb_false_r. simpl.
      eexists. split; [reflexivity | ].
      by apply packFrom_round_trip.
    + simpl negb. rewrite andb_true_r.
      destruct Hresult as [Harray | [_ Hlength]];
        [ | apply Nat.eqb_neq in Hlen; lia].
      rewrite Harray. simpl.
      eexists. split; [reflexivity | ].
      destruct result as [l | t l]; [ | done].
      apply packFrom_round_trip; [done | done | ]. simpl.
      rewrite length_app, length_take, length_replicate. lia.
  - eexists. split; [reflexivity | ].
    apply packFrom_round_trip; [done | done | ].
    simpl. by rewrite length_replicate.
Qed.

Lemma Matrix2_packArray_round_trip_witness :
  (exists packed,
      packArray true [Matrix2.mk 1 2 3 4; Matrix2.mk 5 6 7 8]
        (Some (JS.PlainArray [Some 9])) = Check.Returns packed /\
      JS.length packed = (4 * 2)%nat /\
      unpackArray true packed None
      = Check.Returns [Some (Matrix2.mk 1 2 3 4); Some (Matrix2.mk 5 6 7 8)]) /\
  (exists packed,
      packArray true [Matrix2.mk 1 2 3 4]
        (Some (JS.TypedArray JS.Float64 [0; 0; 0; 0])) = Check.Returns packed /\
      JS.length packed = (4 * 1)%nat /\
      unpackArray true packed None = Check.Returns [Some (Matrix2.mk 1 2 3 4)]).
Proof.
  split.
  - destruct (Matrix2_packArray_round_trip true
                [Matrix2.mk 1 2 3 4; Matrix2.mk 5 6 7 8]
                (Some (JS.PlainArray [Some 9]))) as [Hpack _].
    apply Hpack; [discriminate | left; reflexivity].
  - destruct (Matrix2_packArray_round_trip true [Matrix2.mk 1 2 3 4]
                (Some (JS.TypedArray JS.Float64 [0; 0; 0; 0]))) as [Hpack _].
    apply Hpack; [discriminate | right; split; reflexivity].
Defined.

(** A [Float32Array] of the right length is accepted, and gives back the
    single-precision numbers nearest to the elements. *)
Example Matrix2_packArray_Float32Array :
  let m := Matrix2.mk (JS.binary64 (1 # 10)) 0 0 0 in
  exists packed unpacked,
    packArray true [m] (Some (JS.TypedArray JS.Float32 [0; 0; 0; 0]))
    = Check.Returns packed /\
    unpackArray true packed None = Check.Returns [Some unpacked] /\
    equals (Some unpacked) (Some m) = false.
Proof.
  eexists _, _. split_and!; [reflexivity | reflexivity | by vm_compute].
Qed.

End Matrix2PackArray.

(** ** BoundingRectangle.fromPoints, expand, intersect and union *)

Section RectangleFacts.

Local Open Scope Q_scope.

Import BoundingRectangle.

Lemma gt_true a b : gt a b = true <-> b < a.
Proof.
  unfold gt. destruct (Qle_bool a b) eqn:E; simpl.
  - apply Qle_bool_iff in E. split; [done | lra].
  - split; [intros _ | done]. apply Qnot_le_lt. intros H.
    apply Qle_bool_iff in H. congruence.
Qed.

Lemma gt_false a b : gt a b = false <-> a <= b.
Proof.
  unfold gt. destruct (Qle_bool a b) eqn:E; simpl.
  - apply Qle_bool_iff in E. tauto.
  - split; [done | ]. intros H. apply Qle_bool_iff in H. congruence.
Qed.

Lemma lt_true a b : lt a b = true <-> a < b.
Proof. unfold lt. apply (gt_true b a). Qed.

Lemma lt_false a b : lt a b = false <-> b <= a.
Proof. unfold lt. apply (gt_false b a). Qed.

(** The scan only widens the running bounds. *)
Lemma rectangle_scan_widens positions b :
  (minimumX (scan positions b) <= minimumX b /\
   maximumX b <= maximumX (scan positions b)) /\
  (minimumY (scan positions b) <= minimumY b /\
   maximumY b <= maximumY (scan positions b)).
Proof.
  revert b. induction positions as [ | p positions IH]; intros b; simpl.
  - split_and!; lra.
  - destruct (IH (mkBounds
                    (Qmin (Cartesian2.x p) (minimumX b))
                    (Qmin (Cartesian2.y p) (minimumY b))
                    (Qmax (Cartesian2.x p) (maximumX b))
                    (Qmax (Cartesian2.y p) (maximumY b))))
      as ((Hx1 & Hx2) & (Hy1 & Hy2)).
    simpl in *.
    pose proof (Q.le_min_r (Cartesian2.x p) (minimumX b)).
    pose proof (Q.le_min_r (Cartesian2.y p) (minimumY b)).
    pose proof (Q.le_max_r (Cartesian2.x p) (maximumX b)).
    pose proof (Q.le_max_r (Cartesian2.y p) (maximumY b)).
    split_and!; lra.
Qed.

(** Every scanned position ends up between the final bounds. *)
Lemma rectangle_scan_encloses positions b p :
  p ∈ positions ->
  (minimumX (scan positions b) <= Cartesian2.x p /\
   Cartesian2.x p <= maximumX (scan positions b)) /\
  (minimumY (scan positions b) <= Cartesian2.y p /\
   Cartesian2.y p <= maximumY (scan positions b)).
Proof.
  revert b. induction positions as [ | q positions IH]; intros b Hin.
  - by apply elem_of_nil in Hin.
  - apply elem_of_cons in Hin as [-> | Hin]; simpl.
    + pose proof (rectangle_scan_widens positions
                    (mkBounds
                       (Qmin (Cartesian2.x q) (minimumX b))
                       (Qmin (Cartesian2.y q) (minimumY b))
                       (Qmax (Cartesian2.x q) (maximumX b))
                       (Qmax (Cartesian2.y q) (maximumY b))))
        as ((Hx1 & Hx2) & (Hy1 & Hy2)).
      simpl in *.
      pose proof (Q.le_min_l (Cartesian2.x q) (minimumX b)).
      pose proof (Q.le_min_l (Cartesian2.y q) (minimumY b)).
      pose proof (Q.le_max_l (Cartesian2.x q) (maximumX b)).
      pose proof (Q.le_max_l (Cartesian2.y q) (maximumY b)).
      split_and!; lra.
    + by apply IH.
Qed.

(** The running bounds stay coordinates of positions seen. *)
Lemma rectangle_scan_attains positions :
  forall seen b,
    ((exists p, p ∈ seen /\ Cartesian2.x p = minimumX b) /\
     (exists p, p ∈ seen /\ Cartesian2.y p = minimumY b) /\
     (exists p, p ∈ seen /\ Cartesian2.x p = maximumX b) /\
     (exists p, p ∈ seen /\ Cartesian2.y p = maximumY b)) ->
    (exists p, p ∈ seen ++ positions /\
               Cartesian2.x p = minimumX (scan positions b)) /\
    (exists p, p ∈ seen ++ positions /\
               Cartesian2.y p = minimumY (scan positions b)) /\
    (exists p, p ∈ seen ++ positions /\
               Cartesian2.x p = maximumX (scan positions b)) /\
    (exists p, p ∈ seen ++ positions /\
               Cartesian2.y p = maximumY (scan positions b)).
Proof.
  induction positions as [ | q positions IH]; intros seen b Hb.
  - by rewrite app_nil_r.
  - simpl. rewrite (cons_middle q seen positions), app_assoc.
    apply IH.
    destruct Hb as (Hx1 & Hy1 & Hx2 & Hy2). simpl.
    split_and!;
      match goal with
      | |- exists p, _ /\ _ = Qmin ?a ?c =>
          destruct (Qmin_either a c) as [-> | ->]
      | |- exists p, _ /\ _ = Qmax ?a ?c =>
          destruct (Qmax_either a c) as [-> | ->]
      end;
      first [ exists q; split;
              [apply elem_of_app; right; by apply list_elem_of_singleton
              | reflexivity]
            | match goal with
              | H : exists p, p ∈ seen /\ ?f p = ?v |- exists p, _ /\ ?f p = ?v =>
                  destruct H as (p & Hp & Hv); exists p; split;
                  [apply elem_of_app; by left | exact Hv]
              end ].
Qed.

(** X11.  [BoundingRectangle.fromPoints] on a list that is not empty
    returns a rectangle whose lower left corner is the componentwise
    minimum of the points, each coordinate that of a point, so that no
    point lies to the left of it or below it; its width and height are the
    differences, rounded, between the greatest and the least x and y of
    the points, and are not negative.  When the two subtractions are exact
    its extent holds every point and its right and upper edges pass
    through points.  For an empty or undefined list it is the zero
    rectangle at the origin. *)
Theorem BoundingRectangle_fromPoints_encloses :
  (forall positions result,
      positions <> [] ->
      let r := fromPoints (Some positions) result in
      exists right top,
        (forall p, p ∈ positions ->
                   (x r <= Cartesian2.x p /\ Cartesian2.x p <= right) /\
                   (y r <= Cartesian2.y p /\ Cartesian2.y p <= top)) /\
        (exists p, p ∈ positions /\ Cartesian2.x p == x r) /\
        (exists p, p ∈ positions /\ Cartesian2.y p == y r) /\
        (exists p, p ∈ positions /\ Cartesian2.x p == right) /\
        (exists p, p ∈ positions /\ Cartesian2.y p == top) /\
        width r == JS.sub right (x r) /\
        height r == JS.sub top (y r) /\
        proper r /\
        (JS.isDouble (right - x r) -> JS.isDouble (top - y r) ->
         x r + width r == right /\ y r + height r == top /\
         forall p, p ∈ positions ->
                   inExtent r (Cartesian2.x p) (Cartesian2.y p))) /\
  (forall positions result,
      positions = None \/ positions = Some [] ->
      fromPoints positions result = BoundingRectangle.mk 0 0 0 0).
Proof.
  split.
  - intros [ | p0 rest] result Hne r; [done | ].
    set (b0 := mkBounds (Cartesian2.x p0) (Cartesian2.y p0)
                        (Cartesian2.x p0) (Cartesian2.y p0)).
    assert (Hall : forall p, p ∈ p0 :: rest ->
              (minimumX (scan rest b0) <= Cartesian2.x p /\
               Cartesian2.x p <= maximumX (scan rest b0)) /\
              (minimumY (scan rest b0) <= Cartesian2.y p /\
               Cartesian2.y p <= maximumY (scan rest b0))).
    { intros p Hin. apply elem_of_cons in Hin as [-> | Hin].
      - exact (rectangle_scan_widens rest b0).
      - by apply rectangle_scan_encloses. }
    assert (Hatt := rectangle_scan_attains rest [p0] b0).
    destruct Hatt as (Hx1 & Hy1 & Hx2 & Hy2).
    { unfold b0; simpl.
      split_and!; exists p0;
        (split; [by apply list_elem_of_singleton | reflexivity]). }
    simpl in Hx1, Hy1, Hx2, Hy2.
    destruct (Hall p0) as ((? & ?) & (? & ?)); [apply elem_of_cons; by left | ].
    assert (Hr : r = BoundingRectangle.mk
                       (minimumX (scan rest b0)) (minimumY (scan rest b0))
                       (JS.sub (maximumX (scan rest b0)) (minimumX (scan rest b0)))
                       (JS.sub (maximumY (scan rest b0)) (minimumY (scan rest b0)))).
    { unfold r, fromPoints. fold b0. by destruct result as [[] | ]. }
    rewrite Hr. cbn [x y width height].
    exists (maximumX (scan rest b0)), (maximumY (scan rest b0)).
    split_and!.
    + exact Hall.
    + destruct Hx1 as (p & Hp & Hv). exists p. split; [done | by rewrite Hv].
    + destruct Hy1 as (p & Hp & Hv). exists p. split; [done | by rewrite Hv].
    + destruct Hx2 as (p & Hp & Hv). exists p. split; [done | by rewrite Hv].
    + destruct Hy2 as (p & Hp & Hv). exists p. split; [done | by rewrite Hv].
    + reflexivity.
    + reflexivity.
    + split; cbn [width height]; apply binary64_nonneg; lra.
    + unfold JS.isDouble, JS.sub, inExtent. cbn [x y width height].
      intros Ex Ey. rewrite Ex, Ey.
      split_and!; [ring | ring | ].
      intros p Hin. destruct (Hall p Hin) as ((? & ?) & (? & ?)).
      split_and!; lra.
  - intros positions result [-> | ->]; by destruct result as [[] | ].
Qed.

Lemma BoundingRectangle_fromPoints_encloses_witness :
  let positions := [Cartesian2.mk 3 1; Cartesian2.mk (-1) 4] in
  proper (fromPoints (Some positions) None) /\
  x (fromPoints (Some positions) None) <= 3 /\
  y (fromPoints (Some positions) None) <= 1.
Proof.
  intros positions.
  destruct BoundingRectangle_fromPoints_encloses as [Hpoints _].
  destruct (Hpoints positions None)
    as (right & top & Hall & _ & _ & _ & _ & _ & _ & Hproper & _);
    [discriminate | ].
  split; [exact Hproper | ].
  destruct (Hall (Cartesian2.mk 3 1)) as ((Hx & _) & (Hy & _));
    [apply elem_of_cons; by left | ].
  split; [exact Hx | exact Hy].
Defined.

(** With a rounded subtraction the right edge can fall short of a point:
    for the points (0.2, 0) and (0.7999999999999999, 0) the width is
    0.5999999999999999, and 0.2 plus the width is below the second
    point. *)
Example BoundingRectangle_fromPoints_rounds :
  let p := Cartesian2.mk (JS.binary64 (2 # 10)) 0 in
  let q := Cartesian2.mk (JS.add (JS.binary64 (7 # 10)) (JS.binary64 (1 # 10))) 0 in
  let r := fromPoints (Some [p; q]) None in
  x r + width r < Cartesian2.x q /\ JS.add (x r) (width r) < Cartesian2.x q.
Proof. split; by vm_compute. Qed.

End RectangleFacts.

Section RectangleOperations.

Local Open Scope Q_scope.

Import BoundingRectangle.

Lemma BoundingRectangle_equals_iff a b :
  equals (Some a) (Some b) = true <->
  x a == x b /\ y a == y b /\ width a == width b /\ height a == height b.
Proof.
  unfold equals. rewrite !andb_true_iff, !Qeq_bool_iff. tauto.
Qed.

(** Case analysis on the two comparisons of one axis of [expand]. *)
Ltac expand_cases :=
  repeat (cbn [x y width height set_x set_y set_width set_height] in *;
          match goal with
          | |- context [gt ?a ?b] =>
              let E := fresh "E" in
              destruct (gt a b) eqn:E;
              [apply gt_true in E | apply gt_false in E]
          | |- context [lt ?a ?b] =>
              let E := fresh "E" in
              destruct (lt a b) eqn:E;
              [apply lt_true in E | apply lt_false in E]
          end).

(** The sign of a rounded difference is that of the difference. *)
Lemma JS_sub_sign a b :
  (b < a -> 0 < JS.sub a b) /\
  (a < b -> JS.sub a b < 0) /\
  (a == b -> JS.sub a b == 0).
Proof.
  destruct (binary64_sign (a - b)) as (Hpos & Hneg & Hzero).
  unfold JS.sub. split_and!; intros H.
  - apply Hpos. lra.
  - apply Hneg. lra.
  - apply Hzero. lra.
Qed.

(** One axis of [expand]: the corner [c], the size [s] and the coordinate
    [p] of the point; what the new corner and the new size are. *)
Lemma expand_axis c s p :
  0 <= s ->
  let d := JS.sub p c in
  let c' := if gt d s then c else if lt d 0 then p else c in
  let s' := if gt d s then d else if lt d 0 then JS.sub s d else s in
  c' == Qmin c p /\ 0 <= s' /\
  (JS.isDouble s -> c <= p -> p <= c + s -> c' == c /\ s' == s) /\
  (JS.isDouble (p - c) -> JS.isDouble (s - (p - c)) ->
   c' + s' == Qmax (c + s) p).
Proof.
  intros Hs d c' s'. unfold c', s'.
  destruct (JS_sub_sign p c) as (Hpos & Hneg & Hzero). fold d in Hpos, Hneg, Hzero.
  assert (Hexact : JS.isDouble (p - c) -> d == p - c) by done.
  assert (Hexact' : JS.isDouble (p - c) -> JS.isDouble (s - (p - c)) ->
                    JS.sub s d == s - (p - c)).
  { intros E1 E2. unfold JS.sub at 1. rewrite (Hexact E1). exact E2. }
  assert (Hmono : JS.isDouble s -> p - c <= s -> d <= s).
  { intros E H. unfold JS.isDouble in E. rewrite <- E.
    by apply binary64_monotone. }
  assert (Hnonneg : 0 <= JS.sub s d \/ 0 <= d).
  { destruct (Qlt_le_dec d 0) as [H | H]; [left | by right].
    apply binary64_nonneg. lra. }
  assert (Hsign : (0 < d /\ c < p) \/ (d < 0 /\ p < c) \/ (d == 0 /\ p == c)).
  { destruct (Q_dec p c) as [[Hpc | Hpc] | Hpc]; [right; left | left | right; right];
      (split; [by auto | lra]). }
  destruct (gt d s) eqn:E1; [apply gt_true in E1 | apply gt_false in E1].
  - (* the point is beyond the upper edge *)
    split_and!.
    + destruct (Q.min_spec c p) as [[? ->] | [? ->]]; [reflexivity | ].
      destruct Hsign as [[? ?] | [[? ?] | [? ?]]]; lra.
    + lra.
    + intros E H1 H2. specialize (Hmono E). lra.
    + intros F1 F2. specialize (Hexact F1).
      destruct (Q.max_spec (c + s) p) as [[? ->] | [? ->]]; lra.
  - destruct (lt d 0) eqn:E2; [apply lt_true in E2 | apply lt_false in E2].
    + (* the point is below the corner *)
      split_and!.
      * destruct (Q.min_spec c p) as [[? ->] | [? ->]]; [ | reflexivity].
        destruct Hsign as [[? ?] | [[? ?] | [? ?]]]; lra.
      * destruct Hnonneg; lra.
      * intros E H1 H2. destruct Hsign as [[? ?] | [[? ?] | [? ?]]]; lra.
      * intros F1 F2. specialize (Hexact' F1 F2). specialize (Hexact F1).
        destruct (Q.max_spec (c + s) p) as [[? ->] | [? ->]]; lra.
    + (* the point is within the extent, as far as the code can tell *)
      split_and!.
      * destruct (Q.min_spec c p) as [[? ->] | [? ->]]; [reflexivity | ].
        destruct Hsign as [[? ?] | [[? ?] | [? ?]]]; lra.
      * exact Hs.
      * intros _ _ _. split; reflexivity.
      * intros F1 F2. specialize (Hexact F1).
        destruct (Q.max_spec (c + s) p) as [[? ->] | [? ->]]; lra.
Qed.

(** X12.  For a rectangle of non-negative width and height, [expand]
    moves the lower left corner to the componentwise minimum of the corner
    and the point and returns a rectangle of non-negative size; it returns
    the rectangle as it was when its width and height are doubles and the
    point lies in its extent; and when the subtractions of [expand] and
    the additions and subtractions of [union] are exact, the result is the
    union with the point taken as a rectangle of size zero, and holds the
    point and the four corners of the rectangle. *)
Theorem BoundingRectangle_expand_is_union (rectangle : BoundingRectangle)
    (point : Cartesian2.Cartesian2) (result result' : option BoundingRectangle) :
  proper rectangle ->
  let expanded := expand rectangle point result in
  x expanded == Qmin (x rectangle) (Cartesian2.x point) /\
  y expanded == Qmin (y rectangle) (Cartesian2.y point) /\
  proper expanded /\
  (JS.isDouble (width rectangle) -> JS.isDouble (height rectangle) ->
   inExtent rectangle (Cartesian2.x point) (Cartesian2.y point) ->
   equals (Some expanded) (Some rectangle) = true) /\
  (exactExpand rectangle point ->
   exactUnion rectangle
     (BoundingRectangle.mk (Cartesian2.x point) (Cartesian2.y point) 0 0) ->
   equals (Some expanded)
     (Some (union rectangle
              (BoundingRectangle.mk (Cartesian2.x point) (Cartesian2.y point) 0 0)
              result')) = true /\
   inExtent expanded (Cartesian2.x point) (Cartesian2.y point) /\
   containsCorners expanded rectangle).
Proof.
  intros [Hw Hh] expanded.
  destruct rectangle as [rx ry rw rh], point as [px py]. simpl in Hw, Hh.
  assert (Hclone : forall result,
            default (BoundingRectangle.mk rx ry rw rh)
              (clone (Some (BoundingRectangle.mk rx ry rw rh)) result)
            = BoundingRectangle.mk rx ry rw rh).
  { by intros [r | ]. }
  destruct (expand_axis rx rw px Hw) as (Xmin & Xsize & Xin & Xexact).
  destruct (expand_axis ry rh py Hh) as (Ymin & Ysize & Yin & Yexact).
  cbv zeta in Xmin, Xsize, Xin, Xexact, Ymin, Ysize, Yin, Yexact.
  assert (Hx : x expanded
               = if gt (JS.sub px rx) rw then rx
                 else if lt (JS.sub px rx) 0 then px else rx).
  { unfold expanded, expand. rewrite Hclone.
    cbn [x y width height Cartesian2.x Cartesian2.y].
    destruct (gt (JS.sub px rx) rw), (lt (JS.sub px rx) 0);
      cbn [x y width height set_x set_y set_width set_height];
      destruct (gt (JS.sub py ry) rh), (lt (JS.sub py ry) 0); reflexivity. }
  assert (Hy : y expanded
               = if gt (JS.sub py ry) rh then ry
                 else if lt (JS.sub py ry) 0 then py else ry).
  { unfold expanded, expand. rewrite Hclone.
    cbn [x y width height Cartesian2.x Cartesian2.y].
    destruct (gt (JS.sub px rx) rw), (lt (JS.sub px rx) 0);
      cbn [x y width height set_x set_y set_width set_height];
      destruct (gt (JS.sub py ry) rh), (lt (JS.sub py ry) 0); reflexivity. }
  assert (Hwidth : width expanded
                   = if gt (JS.sub px rx) rw then JS.sub px rx
                     else if lt (JS.sub px rx) 0
                          then JS.sub rw (JS.sub px rx) else rw).
  { unfold expanded, expand. rewrite Hclone.
    cbn [x y width height Cartesian2.x Cartesian2.y].
    destruct (gt (JS.sub px rx) rw), (lt (JS.sub px rx) 0);
      cbn [x y width height set_x set_y set_width set_height];
      destruct (gt (JS.sub py ry) rh), (lt (JS.sub py ry) 0); reflexivity. }
  assert (Hheight : height expanded
                    = if gt (JS.sub py ry) rh then JS.sub py ry
                      else if lt (JS.sub py ry) 0
                           then JS.sub rh (JS.sub py ry) else rh).
  { unfold expanded, expand. rewrite Hclone.
    cbn [x y width height Cartesian2.x Cartesian2.y].
    destruct (gt (JS.sub px rx) rw), (lt (JS.sub px rx) 0);
      cbn [x y width height set_x set_y set_width set_height];
      destruct (gt (JS.sub py ry) rh), (lt (JS.sub py ry) 0); reflexivity. }
  rewrite <- Hx in Xmin, Xin, Xexact. rewrite <- Hy in Ymin, Yin, Yexact.
  rewrite <- Hwidth in Xsize, Xin, Xexact.
  rewrite <- Hheight in Ysize, Yin, Yexact.
  cbn [x y width height Cartesian2.x Cartesian2.y].
  split_and!.
  - exact Xmin.
  - exact Ymin.
  - split; [exact Xsize | exact Ysize].
  - unfold inExtent. cbn [x y width height].
    intros Ew Eh ((? & ?) & (? & ?)).
    destruct (Xin Ew) as [? ?]; [done | done | ].
    destruct (Yin Eh) as [? ?]; [done | done | ].
    apply BoundingRectangle_equals_iff. cbn [x y width height]. done.
  - unfold exactExpand, exactUnion.
    cbn [x y width height Cartesian2.x Cartesian2.y].
    intros (F1 & F2 & F3 & F4) (G1 & G2 & G3 & G4 & G5 & G6).
    specialize (Xexact F1 F2). specialize (Yexact F3 F4).
    rewrite union_fields. cbn [x y width height].
    pose proof (union_axis_exact rx rw px 0 G1 G2 G5) as Ux.
    pose proof (union_axis_exact ry rh py 0 G3 G4 G6) as Uy.
    pose proof (Q.le_min_l rx px). pose proof (Q.le_min_r rx px).
    pose proof (Q.le_min_l ry py). pose proof (Q.le_min_r ry py).
    pose proof (Q.le_max_l (rx + rw) px). pose proof (Q.le_max_r (rx + rw) px).
    pose proof (Q.le_max_l (ry + rh) py). pose proof (Q.le_max_r (ry + rh) py).
    assert (Mx : Qmax (rx + rw) (px + 0) == Qmax (rx + rw) px)
      by (by rewrite Qplus_0_r).
    assert (My : Qmax (ry + rh) (py + 0) == Qmax (ry + rh) py)
      by (by rewrite Qplus_0_r).
    split_and!.
    + apply BoundingRectangle_equals_iff. cbn [x y width height].
      rewrite Ux, Uy. split_and!; lra.
    + unfold inExtent. split_and!; lra.
    + unfold containsCorners, inExtent. cbn [x y width height].
      split_and!; lra.
Qed.

Lemma BoundingRectangle_expand_is_union_witness :
  inExtent
    (expand (BoundingRectangle.mk 0 0 2 2) (Cartesian2.mk (-1) 5) None) (-1) 5 /\
  containsCorners
    (expand (BoundingRectangle.mk 0 0 2 2) (Cartesian2.mk (-1) 5) None)
    (BoundingRectangle.mk 0 0 2 2).
Proof.
  destruct (BoundingRectangle_expand_is_union (BoundingRectangle.mk 0 0 2 2)
              (Cartesian2.mk (-1) 5) None None)
    as (_ & _ & _ & _ & Hexact).
  - split; by vm_compute.
  - destruct Hexact as (_ & Hpoint & Hcorners).
    + unfold exactExpand. simpl. split_and!; by vm_compute.
    + unfold exactUnion. simpl. split_and!; by vm_compute.
    + split; [exact Hpoint | exact Hcorners].
Defined.

(** With rounding, [expand] and the union differ: for the rectangle
    (0.8, -0.9, 0.9, 0.1) and the point (0.9, -0.2) the widths are not the
    same number. *)
Example BoundingRectangle_expand_rounds :
  let rectangle :=
    BoundingRectangle.mk (JS.binary64 (8 # 10)) (JS.binary64 (- (9 # 10)))
      (JS.binary64 (9 # 10)) (JS.binary64 (1 # 10)) in
  let px := JS.binary64 (9 # 10) in
  let py := JS.binary64 (- (2 # 10)) in
  proper rectangle /\
  equals (Some (expand rectangle (Cartesian2.mk px py) None))
    (Some (union rectangle (BoundingRectangle.mk px py 0 0) None)) = false.
Proof. split; [split | ]; by vm_compute. Qed.

(** A double below a sum is not above the rounded sum. *)
Lemma JS_add_ge a b c : JS.isDouble c -> c <= a + b -> c <= JS.add a b.
Proof.
  intros Hc Hle. unfold JS.isDouble in Hc. rewrite <- Hc.
  by apply binary64_monotone.
Qed.

(** [intersect] answers INTERSECTING or OUTSIDE, and the former when the
    intervals up to the computed right and upper edges overlap. *)
Lemma intersect_overlap left right :
  (intersect left right = INTERSECTING \/ intersect left right = OUTSIDE) /\
  (intersect left right = INTERSECTING <->
   x left <= JS.add (x right) (width right) /\
   x right <= JS.add (x left) (width left) /\
   y right <= JS.add (y left) (height left) /\
   y left <= JS.add (y right) (height right)).
Proof.
  unfold intersect. cbv zeta.
  destruct (gt (x left) _) eqn:E1;
    [apply gt_true in E1 | apply gt_false in E1];
  (destruct (lt _ (x right)) eqn:E2;
    [apply lt_true in E2 | apply lt_false in E2]);
  (destruct (lt _ (y right)) eqn:E3;
    [apply lt_true in E3 | apply lt_false in E3]);
  (destruct (gt (y left) _) eqn:E4;
    [apply gt_true in E4 | apply gt_false in E4]);
  cbn [negb orb];
  (split; [by auto | ]);
  (split; [first [discriminate | by intros _] | ]);
  first [reflexivity | intros (? & ? & ? & ?); lra].
Qed.

(** X13.  [BoundingRectangle.intersect] does not depend on the order of
    its arguments and never answers INSIDE.  It answers INTERSECTING
    whenever some point lies in the extent of both rectangles, edges
    included, their corners being doubles; and for two rectangles of
    non-negative width and height whose four sums [x + width] and
    [y + height] are computed without rounding it answers INTERSECTING
    exactly then. *)
Theorem BoundingRectangle_intersect_common_point (left right : BoundingRectangle) :
  intersect left right = intersect right left /\
  intersect left right <> INSIDE /\
  (JS.isDouble (x left) -> JS.isDouble (y left) ->
   JS.isDouble (x right) -> JS.isDouble (y right) ->
   (exists px py, inExtent left px py /\ inExtent right px py) ->
   intersect left right = INTERSECTING) /\
  (proper left -> proper right ->
   JS.isDouble (x left + width left) -> JS.isDouble (y left + height left) ->
   JS.isDouble (x right + width right) ->
   JS.isDouble (y right + height right) ->
   (intersect left right = INTERSECTING <->
    exists px py, inExtent left px py /\ inExtent right px py)).
Proof.
  destruct (intersect_overlap left right) as [Hvalues Hiff].
  destruct (intersect_overlap right left) as [Hvalues' Hiff'].
  split_and!.
  - destruct Hvalues as [E | E], Hvalues' as [E' | E']; rewrite E, E';
      try reflexivity; exfalso.
    + assert (H : intersect right left = INTERSECTING)
        by (apply Hiff'; apply Hiff in E; tauto).
      congruence.
    + assert (H : intersect left right = INTERSECTING)
        by (apply Hiff; apply Hiff' in E'; tauto).
      congruence.
  - by destruct Hvalues as [-> | ->].
  - intros Hlx Hly Hrx Hry (px & py & ((? & ?) & (? & ?)) & ((? & ?) & (? & ?))).
    apply Hiff. split_and!; apply JS_add_ge; try done; lra.
  - intros [Hlw Hlh] [Hrw Hrh] Elx Ely Erx Ery.
    rewrite Hiff.
    rewrite (JS_add_exact _ _ Elx), (JS_add_exact _ _ Ely),
      (JS_add_exact _ _ Erx), (JS_add_exact _ _ Ery).
    unfold inExtent. split.
    + intros (? & ? & ? & ?).
      exists (Qmax (x left) (x right)), (Qmax (y left) (y right)).
      destruct (Q.max_spec (x left) (x right)) as [[? ->] | [? ->]];
        destruct (Q.max_spec (y left) (y right)) as [[? ->] | [? ->]];
        split_and!; lra.
    + intros (px & py & ((? & ?) & (? & ?)) & ((? & ?) & (? & ?))).
      split_and!; lra.
Qed.

Lemma BoundingRectangle_intersect_common_point_witness :
  intersect (BoundingRectangle.mk 0 0 2 2) (BoundingRectangle.mk 2 1 3 3)
  = INTERSECTING <->
  exists px py,
    inExtent (BoundingRectangle.mk 0 0 2 2) px py /\
    inExtent (BoundingRectangle.mk 2 1 3 3) px py.
Proof.
  destruct (BoundingRectangle_intersect_common_point
              (BoundingRectangle.mk 0 0 2 2) (BoundingRectangle.mk 2 1 3 3))
    as (_ & _ & _ & Hiff).
  apply Hiff; first [by vm_compute | split; simpl; unfold Qle; simpl; lia].
Defined.

(** Where a sum is rounded up, the answer can be INTERSECTING of two
    rectangles whose extents share no point: the right edge [0.1 + 0.2]
    of one is below the left edge [0.30000000000000004] of the other, and
    is rounded onto it. *)
Example BoundingRectangle_intersect_rounds :
  let d := JS.binary64 in
  let left := BoundingRectangle.mk (JS.add (d (1 # 10)) (d (2 # 10))) 0 1 1 in
  let right := BoundingRectangle.mk (d (1 # 10)) 0 (d (2 # 10)) 1 in
  proper left /\ proper right /\
  intersect left right = INTERSECTING /\
  x right + width right < x left.
Proof. by vm_compute. Qed.

(** X14.  [BoundingRectangle.union] does not depend on the order of its
    operands; and when its additions and subtractions are exact it is the
    least enclosing rectangle: every rectangle that holds the corners of
    two rectangles of non-negative size holds the corners of their
    union. *)
Theorem BoundingRectangle_union_least (A B R : BoundingRectangle)
    (result result' : option BoundingRectangle) :
  equals (Some (union A B result)) (Some (union B A result')) = true /\
  (proper A -> proper B -> exactUnion A B ->
   containsCorners R A -> containsCorners R B ->
   containsCorners R (union A B result)).
Proof.
  destruct A as [ax ay aw ah], B as [bx byy bw bh], R as [rx ry rw rh].
  rewrite !union_fields. cbn [x y width height]. split.
  - apply BoundingRectangle_equals_iff. cbn [x y width height].
    rewrite (Q.min_comm bx ax), (Q.min_comm byy ay),
      (Q.max_comm (JS.add bx bw) (JS.add ax aw)),
      (Q.max_comm (JS.add byy bh) (JS.add ay ah)).
    split_and!; reflexivity.
  - unfold proper, exactUnion, containsCorners, inExtent.
    cbn [x y width height].
    intros [? ?] [? ?] (E1 & E2 & E3 & E4 & E5 & E6) HA HB.
    rewrite (union_axis_exact ax aw bx bw E1 E2 E5),
      (union_axis_exact ay ah byy bh E3 E4 E6).
    destruct HA as (((? & ?) & (? & ?)) & ((? & ?) & (? & ?)) &
                    ((? & ?) & (? & ?)) & ((? & ?) & (? & ?))).
    destruct HB as (((? & ?) & (? & ?)) & ((? & ?) & (? & ?)) &
                    ((? & ?) & (? & ?)) & ((? & ?) & (? & ?))).
    destruct (Q.min_spec ax bx) as [[? Hminx] | [? Hminx]];
      destruct (Q.min_spec ay byy) as [[? Hminy] | [? Hminy]];
      destruct (Q.max_spec (ax + aw) (bx + bw)) as [[? Hmaxx] | [? Hmaxx]];
      destruct (Q.max_spec (ay + ah) (byy + bh)) as [[? Hmaxy] | [? Hmaxy]];
      rewrite Hminx, Hminy, Hmaxx, Hmaxy;
      split_and!; lra.
Qed.

Lemma BoundingRectangle_union_least_witness :
  containsCorners (BoundingRectangle.mk (-1) (-1) 10 10)
    (union (BoundingRectangle.mk 0 0 2 3) (BoundingRectangle.mk 1 1 4 1) None).
Proof.
  destruct (BoundingRectangle_union_least (BoundingRectangle.mk 0 0 2 3)
              (BoundingRectangle.mk 1 1 4 1)
              (BoundingRectangle.mk (-1) (-1) 10 10) None None) as [_ Hleast].
  apply Hleast.
  - split; by vm_compute.
  - split; by vm_compute.
  - unfold exactUnion. simpl. split_and!; by vm_compute.
  - repeat split; by vm_compute.
  - repeat split; by vm_compute.
Defined.

(** With rounding the union can reach beyond a rectangle that holds both
    operands: A = (-2.1, 0, 0, 1) and B = (2.7, 0, 0, 1) lie in
    R = (-4.1, 0, 6.8, 1), whose right edge as a sum of doubles is 2.7,
    and the right edge of the union is above it. *)
Example BoundingRectangle_union_rounds :
  let A := BoundingRectangle.mk (JS.binary64 (- (21 # 10))) 0 0 1 in
  let B := BoundingRectangle.mk (JS.binary64 (27 # 10)) 0 0 1 in
  let R := BoundingRectangle.mk (JS.binary64 (- (41 # 10))) 0
             (JS.binary64 (68 # 10)) 1 in
  let r := union A B None in
  JS.add (x A) (width A) <= JS.add (x R) (width R) /\
  JS.add (x B) (width B) <= JS.add (x R) (width R) /\
  JS.add (x R) (width R) < JS.add (x r) (width r).
Proof. split_and!; by vm_compute. Qed.

End RectangleOperations.

(** ** AxisAlignedBoundingBox: the intersection tests *)

Section BoxIntersections.

Local Open Scope Q_scope.

Import AxisAlignedBoundingBox.

Lemma Qle_bool_false a b : Qle_bool a b = false <-> b < a.
Proof.
  split.
  - intros E. destruct (Qlt_le_dec b a) as [H | H]; [done | ].
    apply Qle_bool_iff in H. congruence.
  - intros H. destruct (Qle_bool a b) eqn:E; [ | done].
    apply Qle_bool_iff in E. lra.
Qed.

(** The sign of a rounded sum is that of the sum. *)
Lemma JS_add_sign a b :
  (0 < a + b -> 0 < JS.add a b) /\
  (a + b < 0 -> JS.add a b < 0) /\
  (a + b == 0 -> JS.add a b == 0).
Proof. apply binary64_sign. Qed.

Lemma JS_sub_pos a b : 0 < JS.sub a b <-> b < a.
Proof.
  destruct (JS_sub_sign a b) as (Hpos & Hneg & Hzero). split; [ | exact Hpos].
  intros H. destruct (Qlt_le_dec b a) as [Hlt | Hle]; [done | ].
  destruct (Qle_lt_or_eq _ _ Hle) as [Hlt | Heq].
  - specialize (Hneg Hlt). lra.
  - specialize (Hzero Heq). lra.
Qed.

Lemma JS_add_neg a b : JS.add a b < 0 <-> a + b < 0.
Proof.
  destruct (JS_add_sign a b) as (Hpos & Hneg & Hzero). split; [ | exact Hneg].
  intros H. destruct (Qlt_le_dec (a + b) 0) as [Hlt | Hle]; [done | ].
  destruct (Qle_lt_or_eq _ _ Hle) as [Hlt | Heq].
  - specialize (Hpos Hlt). lra.
  - symmetry in Heq. specialize (Hzero Heq). lra.
Qed.

(** Along one axis, the product of a normal component with a coordinate
    between [lo] and [hi] stays within the half extent, weighted by the
    absolute value of the component, of its value at the midpoint. *)
Lemma axis_bound n lo hi p :
  lo <= p -> p <= hi ->
  n * ((lo + hi) * (1 # 2)) - (hi - lo) * (1 # 2) * Qabs n <= n * p /\
  n * p <= n * ((lo + hi) * (1 # 2)) + (hi - lo) * (1 # 2) * Qabs n.
Proof.
  intros Hlo Hhi. destruct (Qlt_le_dec n 0) as [Hn | Hn].
  - rewrite (Qabs_neg n) by lra.
    assert (0 <= (- n) * (hi - p)) by (apply Qmult_le_0_compat; lra).
    assert (0 <= (- n) * (p - lo)) by (apply Qmult_le_0_compat; lra).
    split; lra.
  - rewrite (Qabs_pos n) by lra.
    assert (0 <= n * (hi - p)) by (apply Qmult_le_0_compat; lra).
    assert (0 <= n * (p - lo)) by (apply Qmult_le_0_compat; lra).
    split; lra.
Qed.

(** The corner of an axis that makes the product least, and the one that
    makes it greatest. *)
Lemma axis_extreme n lo hi :
  lo <= hi ->
  exists p q,
    (lo <= p /\ p <= hi) /\ (lo <= q /\ q <= hi) /\
    n * p == n * ((lo + hi) * (1 # 2)) - (hi - lo) * (1 # 2) * Qabs n /\
    n * q == n * ((lo + hi) * (1 # 2)) + (hi - lo) * (1 # 2) * Qabs n.
Proof.
  intros Hle. destruct (Qlt_le_dec n 0) as [Hn | Hn].
  - exists hi, lo. rewrite (Qabs_neg n) by lra. split_and!; try lra; ring.
  - exists lo, hi. rewrite (Qabs_pos n) by lra. split_and!; try lra; ring.
Qed.

(** In exact arithmetic the signed distance of every point of a centered
    box is within the extent along the normal of that of the center. *)
Lemma box_distance_bounds box plane p :
  centered box -> contains box p ->
  signedDistance plane (center box) - exactExtent box plane
  <= signedDistance plane p /\
  signedDistance plane p
  <= signedDistance plane (center box) + exactExtent box plane.
Proof.
  destruct box as [[lx ly lz] [hx hy hz] [cx cy cz]],
           plane as [[nx ny nz] d], p as [px py pz].
  unfold centered, contains, signedDistance, exactExtent; simpl.
  intros (Hcx & Hcy & Hcz) ((Hx1 & Hx2) & (Hy1 & Hy2) & (Hz1 & Hz2)).
  destruct (axis_bound nx lx hx px Hx1 Hx2) as [Bx1 Bx2].
  destruct (axis_bound ny ly hy py Hy1 Hy2) as [By1 By2].
  destruct (axis_bound nz lz hz pz Hz1 Hz2) as [Bz1 Bz2].
  assert (Px : nx * cx == nx * ((lx + hx) * (1 # 2))) by (rewrite Hcx; ring).
  assert (Py : ny * cy == ny * ((ly + hy) * (1 # 2))) by (rewrite Hcy; ring).
  assert (Pz : nz * cz == nz * ((lz + hz) * (1 # 2))) by (rewrite Hcz; ring).
  split; lra.
Qed.

(** Both bounds are attained at corners of an ordered box. *)
Lemma box_distance_attained box plane :
  centered box -> ordered box ->
  exists p q,
    contains box p /\ contains box q /\
    signedDistance plane p
    == signedDistance plane (center box) - exactExtent box plane /\
    signedDistance plane q
    == signedDistance plane (center box) + exactExtent box plane.
Proof.
  destruct box as [[lx ly lz] [hx hy hz] [cx cy cz]],
           plane as [[nx ny nz] d].
  unfold centered, ordered, contains, signedDistance, exactExtent; simpl.
  intros (Hcx & Hcy & Hcz) (Hx & Hy & Hz).
  destruct (axis_extreme nx lx hx Hx) as (px & qx & Hpx & Hqx & Epx & Eqx).
  destruct (axis_extreme ny ly hy Hy) as (py & qy & Hpy & Hqy & Epy & Eqy).
  destruct (axis_extreme nz lz hz Hz) as (pz & qz & Hpz & Hqz & Epz & Eqz).
  assert (Px : nx * cx == nx * ((lx + hx) * (1 # 2))) by (rewrite Hcx; ring).
  assert (Py : ny * cy == ny * ((ly + hy) * (1 # 2))) by (rewrite Hcy; ring).
  assert (Pz : nz * cz == nz * ((lz + hz) * (1 # 2))) by (rewrite Hcz; ring).
  exists (Cartesian3.mk px py pz), (Cartesian3.mk qx qy qz). simpl.
  split_and!; try tauto; lra.
Qed.

(** What the answer of [intersectPlane] says of its two constants. *)
Lemma intersectPlane_answer box plane :
  match intersectPlane box plane with
  | INSIDE => extentAlong box plane < centerDistance box plane
  | OUTSIDE => centerDistance box plane + extentAlong box plane < 0
  | INTERSECTING =>
      centerDistance box plane <= extentAlong box plane /\
      0 <= centerDistance box plane + extentAlong box plane
  end.
Proof.
  unfold intersectPlane. cbv zeta.
  destruct (Qle_bool (JS.sub _ _) 0) eqn:E1; cbn [negb].
  - apply Qle_bool_iff in E1.
    assert (H1 : centerDistance box plane <= extentAlong box plane).
    { destruct (Qlt_le_dec (extentAlong box plane) (centerDistance box plane))
        as [Hlt | Hle]; [ | done].
      apply JS_sub_pos in Hlt. lra. }
    destruct (Qle_bool 0 (JS.add _ _)) eqn:E2; cbn [negb].
    + apply Qle_bool_iff in E2. split; [done | ].
      destruct (Qlt_le_dec (centerDistance box plane + extentAlong box plane) 0)
        as [Hlt | Hle]; [ | done].
      apply JS_add_neg in Hlt. lra.
    + apply Qle_bool_false in E2. by apply JS_add_neg.
  - apply Qle_bool_false in E1. by apply JS_sub_pos.
Qed.

(** The two numbers [intersectPlane] compares bound the signed distance of
    every point of a centered box, where they are computed without
    rounding. *)
Lemma intersectPlane_cases box plane p :
  centered box -> exactPlaneTest box plane -> contains box p ->
  match intersectPlane box plane with
  | INSIDE => 0 < signedDistance plane p
  | OUTSIDE => signedDistance plane p < 0
  | INTERSECTING => True
  end.
Proof.
  intros Hc [He Hs] Hp.
  destruct (box_distance_bounds box plane p Hc Hp) as [Hlow Hhigh].
  pose proof (intersectPlane_answer box plane) as H.
  destruct (intersectPlane box plane); [ | done | ]; lra.
Qed.

(** When the answer is INTERSECTING, an ordered, centered box has a corner
    on or behind the plane and a corner on or in front of it. *)
Lemma intersectPlane_straddles box plane :
  centered box -> exactPlaneTest box plane -> ordered box ->
  intersectPlane box plane = INTERSECTING ->
  exists p q,
    contains box p /\ contains box q /\
    signedDistance plane p <= 0 /\ 0 <= signedDistance plane q.
Proof.
  intros Hc [He Hs] Ho E.
  destruct (box_distance_attained box plane Hc Ho)
    as (p & q & Hp & Hq & Ep & Eq).
  pose proof (intersectPlane_answer box plane) as H. rewrite E in H.
  exists p, q. split_and!; [done | done | lra | lra].
Qed.

(** X15.  Where the plane test of a box is computed without rounding and
    the center is the midpoint of the corners, [intersectPlane] is exact:
    INSIDE means every point of the box has a positive signed distance
    from the plane, OUTSIDE that every point has a negative one, and
    INTERSECTING that, the corners being in order, the box has a point on
    or behind the plane and a point on or in front of it. *)
Theorem AxisAlignedBoundingBox_intersectPlane_sides
    (box : AxisAlignedBoundingBox.AxisAlignedBoundingBox)
    (plane : AxisAlignedBoundingBox.Plane) :
  AxisAlignedBoundingBox.centered box ->
  AxisAlignedBoundingBox.exactPlaneTest box plane ->
  (AxisAlignedBoundingBox.intersectPlane box plane = INSIDE ->
   forall p, AxisAlignedBoundingBox.contains box p ->
             (0 < AxisAlignedBoundingBox.signedDistance plane p)%Q) /\
  (AxisAlignedBoundingBox.intersectPlane box plane = OUTSIDE ->
   forall p, AxisAlignedBoundingBox.contains box p ->
             (AxisAlignedBoundingBox.signedDistance plane p < 0)%Q) /\
  (AxisAlignedBoundingBox.intersectPlane box plane = INTERSECTING ->
   AxisAlignedBoundingBox.ordered box ->
   exists p q,
     AxisAlignedBoundingBox.contains box p /\
     AxisAlignedBoundingBox.contains box q /\
     (AxisAlignedBoundingBox.signedDistance plane p <= 0)%Q /\
     (0 <= AxisAlignedBoundingBox.signedDistance plane q)%Q).
Proof.
  intros Hc He. split_and!.
  - intros E p Hp.
    pose proof (intersectPlane_cases box plane p Hc He Hp) as H.
    by rewrite E in H.
  - intros E p Hp.
    pose proof (intersectPlane_cases box plane p Hc He Hp) as H.
    by rewrite E in H.
  - intros E Ho. by apply intersectPlane_straddles.
Qed.

Lemma AxisAlignedBoundingBox_intersectPlane_sides_witness :
  (0 < AxisAlignedBoundingBox.signedDistance
         (AxisAlignedBoundingBox.mkPlane (Cartesian3.mk 1 0 0) 2)
         (Cartesian3.mk (-1) 1 0))%Q.
Proof.
  destruct (AxisAlignedBoundingBox_intersectPlane_sides
              (AxisAlignedBoundingBox.fromCorners
                 (Cartesian3.mk (-1) (-1) (-1)) (Cartesian3.mk 1 1 1) None)
              (AxisAlignedBoundingBox.mkPlane (Cartesian3.mk 1 0 0) 2))
    as (Hinside & _ & _).
  - by vm_compute.
  - by vm_compute.
  - apply Hinside; [by vm_compute | ].
    unfold AxisAlignedBoundingBox.contains; simpl.
    split_and!; unfold Qle; simpl; lia.
Defined.

(** In doubles the test can answer INSIDE of a box one of whose corners is
    behind the plane: the box of half extent (0.6, 1.9, 0.5) about the
    origin and the plane of normal (-0.8, -0.3, -0.8) at distance 1.45. *)
Example AxisAlignedBoundingBox_intersectPlane_rounds :
  let d := JS.binary64 in
  let corner := Cartesian3.mk (d (6 # 10)) (d (19 # 10)) (d (5 # 10)) in
  let box :=
    AxisAlignedBoundingBox.mk
      (Cartesian3.mk (- d (6 # 10)) (- d (19 # 10)) (- d (5 # 10)))
      corner (Cartesian3.mk 0 0 0) in
  let plane :=
    AxisAlignedBoundingBox.mkPlane
      (Cartesian3.mk (- d (8 # 10)) (- d (3 # 10)) (- d (8 # 10)))
      (d (145 # 100)) in
  AxisAlignedBoundingBox.centered box /\
  AxisAlignedBoundingBox.contains box corner /\
  AxisAlignedBoundingBox.intersectPlane box plane = INSIDE /\
  (AxisAlignedBoundingBox.signedDistance plane corner < 0)%Q.
Proof. by vm_compute. Qed.

(** X16.  [intersectAxisAlignedBoundingBox] does not depend on the order
    of the two boxes, and for boxes whose corners are in order it answers
    true exactly when some point lies in both, faces included. *)
Theorem AxisAlignedBoundingBox_boxes_share_a_point
    (box other : AxisAlignedBoundingBox.AxisAlignedBoundingBox) :
  AxisAlignedBoundingBox.intersectAxisAlignedBoundingBox box other
  = AxisAlignedBoundingBox.intersectAxisAlignedBoundingBox other box /\
  (AxisAlignedBoundingBox.ordered box ->
   AxisAlignedBoundingBox.ordered other ->
   (AxisAlignedBoundingBox.intersectAxisAlignedBoundingBox box other = true <->
    exists p, AxisAlignedBoundingBox.contains box p /\
              AxisAlignedBoundingBox.contains other p)).
Proof.
  destruct box as [[lx ly lz] [hx hy hz] c],
           other as [[lx' ly' lz'] [hx' hy' hz'] c'].
  unfold AxisAlignedBoundingBox.intersectAxisAlignedBoundingBox,
    AxisAlignedBoundingBox.ordered, AxisAlignedBoundingBox.contains; simpl.
  split.
  - destruct (Qle_bool lx hx'), (Qle_bool lx' hx), (Qle_bool ly hy'),
      (Qle_bool ly' hy), (Qle_bool lz hz'), (Qle_bool lz' hz); reflexivity.
  - intros (Hx & Hy & Hz) (Hx' & Hy' & Hz').
    rewrite !andb_true_iff, !Qle_bool_iff. split.
    + intros (((((H1 & H2) & H3) & H4) & H5) & H6).
      exists (Cartesian3.mk (Qmax lx lx') (Qmax ly ly') (Qmax lz lz')). simpl.
      destruct (Q.max_spec lx lx') as [[? ->] | [? ->]];
        destruct (Q.max_spec ly ly') as [[? ->] | [? ->]];
        destruct (Q.max_spec lz lz') as [[? ->] | [? ->]];
        split_and!; lra.
    + intros ([px py pz] & ((? & ?) & (? & ?) & (? & ?)) &
                           ((? & ?) & (? & ?) & (? & ?))).
      simpl in *. split_and!; lra.
Qed.

Lemma AxisAlignedBoundingBox_boxes_share_a_point_witness :
  AxisAlignedBoundingBox.intersectAxisAlignedBoundingBox
    (AxisAlignedBoundingBox.fromCorners
       (Cartesian3.mk 0 0 0) (Cartesian3.mk 2 2 2) None)
    (AxisAlignedBoundingBox.fromCorners
       (Cartesian3.mk 2 1 1) (Cartesian3.mk 3 3 3) None) = true.
Proof.
  destruct (AxisAlignedBoundingBox_boxes_share_a_point
              (AxisAlignedBoundingBox.fromCorners
                 (Cartesian3.mk 0 0 0) (Cartesian3.mk 2 2 2) None)
              (AxisAlignedBoundingBox.fromCorners
                 (Cartesian3.mk 2 1 1) (Cartesian3.mk 3 3 3) None))
    as [_ Hiff].
  apply Hiff.
  - unfold AxisAlignedBoundingBox.ordered; simpl.
    split_and!; unfold Qle; simpl; lia.
  - unfold AxisAlignedBoundingBox.ordered; simpl.
    split_and!; unfold Qle; simpl; lia.
  - exists (Cartesian3.mk 2 2 2).
    unfold AxisAlignedBoundingBox.contains; simpl.
    split_and!; unfold Qle; simpl; lia.
Defined.

(** X17.  Where it is computed without rounding and the center is the
    midpoint of the corners, the plane test of the box that [fromPoints]
    builds is a sound test for the points themselves: when it answers
    INSIDE every listed point has a positive signed distance from the
    plane, when it answers OUTSIDE every listed point has a negative one;
    so for points on both sides of the plane the answer is INTERSECTING. *)
Theorem AxisAlignedBoundingBox_fromPoints_plane_test
    (positions : list Cartesian3.Cartesian3)
    (result : option AxisAlignedBoundingBox.AxisAlignedBoundingBox)
    (plane : AxisAlignedBoundingBox.Plane) :
  let box := AxisAlignedBoundingBox.fromPoints (Some positions) result in
  positions <> [] ->
  AxisAlignedBoundingBox.centered box ->
  AxisAlignedBoundingBox.exactPlaneTest box plane ->
  (AxisAlignedBoundingBox.intersectPlane box plane = INSIDE ->
   forall p, p ∈ positions ->
             (0 < AxisAlignedBoundingBox.signedDistance plane p)%Q) /\
  (AxisAlignedBoundingBox.intersectPlane box plane = OUTSIDE ->
   forall p, p ∈ positions ->
             (AxisAlignedBoundingBox.signedDistance plane p < 0)%Q) /\
  (forall p q, p ∈ positions -> q ∈ positions ->
     (AxisAlignedBoundingBox.signedDistance plane p <= 0)%Q ->
     (0 <= AxisAlignedBoundingBox.signedDistance plane q)%Q ->
     AxisAlignedBoundingBox.intersectPlane box plane = INTERSECTING).
Proof.
  intros box Hne Hcentered Hexact. destruct positions as [ | p0 rest]; [done | ].
  destruct (fromPoints_cons p0 rest result) as [Hall _].
  fold box in Hall.
  split_and!.
  - intros E p Hp.
    pose proof (intersectPlane_cases box plane p Hcentered Hexact (Hall p Hp))
      as H.
    by rewrite E in H.
  - intros E p Hp.
    pose proof (intersectPlane_cases box plane p Hcentered Hexact (Hall p Hp))
      as H.
    by rewrite E in H.
  - intros p q Hp Hq Hneg Hpos.
    pose proof (intersectPlane_cases box plane p Hcentered Hexact (Hall p Hp))
      as H1.
    pose proof (intersectPlane_cases box plane q Hcentered Hexact (Hall q Hq))
      as H2.
    destruct (AxisAlignedBoundingBox.intersectPlane box plane);
      [lra | reflexivity | lra].
Qed.

Lemma AxisAlignedBoundingBox_fromPoints_plane_test_witness :
  AxisAlignedBoundingBox.intersectPlane
    (AxisAlignedBoundingBox.fromPoints
       (Some [Cartesian3.mk 2 0 0; Cartesian3.mk (-2) 0 0]%Q) None)
    (AxisAlignedBoundingBox.mkPlane (Cartesian3.mk 1 0 0) 0) = INTERSECTING.
Proof.
  destruct (AxisAlignedBoundingBox_fromPoints_plane_test
              [Cartesian3.mk 2 0 0; Cartesian3.mk (-2) 0 0]%Q None
              (AxisAlignedBoundingBox.mkPlane (Cartesian3.mk 1 0 0) 0))
    as (_ & _ & Hboth).
  - discriminate.
  - by vm_compute.
  - by vm_compute.
  - apply (Hboth (Cartesian3.mk (-2) 0 0)%Q (Cartesian3.mk 2 0 0)%Q).
    + apply elem_of_cons. right. apply elem_of_cons. by left.
    + apply elem_of_cons. by left.
    + unfold AxisAlignedBoundingBox.signedDistance, Qle; simpl. lia.
    + unfold AxisAlignedBoundingBox.signedDistance, Qle; simpl. lia.
Defined.

(** In doubles the test can answer INSIDE of the box of two points one of
    which is on the plane: the points (0.1, 0, 0) and (0.3, 0, 0) and the
    plane [x - 0.1 = 0]. *)
Example AxisAlignedBoundingBox_fromPoints_plane_test_rounds :
  let d := JS.binary64 in
  let p := Cartesian3.mk (d (1 # 10)) 0 0 in
  let q := Cartesian3.mk (d (3 # 10)) 0 0 in
  let plane :=
    AxisAlignedBoundingBox.mkPlane (Cartesian3.mk 1 0 0) (- d (1 # 10)) in
  AxisAlignedBoundingBox.intersectPlane
    (AxisAlignedBoundingBox.fromPoints (Some [p; q]) None) plane = INSIDE /\
  (AxisAlignedBoundingBox.signedDistance plane p == 0)%Q.
Proof. by vm_compute. Qed.

End BoxIntersections.

(** ** Clock: ranges, pauses and the coupled properties *)

Section ClockRanges.

Local Open Scope Q_scope.

Import Clock.

(** [tick] on an animating clock: what [advance] gives, stored. *)
Lemma tick_animated fuel sys this :
  canAnimate this = true -> _shouldAnimate this = true ->
  tick fuel sys this =
  match advance fuel sys this (_currentTime this) with
  | Some (t, raised) =>
      Some (with_lastSystemTime (with_currentTime this t) (getTimestamp sys),
            raised ++ [onTick], t)
  | None => None
  end.
Proof.
  intros Hcan Hshould. unfold tick. rewrite Hcan, Hshould. cbn [andb].
  unfold JulianDate.clone.
  by destruct (advance fuel sys this (_currentTime this)) as [[t raised] | ].
Qed.

(** [advance] in the two step modes that add to the current time. *)
Lemma advance_stepped fuel sys this currentTime :
  _clockStep this <> SYSTEM_CLOCK ->
  advance fuel sys this currentTime =
  let currentTime := currentTime + elapsed sys this in
  match clockRange this with
  | CLAMPED =>
      if JulianDate.lessThan currentTime (startTime this)
      then Some (startTime this, [])
      else if JulianDate.greaterThan currentTime (stopTime this)
      then Some (stopTime this, [onStop])
      else Some (currentTime, [])
  | LOOP_STOP =>
      wrap fuel (startTime this) (stopTime this)
        (if JulianDate.lessThan currentTime (startTime this)
         then startTime this else currentTime) []
  | UNBOUNDED => Some (currentTime, [])
  end.
Proof.
  intros Hstep. unfold advance, elapsed, JulianDate.addSeconds, JulianDate.clone.
  by destruct (_clockStep this).
Qed.

(** What the loop of [tick] returns: the time it was entered with, less
    one period for each stop notification added. *)
Lemma wrap_trace fuel startTime stopTime :
  forall currentTime raised t raised',
    wrap fuel startTime stopTime currentTime raised = Some (t, raised') ->
    exists k,
      raised' = raised ++ replicate k onStop /\
      t == currentTime - inject_Z (Z.of_nat k) * (stopTime - startTime) /\
      t <= stopTime /\
      ((0 < k)%nat -> startTime < t) /\
      (k = 0%nat -> t = currentTime).
Proof.
  induction fuel as [ | fuel IH]; intros currentTime raised t raised' Hw.
  - destruct (greaterThan_spec currentTime stopTime) as [[E Hc] | [E Hc]].
    + by rewrite wrap_out_of_fuel in Hw.
    + rewrite wrap_done in Hw by done. injection Hw as <- <-.
      exists 0%nat. rewrite app_nil_r.
      change (inject_Z (Z.of_nat 0)) with 0.
      split_and!; [done | lra | done | lia | done].
  - destruct (greaterThan_spec currentTime stopTime) as [[E Hc] | [E Hc]].
    + rewrite wrap_step in Hw by done.
      destruct (IH _ _ _ _ Hw) as (k & Hraised & Ht & Hle & Hpos & Hzero).
      exists (S k).
      unfold JulianDate.addSeconds, JulianDate.secondsDifference in *.
      split_and!.
      * rewrite Hraised, <- app_assoc. reflexivity.
      * rewrite Nat2Z.inj_succ. unfold Z.succ. rewrite inject_Z_plus.
        change (inject_Z 1) with 1. lra.
      * exact Hle.
      * intros _. destruct k as [ | k].
        -- rewrite (Hzero eq_refl). lra.
        -- apply Hpos. lia.
      * discriminate.
    + rewrite wrap_done in Hw by done. injection Hw as <- <-.
      exists 0%nat. rewrite app_nil_r.
      change (inject_Z (Z.of_nat 0)) with 0.
      split_and!; [done | lra | done | lia | done].
Qed.

Lemma stops_replicate k : stops (replicate k onStop ++ [onTick]) = k.
Proof.
  unfold stops. induction k as [ | k IH]; [done | ]. simpl. by rewrite IH.
Qed.

(** X19.  With startTime not after stopTime, a [tick] of an animating
    clock in range mode CLAMPED or LOOP_STOP and a step mode other than
    SYSTEM_CLOCK never leaves the current time outside the interval from
    startTime to stopTime, wherever it was before; and the call returns
    when the range is CLAMPED or startTime is before stopTime. *)
Theorem Clock_tick_stays_in_range (sys : System) (this : Clock) :
  startTime this <= stopTime this ->
  clockRange this <> UNBOUNDED ->
  _clockStep this <> SYSTEM_CLOCK ->
  canAnimate this = true ->
  _shouldAnimate this = true ->
  (forall fuel this' raised t,
      tick fuel sys this = Some (this', raised, t) ->
      _currentTime this' = t /\
      startTime this <= t /\ t <= stopTime this) /\
  (clockRange this = CLAMPED \/ startTime this < stopTime this ->
   exists fuel result, tick fuel sys this = Some result).
Proof.
  intros Hle Hrange Hstep Hcan Hshould. split.
  - intros fuel this' raised t. rewrite tick_animated by done.
    rewrite advance_stepped by done. cbn zeta.
    set (stepped := _currentTime this + elapsed sys this).
    destruct (clockRange this); [done | | ].
    + destruct (Qlt_le_dec stepped (startTime this)) as [H1 | H1].
      * rewrite lessThan_true by done. intros [= <- <- <-].
        split_and!; [done | lra | lra].
      * rewrite lessThan_false by done.
        destruct (greaterThan_spec stepped (stopTime this)) as [[E H2] | [E H2]];
          rewrite E; intros [= <- <- <-]; split_and!; [done | lra | lra | done | lra | lra].
    + destruct (wrap fuel _ _ _ _) as [[t0 raised0] | ] eqn:Hw; [ | done].
      intros [= <- <- <-]. split; [done | ].
      destruct (wrap_trace _ _ _ _ _ _ _ Hw) as (k & _ & _ & Hstop & Hpos & Hzero).
      split; [ | exact Hstop].
      destruct k as [ | k].
      * rewrite (Hzero eq_refl).
        destruct (Qlt_le_dec stepped (startTime this)) as [H1 | H1].
        -- rewrite lessThan_true by done. lra.
        -- rewrite lessThan_false by done. lra.
      * apply Qlt_le_weak, Hpos. lia.
  - intros [Hclamped | Hlt].
    + exists 0%nat. rewrite tick_animated by done.
      rewrite advance_stepped by done. cbn zeta. rewrite Hclamped.
      destruct (JulianDate.lessThan _ _); [by eexists | ].
      destruct (JulianDate.greaterThan _ _); by eexists.
    + by apply tick_terminates.
Qed.

Lemma Clock_tick_stays_in_range_witness :
  exists this' raised t,
    tick 3 (mkSystem 0 0) (mk 0 10 LOOP_STOP true 50 (-75) TICK_DEPENDENT true 0)
    = Some (this', raised, t) /\
    0 <= t /\ t <= 10.
Proof.
  destruct (Clock_tick_stays_in_range (mkSystem 0 0)
              (mk 0 10 LOOP_STOP true 50 (-75) TICK_DEPENDENT true 0))
    as [Hrange _]; try done.
  eexists _, _, _. split; [reflexivity | ].
  destruct (Hrange 3%nat _ _ _ eq_refl) as (_ & Hlo & Hhi).
  split; [exact Hlo | exact Hhi].
Defined.

(** X20.  Under LOOP_STOP with startTime before stopTime, a [tick] of an
    animating clock in a step mode other than SYSTEM_CLOCK returns; the
    time it returns is the stepped time, raised to startTime if it was
    before it, less one whole period for each stop notification, it is not
    after stopTime, and it is after startTime whenever onStop was raised.
    The tick notification comes last. *)
Theorem Clock_tick_loop_stop_periodic (sys : System) (this : Clock) :
  startTime this < stopTime this ->
  clockRange this = LOOP_STOP ->
  _clockStep this <> SYSTEM_CLOCK ->
  canAnimate this = true ->
  _shouldAnimate this = true ->
  exists fuel k this' t,
    tick fuel sys this = Some (this', replicate k onStop ++ [onTick], t) /\
    stops (replicate k onStop ++ [onTick]) = k /\
    t == Qmax (startTime this) (_currentTime this + elapsed sys this)
         - inject_Z (Z.of_nat k) * (stopTime this - startTime this) /\
    t <= stopTime this /\
    ((0 < k)%nat -> startTime this < t).
Proof.
  intros Hlt Hrange Hstep Hcan Hshould.
  destruct (tick_terminates sys this Hlt) as (fuel & [[this' raised] t] & Htick).
  exists fuel. revert Htick. rewrite tick_animated by done.
  rewrite advance_stepped by done. cbn zeta. rewrite Hrange.
  set (stepped := _currentTime this + elapsed sys this).
  destruct (wrap fuel _ _ _ _) as [[t0 raised0] | ] eqn:Hw; [ | done].
  intros [= <- <- <-].
  destruct (wrap_trace _ _ _ _ _ _ _ Hw) as (k & Hraised & Ht & Hstop & Hpos & _).
  simpl in Hraised. subst raised0.
  exists k. eexists _, _. split; [reflexivity | ].
  split; [apply stops_replicate | ].
  split_and!; [ | exact Hstop | exact Hpos].
  rewrite Ht.
  destruct (Qlt_le_dec stepped (startTime this)) as [H1 | H1].
  - rewrite lessThan_true by done.
    rewrite (Q.max_l (startTime this) stepped) by lra. reflexivity.
  - rewrite lessThan_false by done.
    rewrite (Q.max_r (startTime this) stepped) by lra. reflexivity.
Qed.

Lemma Clock_tick_loop_stop_periodic_witness :
  exists fuel k this' t,
    tick fuel (mkSystem 0 0) (mk 0 10 LOOP_STOP true 0 25 TICK_DEPENDENT true 0)
    = Some (this', replicate k onStop ++ [onTick], t) /\
    t <= 10.
Proof.
  destruct (Clock_tick_loop_stop_periodic (mkSystem 0 0)
              (mk 0 10 LOOP_STOP true 0 25 TICK_DEPENDENT true 0))
    as (fuel & k & this' & t & Htick & _ & _ & Hstop & _); try done.
  exists fuel, k, this', t. split; [exact Htick | exact Hstop].
Defined.

(** X21.  A clock that is not animating, because it cannot or because it
    should not, keeps its time through a [tick] in every step and range
    mode, raises onTick and nothing else, and still takes the new system
    time; so when a paused SYSTEM_CLOCK_MULTIPLIER clock is then set
    animating, its next tick counts the system time since the paused tick,
    not since the tick before the pause. *)
Theorem Clock_pause_is_not_counted (sys1 sys2 : System) (this : Clock)
    (fuel : nat) :
  canAnimate this = false \/ _shouldAnimate this = false ->
  exists paused,
    tick fuel sys1 this = Some (paused, [onTick], _currentTime this) /\
    paused
    = with_lastSystemTime (with_currentTime this (_currentTime this))
        (getTimestamp sys1) /\
    (canAnimate this = true ->
     _clockStep this = SYSTEM_CLOCK_MULTIPLIER ->
     clockRange this = UNBOUNDED ->
     exists resumed t,
       tick fuel sys2 (set_shouldAnimate paused true)
       = Some (resumed, [onTick], t) /\
       _lastSystemTime resumed = getTimestamp sys2 /\
       t == _currentTime this
            + JS.mul (_multiplier this)
                (JS.div (JS.sub (getTimestamp sys2) (getTimestamp sys1)) 1000)).
Proof.
  intros Hpaused.
  assert (Hgate : canAnimate this && _shouldAnimate this = false).
  { destruct Hpaused as [-> | ->]; [done | apply andb_false_r]. }
  eexists. split.
  { unfold tick. rewrite Hgate. cbn [mbind option_bind].
    unfold JulianDate.clone. reflexivity. }
  split; [reflexivity | ].
  intros Hcan Hstep Hrange.
  assert (Hshould : _shouldAnimate this = false).
  { destruct Hpaused as [H | H]; [congruence | exact H]. }
  unfold set_shouldAnimate.
  cbn [_shouldAnimate _clockStep with_lastSystemTime with_currentTime].
  rewrite Hshould, Hstep. cbn [Bool.eqb isSystemClock].
  eexists _, _. split_and!.
  - rewrite tick_animated by (simpl; done).
    rewrite advance_stepped by (simpl; congruence).
    cbn zeta. simpl. rewrite Hrange. reflexivity.
  - reflexivity.
  - unfold elapsed. simpl. rewrite Hstep. reflexivity.
Qed.

Lemma Clock_pause_is_not_counted_witness :
  (exists paused,
     tick 0 (mkSystem 5000 0)
       (mk 0 10 LOOP_STOP false 3 2 TICK_DEPENDENT true 1000)
     = Some (paused, [onTick], 3) /\
     _lastSystemTime paused = 5000) /\
  (exists paused resumed t,
     tick 0 (mkSystem 5000 0)
       (mk 0 10 UNBOUNDED true 3 2 SYSTEM_CLOCK_MULTIPLIER false 1000)
     = Some (paused, [onTick], 3) /\
     tick 0 (mkSystem 6000 0) (set_shouldAnimate paused true)
     = Some (resumed, [onTick], t) /\
     t == 5).
Proof.
  split.
  - destruct (Clock_pause_is_not_counted (mkSystem 5000 0) (mkSystem 6000 0)
                (mk 0 10 LOOP_STOP false 3 2 TICK_DEPENDENT true 1000) 0)
      as (paused & Hpaused & Hfields & _); [by left | ].
    exists paused. split; [exact Hpaused | by rewrite Hfields].
  - destruct (Clock_pause_is_not_counted (mkSystem 5000 0) (mkSystem 6000 0)
                (mk 0 10 UNBOUNDED true 3 2 SYSTEM_CLOCK_MULTIPLIER false 1000)
                0)
      as (paused & Hpaused & _ & Hresume); [by right | ].
    destruct (Hresume eq_refl eq_refl eq_refl) as (resumed & t & Htick & _ & Ht).
    exists paused, resumed, t.
    split_and!; [exact Hpaused | exact Htick | ].
    rewrite Ht. by vm_compute.
Defined.

(** Two ticks do not add up to one: the seconds a tick adds are rounded,
    and a tick after 100 ms followed by one after 200 ms more leaves a
    clock of multiplier 1 at another time than one tick after 300 ms. *)
Example Clock_system_multiplier_ticks_round :
  let this := mk 0 10 UNBOUNDED true 0 1 SYSTEM_CLOCK_MULTIPLIER true 0 in
  exists this1 t1 this2 t2 this12 t12,
    tick 0 (mkSystem 100 0) this = Some (this1, [onTick], t1) /\
    tick 0 (mkSystem 300 0) this1 = Some (this2, [onTick], t2) /\
    tick 0 (mkSystem 300 0) this = Some (this12, [onTick], t12) /\
    t12 < t2.
Proof.
  eexists _, _, _, _, _, _. split_and!; [reflexivity .. | by vm_compute].
Qed.

End ClockRanges.

Section ClockConstruction.

Local Open Scope Q_scope.

Import Clock.

(** Each setter keeps the coupling, and the step-mode setter makes it. *)
Lemma set_currentTime_coherent this value :
  coherent this -> coherent (set_currentTime this value).
Proof.
  destruct this as [start stop range can current multiplier step should last].
  unfold coherent, set_currentTime; simpl. intros H.
  destruct (JulianDate.equals current value); [exact H | ].
  by destruct step.
Qed.

Lemma set_multiplier_coherent this value :
  coherent this -> coherent (set_multiplier this value).
Proof.
  destruct this as [start stop range can current multiplier step should last].
  unfold coherent, set_multiplier; simpl. intros H.
  destruct (Qeq_bool multiplier value); [exact H | ].
  by destruct step.
Qed.

Lemma set_shouldAnimate_coherent this value :
  coherent this -> coherent (set_shouldAnimate this value).
Proof.
  destruct this as [start stop range can current multiplier step should last].
  unfold coherent, set_shouldAnimate; simpl. intros H.
  destruct (Bool.eqb should value); [exact H | ].
  by destruct step.
Qed.

Lemma set_clockStep_coherent sys this value :
  coherent (set_clockStep sys this value).
Proof.
  destruct this as [start stop range can current multiplier step should last].
  unfold coherent, set_clockStep.
  destruct value; simpl; first [done | intros _; split; reflexivity].
Qed.

(** X23.  A clock in step mode SYSTEM_CLOCK has multiplier 1 and is
    animating: every clock the constructor returns is so, the four setters
    and [tick] keep it so, and such a clock that can animate takes the
    system's current date at every tick, whatever its range, raising
    onTick only. *)
Theorem Clock_system_clock_coupling (sys : System) :
  (forall options this, new sys options = Some this -> coherent this) /\
  (forall this,
      coherent this ->
      (forall value, coherent (set_currentTime this value)) /\
      (forall value, coherent (set_multiplier this value)) /\
      (forall value, coherent (set_shouldAnimate this value)) /\
      (forall value, coherent (set_clockStep sys this value)) /\
      (forall fuel this' raised t,
          tick fuel sys this = Some (this', raised, t) -> coherent this') /\
      (_clockStep this = SYSTEM_CLOCK -> canAnimate this = true ->
       forall fuel,
         exists this',
           tick fuel sys this = Some (this', [onTick], now sys) /\
           _currentTime this' = now sys)).
Proof.
  split.
  - intros options this. unfold new.
    destruct (JulianDate.greaterThan _ _); [done | ].
    intros [= <-]. apply set_clockStep_coherent.
  - intros this Hco. split_and!.
    + intros value. by apply set_currentTime_coherent.
    + intros value. by apply set_multiplier_coherent.
    + intros value. by apply set_shouldAnimate_coherent.
    + intros value. apply set_clockStep_coherent.
    + intros fuel this' raised t. unfold tick.
      destruct (if canAnimate this && _shouldAnimate this then _ else _)
        as [[t0 raised0] | ]; [ | done].
      simpl. intros [= <- <- <-]. exact Hco.
    + intros Hstep Hcan fuel. destruct (Hco Hstep) as [_ Hshould].
      eexists. rewrite tick_animated by done.
      unfold advance. rewrite Hstep. split; reflexivity.
Qed.

Lemma Clock_system_clock_coupling_witness :
  coherent (set_multiplier (mk 0 10 CLAMPED true 0 1 SYSTEM_CLOCK true 0) 3) /\
  exists this',
    tick 0 (mkSystem 0 77) (mk 0 10 CLAMPED true 0 1 SYSTEM_CLOCK true 0)
    = Some (this', [onTick], 77).
Proof.
  destruct (Clock_system_clock_coupling (mkSystem 0 77)) as [_ Hkeep].
  destruct (Hkeep (mk 0 10 CLAMPED true 0 1 SYSTEM_CLOCK true 0))
    as (_ & Hmultiplier & _ & _ & _ & Htick).
  - intros _. split; reflexivity.
  - split; [apply Hmultiplier | ].
    destruct (Htick eq_refl eq_refl 0%nat) as (this' & Hthis' & _).
    exists this'. exact Hthis'.
Defined.

(** X24.  The constructor of a validated build throws exactly when a
    stopTime is given that is before the startTime given or, no startTime
    being given, before the currentTime given; without a stopTime, or with
    a stopTime alone, it never throws.  A clock it returns has its
    startTime not after its stopTime, and one day between them when no
    stopTime was given; the current time is not checked against the
    two. *)
Theorem Clock_new_throws_iff (sys : System) (options : ClockOptions) :
  (new sys options = None <->
   match opt_stopTime options, opt_startTime options, opt_currentTime options
   with
   | Some stopTime, Some startTime, _ => stopTime < startTime
   | Some stopTime, None, Some currentTime => stopTime < currentTime
   | _, _, _ => False
   end) /\
  (forall this,
      new sys options = Some this ->
      startTime this <= stopTime this /\
      (opt_stopTime options = None ->
       stopTime this == startTime this + 86400) /\
      (forall currentTime,
          opt_currentTime options = Some currentTime ->
          default SYSTEM_CLOCK_MULTIPLIER (opt_clockStep options)
            <> SYSTEM_CLOCK ->
          _currentTime this = currentTime)).
Proof.
  unfold new, JulianDate.clone, JulianDate.addDays.
  destruct options as [start stop current multiplier step range can should].
  cbn [opt_startTime opt_stopTime opt_currentTime opt_multiplier opt_clockStep
       opt_clockRange opt_canAnimate opt_shouldAnimate].
  split.
  - destruct stop as [stop | ], start as [start | ], current as [current | ];
      match goal with
      | |- context [JulianDate.greaterThan ?a ?b] =>
          destruct (greaterThan_spec a b) as [[E H] | [E H]]; rewrite E
      end;
      split; first [done | lra | intros _; lra | intros ?; lra | idtac].
  - intros this. cbv zeta.
    match goal with
    | |- context [JulianDate.greaterThan ?a ?b] =>
        destruct (greaterThan_spec a b) as [[E H] | [E H]]; rewrite E
    end; [done | ].
    unfold set_currentTime. cbn [_currentTime JulianDate.equals].
    rewrite Qeq_bool_refl.
    unfold set_multiplier. cbn [_multiplier]. rewrite Qeq_bool_refl.
    unfold set_shouldAnimate. cbn [_shouldAnimate]. rewrite Bool.eqb_reflx.
    intros [= <-]. unfold set_clockStep. split_and!.
    + destruct (default SYSTEM_CLOCK_MULTIPLIER step);
        cbn [isSystemClock startTime stopTime with_clockStep with_currentTime
             with_shouldAnimate with_multiplier];
        exact H.
    + intros ->.
      destruct (default SYSTEM_CLOCK_MULTIPLIER step);
        cbn [isSystemClock startTime stopTime with_clockStep with_currentTime
             with_shouldAnimate with_multiplier];
        ring.
    + intros currentTime [= ->] Hstep.
      by destruct (default SYSTEM_CLOCK_MULTIPLIER step).
Qed.

Lemma Clock_new_throws_iff_witness :
  exists this,
    new (mkSystem 0 0)
      (mkOptions None (Some 10) (Some 4) None None None None None) = Some this /\
    startTime this <= stopTime this /\
    _currentTime this = 4.
Proof.
  eexists. split; [reflexivity | ].
  destruct (Clock_new_throws_iff (mkSystem 0 0)
              (mkOptions None (Some 10) (Some 4) None None None None None))
    as [_ Hnew].
  destruct (Hnew _ eq_refl) as (Hle & _ & Hcurrent).
  split; [exact Hle | ].
  apply Hcurrent; [reflexivity | discriminate].
Defined.

End ClockConstruction.

(** ** AxisAlignedBoundingBox: copies *)

Section BoxCopies.

Local Open Scope Q_scope.

Import AxisAlignedBoundingBox.

Lemma Cartesian3_equals_iff a b :
  Cartesian3.equals a b = true <->
  Cartesian3.x a == Cartesian3.x b /\ Cartesian3.y a == Cartesian3.y b /\
  Cartesian3.z a == Cartesian3.z b.
Proof.
  unfold Cartesian3.equals. rewrite !andb_true_iff, !Qeq_bool_iff. tauto.
Qed.

(** X18.  [clone] returns a box that [equals] accepts as the original,
    with or without a result to write into, and of nothing it returns
    nothing; two boxes that [equals] accepts get the same answer from the
    plane test and from the box test, on either side. *)
Theorem AxisAlignedBoundingBox_clone_answers_alike
    (box : AxisAlignedBoundingBox) (result : option AxisAlignedBoundingBox) :
  clone None result = None /\
  (exists copy,
      clone (Some box) result = Some copy /\
      equals (Some copy) (Some box) = true) /\
  (forall other plane third,
      equals (Some box) (Some other) = true ->
      intersectPlane box plane = intersectPlane other plane /\
      intersectAxisAlignedBoundingBox box third
      = intersectAxisAlignedBoundingBox other third /\
      intersectAxisAlignedBoundingBox third box
      = intersectAxisAlignedBoundingBox third other).
Proof.
  split_and!.
  - reflexivity.
  - destruct box as [[lx ly lz] [hx hy hz] [cx cy cz]].
    destruct result as [r | ]; eexists; (split; [reflexivity | ]);
      unfold equals, Cartesian3.equals; simpl;
      by rewrite !Qeq_bool_refl.
  - intros other plane third. unfold equals.
    rewrite !andb_true_iff, !Cartesian3_equals_iff.
    destruct box as [[lx ly lz] [hx hy hz] [cx cy cz]],
             other as [[lx' ly' lz'] [hx' hy' hz'] [cx' cy' cz']].
    simpl.
    intros (((Hcx & Hcy & Hcz) & (Hlx & Hly & Hlz)) & (Hhx & Hhy & Hhz)).
    unfold intersectPlane, extentAlong, centerDistance,
      intersectAxisAlignedBoundingBox, Cartesian3.dot;
      cbn -[JS.add JS.sub JS.mul].
    rewrite Hcx, Hcy, Hcz, Hlx, Hly, Hlz, Hhx, Hhy, Hhz.
    split_and!; [ | reflexivity | reflexivity].
    destruct (Qle_bool _ 0); [ | reflexivity]. cbn [negb].
    rewrite Hcx, Hcy, Hcz, Hlx, Hly, Hlz, Hhx, Hhy, Hhz. reflexivity.
Qed.

Lemma AxisAlignedBoundingBox_clone_answers_alike_witness :
  intersectPlane
    (mk (Cartesian3.mk 0 0 0) (Cartesian3.mk 2 2 2) (Cartesian3.mk 1 1 1))
    (mkPlane (Cartesian3.mk 0 1 0) (-1))
  = intersectPlane
      (mk (Cartesian3.mk 0 0 0) (Cartesian3.mk (4 # 2) 2 2)
          (Cartesian3.mk 1 (3 # 3) 1))
      (mkPlane (Cartesian3.mk 0 1 0) (-1)).
Proof.
  destruct (AxisAlignedBoundingBox_clone_answers_alike
              (mk (Cartesian3.mk 0 0 0) (Cartesian3.mk 2 2 2)
                  (Cartesian3.mk 1 1 1)) None)
    as (_ & _ & Halike).
  destruct (Halike
              (mk (Cartesian3.mk 0 0 0) (Cartesian3.mk (4 # 2) 2 2)
                  (Cartesian3.mk 1 (3 # 3) 1))
              (mkPlane (Cartesian3.mk 0 1 0) (-1))
              (mk (Cartesian3.mk 0 0 0) (Cartesian3.mk 2 2 2)
                  (Cartesian3.mk 1 1 1)))
    as (Hplane & _ & _); [reflexivity | exact Hplane].
Defined.

End BoxCopies.

(** ** AssociativeArray: the collection as a map *)

Section AssociativeArrayLaws.

Import AssociativeArray.

Variable defined : value -> bool.
Variable inherited : string -> option value.
Hypothesis defined_undefined : defined VUndefined = false.

Local Abbreviation property := (property inherited).
Local Abbreviation get := (get inherited).
Local Abbreviation contains := (contains defined inherited).
Local Abbreviation remove := (remove defined inherited).
Local Abbreviation set := (set defined inherited).
Local Abbreviation wellFormed := (wellFormed defined).

(** [===] holds of equal values only. *)
Lemma strictEquals_eq a b : strictEquals a b = true -> a = b.
Proof.
  destruct a, b; simpl; try done; by intros ?%bool_decide_eq_true.
Qed.

Lemma strictEquals_refl a : a <> VNaN -> strictEquals a a = true.
Proof.
  intros Ha. rewrite strictEquals_decide by done. by apply bool_decide_eq_true.
Qed.

(** A read of another key sees neither an assignment nor a deletion. *)
Lemma property_insert_ne hash key key' v :
  key <> key' -> property (<[key := v]> hash) key' = property hash key'.
Proof.
  intros Hne. unfold AssociativeArray.property.
  by rewrite lookup_insert_ne.
Qed.

Lemma property_delete_ne hash key key' :
  key <> key' -> property (delete key hash) key' = property hash key'.
Proof.
  intros Hne. unfold AssociativeArray.property.
  by rewrite lookup_delete_ne.
Qed.

Lemma get_set_eq this key v :
  key <> "__proto__" -> get (set this key v) key = v.
Proof.
  intros Hkey. unfold AssociativeArray.get, AssociativeArray.set.
  destruct (strictEquals v (property (_hash this) key)) eqn:E; simpl.
  - symmetry. by apply strictEquals_eq.
  - rewrite assign_own by done.
    unfold AssociativeArray.property. by rewrite lookup_insert_eq.
Qed.

Lemma get_remove_ne this key key' :
  key <> key' -> get (fst (remove this key)) key' = get this key'.
Proof.
  intros Hne. unfold AssociativeArray.get, AssociativeArray.remove.
  destruct (defined (property (_hash this) key)); simpl; [ | done].
  by apply property_delete_ne.
Qed.

Lemma get_set_ne this key key' v :
  key <> "__proto__" -> key <> key' ->
  get (set this key v) key' = get this key'.
Proof.
  intros Hkey Hne. unfold AssociativeArray.set.
  destruct (negb (strictEquals v (property (_hash this) key))); [ | done].
  unfold AssociativeArray.get at 1; simpl.
  rewrite assign_own by done.
  rewrite property_insert_ne by done. by apply get_remove_ne.
Qed.

(** X25.  Read through [get], the collection is a map.  Under every key
    but [__proto__], whose assignment runs the setter the hash inherits, a
    key that was set reads as the value given, the assignment leaves every
    other key as it was, and setting the key again to the value it holds,
    NaN apart, changes nothing.  Under every key a removal leaves every
    other key as it was, [remove] returns what [contains] answers, and a
    key that names no inherited property is not contained once removed. *)
Theorem AssociativeArray_reads_as_a_map (this : AssociativeArray)
    (key : string) (v : value) :
  (key <> "__proto__" ->
   get (set this key v) key = v /\
   contains (set this key v) key = defined v /\
   (forall key', key <> key' -> get (set this key v) key' = get this key') /\
   (v <> VNaN -> set (set this key v) key v = set this key v)) /\
  (forall key', key <> key' ->
     get (fst (remove this key)) key' = get this key') /\
  snd (remove this key) = contains this key /\
  (inherited key = None ->
   contains (fst (remove this key)) key = false /\
   (contains this key = true -> get (fst (remove this key)) key = VUndefined)).
Proof.
  split_and!.
  - intros Hproto. split_and!.
    + by apply get_set_eq.
    + unfold AssociativeArray.contains.
      change (property (_hash (set this key v)) key)
        with (get (set this key v) key).
      by rewrite get_set_eq.
    + intros key' Hne. by apply get_set_ne.
    + intros Hnan. unfold AssociativeArray.set at 1.
      change (property (_hash (set this key v)) key)
        with (get (set this key v) key).
      rewrite get_set_eq by done. by rewrite strictEquals_refl.
  - intros key' Hne. by apply get_remove_ne.
  - unfold AssociativeArray.remove, AssociativeArray.contains.
    by destruct (defined (property (_hash this) key)).
  - intros Hkey.
    assert (Hget : contains this key = true ->
                   get (fst (remove this key)) key = VUndefined).
    { unfold AssociativeArray.contains, AssociativeArray.remove,
        AssociativeArray.get.
      intros E. rewrite E. simpl. unfold AssociativeArray.property.
      by rewrite lookup_delete_eq, Hkey. }
    split; [ | exact Hget].
    destruct (contains this key) eqn:E.
    + change (contains (fst (remove this key)) key)
        with (defined (get (fst (remove this key)) key)).
      rewrite Hget by done. exact defined_undefined.
    + unfold AssociativeArray.contains, AssociativeArray.remove in *.
      rewrite E. simpl. exact E.
Qed.

(** X26.  The hole the map leaves: a key that the hash does not own but
    that names an inherited property whose value passes [defined] and is
    not among the values.  [remove] of such a key answers true, leaves the
    hash as it was and the key contained, and takes the last value out of
    the values array, so that the array is one shorter than the keys
    set. *)
Theorem AssociativeArray_inherited_key_drops_last (this : AssociativeArray)
    (key : string) (w last : value) (front : list value) :
  _hash this !! key = None ->
  inherited key = Some w ->
  defined w = true ->
  firstIndex (_array this) w = None ->
  values this = front ++ [last] ->
  remove this key = ({| _array := front; _hash := _hash this |}, true) /\
  contains (fst (remove this key)) key = true /\
  (synchronized this ->
   S (length (fst (remove this key))) = size (_hash (fst (remove this key)))).
Proof.
  intros Hown Hkey Hdef Hnot Hvalues. unfold values in Hvalues.
  assert (Hprop : property (_hash this) key = w).
  { unfold AssociativeArray.property. by rewrite Hown, Hkey. }
  assert (Hremove :
            remove this key = ({| _array := front; _hash := _hash this |}, true)).
  { unfold AssociativeArray.remove. rewrite Hprop, Hdef.
    unfold indexOf. rewrite Hnot. unfold splice1.
    rewrite Hvalues, length_app. simpl.
    replace (Z.to_nat (Z.max (Z.of_nat (List.length front + 1) + -1) 0))
      with (List.length front) by lia.
    rewrite delete_middle, app_nil_r. by rewrite delete_id. }
  split_and!.
  - exact Hremove.
  - rewrite Hremove. unfold AssociativeArray.contains; simpl.
    by rewrite Hprop.
  - intros Hsync. rewrite Hremove. unfold AssociativeArray.length; simpl.
    unfold synchronized in Hsync. apply Permutation_length in Hsync.
    rewrite Hvalues, length_app, length_fmap, length_map_to_list in Hsync.
    simpl in Hsync. lia.
Qed.

(** X27.  On a collection whose values are those of its hash,
    [removeAll] gives the collection the constructor gives, so that
    afterwards the length is zero and no key that names no inherited
    property is contained; a second [removeAll] changes nothing. *)
Theorem AssociativeArray_removeAll_is_new (this : AssociativeArray) :
  synchronized this ->
  removeAll this = new /\
  removeAll (removeAll this) = removeAll this /\
  length (removeAll this) = 0%nat /\
  (forall key, inherited key = None ->
     contains (removeAll this) key = false /\
     get (removeAll this) key = VUndefined).
Proof.
  intros Hsync.
  assert (Hnew : removeAll this = new).
  { unfold removeAll. case_decide as Hlen; [done | ].
    destruct this as [array hash]. unfold synchronized in Hsync.
    simpl in *. destruct array as [ | v array]; [ | simpl in Hlen; lia].
    symmetry in Hsync. apply Permutation_nil_r in Hsync.
    apply fmap_nil_inv in Hsync. apply map_to_list_empty_iff in Hsync.
    by subst hash. }
  rewrite Hnew. split_and!; try done.
  intros key Hkey.
  unfold AssociativeArray.contains, AssociativeArray.get,
    AssociativeArray.property; simpl.
  rewrite lookup_empty, Hkey. simpl. by rewrite defined_undefined.
Qed.

(** X28.  On a collection in which every stored value passes [defined]
    and is not NaN, and whose values are those of its hash, the length
    counts the keys: [set] of such a value under a key that names no
    inherited property adds one when the key was not contained and leaves
    the length otherwise; [remove] takes one away exactly when it answers
    true. *)
Theorem AssociativeArray_length_counts_keys (this : AssociativeArray)
    (key : string) (v : value) :
  wellFormed this ->
  inherited key = None ->
  (defined v = true -> v <> VNaN ->
   length (set this key v)
   = if contains this key then length this else S (length this)) /\
  length this
  = (if snd (remove this key) then S (length (fst (remove this key)))
     else length (fst (remove this key))).
Proof.
  intros Hwf Hkey.
  destruct (wellFormed_consistent defined inherited defined_undefined this Hwf)
    as (Hlen & Hdom & _ & _).
  destruct (remove_wellFormed defined inherited defined_undefined this key
              Hkey Hwf) as [Hwf' Hhash'].
  destruct (wellFormed_consistent defined inherited defined_undefined _ Hwf')
    as (Hlen' & _ & _ & _).
  unfold AssociativeArray.length, values in *.
  assert (Hcontains : contains this key = bool_decide (is_Some (_hash this !! key))).
  { destruct (contains this key) eqn:E.
    - symmetry. apply bool_decide_eq_true.
      apply elem_of_dom. by apply Hdom.
    - symmetry. apply bool_decide_eq_false. intros Hin.
      apply elem_of_dom, Hdom in Hin; [ | done]. congruence. }
  assert (Hflag : snd (remove this key) = contains this key).
  { unfold AssociativeArray.remove, AssociativeArray.contains.
    by destruct (defined (property (_hash this) key)). }
  split.
  - intros Hdef Hnan.
    pose proof (set_wellFormed defined inherited defined_undefined this key v
                  Hkey Hdef Hnan Hwf) as Hwf''.
    destruct (wellFormed_consistent defined inherited defined_undefined _ Hwf'')
      as (Hlen'' & _ & _ & _).
    unfold values in Hlen''. rewrite Hlen'', Hlen, Hcontains.
    unfold AssociativeArray.set.
    destruct (strictEquals v (property (_hash this) key)) eqn:E; simpl.
    + apply strictEquals_eq in E.
      rewrite property_ordinary in E by done.
      destruct (_hash this !! key) as [old | ] eqn:Hlook.
      * by rewrite bool_decide_eq_true_2.
      * simpl in E. subst v. congruence.
    + rewrite assign_ordinary by done.
      rewrite map_size_insert, Hhash', lookup_delete_eq, map_size_delete.
      destruct (_hash this !! key) as [old | ] eqn:Hlook.
      * rewrite bool_decide_eq_true_2 by done. simpl.
        assert (size (_hash this) <> 0%nat)
          by (apply (map_size_ne_0_lookup_2 _ key); by rewrite Hlook).
        lia.
      * rewrite bool_decide_eq_false_2 by (by intros [? ?]). done.
  - rewrite Hflag, Hlen, Hlen', Hhash', Hcontains, map_size_delete.
    destruct (_hash this !! key) as [old | ] eqn:Hlook.
    + rewrite bool_decide_eq_true_2 by done. simpl.
      assert (size (_hash this) <> 0%nat)
          by (apply (map_size_ne_0_lookup_2 _ key); by rewrite Hlook).
        lia.
    + rewrite bool_decide_eq_false_2 by (by intros [? ?]). done.
Qed.

End AssociativeArrayLaws.

Lemma AssociativeArray_reads_as_a_map_witness :
  let this :=
    AssociativeArray.set AssociativeArray.definedValue
      AssociativeArray.objectPrototype AssociativeArray.new
      "a" (AssociativeArray.VObject 1) in
  AssociativeArray.get AssociativeArray.objectPrototype
    (AssociativeArray.set AssociativeArray.definedValue
       AssociativeArray.objectPrototype this "toString"
       (AssociativeArray.VString "x")) "toString"
  = AssociativeArray.VString "x" /\
  AssociativeArray.contains AssociativeArray.definedValue
    AssociativeArray.objectPrototype
    (fst (AssociativeArray.remove AssociativeArray.definedValue
            AssociativeArray.objectPrototype this "a")) "a" = false /\
  AssociativeArray.get AssociativeArray.objectPrototype
    (fst (AssociativeArray.remove AssociativeArray.definedValue
            AssociativeArray.objectPrototype this "a")) "a"
  = AssociativeArray.VUndefined.
Proof.
  intros this. split.
  - destruct (AssociativeArray_reads_as_a_map AssociativeArray.definedValue
                AssociativeArray.objectPrototype eq_refl this "toString"
                (AssociativeArray.VString "x"))
      as (Hset & _).
    destruct Hset as (Hget & _); [discriminate | exact Hget].
  - destruct (AssociativeArray_reads_as_a_map AssociativeArray.definedValue
                AssociativeArray.objectPrototype eq_refl this "a"
                (AssociativeArray.VObject 1))
      as (_ & _ & _ & Hremoved).
    destruct (Hremoved eq_refl) as [Hcontains Hget].
    split; [exact Hcontains | apply Hget; reflexivity].
Defined.

(** Under [__proto__] the collection is no map: the assignment runs the
    setter of [Object.prototype], which ignores a string, so the value is
    pushed on the values array while the key goes on reading as the
    prototype. *)
Example AssociativeArray_proto_key_is_not_stored :
  let this :=
    AssociativeArray.set AssociativeArray.definedValue
      AssociativeArray.objectPrototype AssociativeArray.new
      "__proto__" (AssociativeArray.VString "x") in
  AssociativeArray.values this = [AssociativeArray.VString "x"] /\
  AssociativeArray._hash this = ∅ /\
  AssociativeArray.get AssociativeArray.objectPrototype this "__proto__"
  = AssociativeArray.VObject 0.
Proof. by vm_compute. Qed.

Lemma AssociativeArray_inherited_key_drops_last_witness :
  let this :=
    AssociativeArray.run AssociativeArray.definedValue
      AssociativeArray.objectPrototype AssociativeArray.new
      [AssociativeArray.CallSet "a" (AssociativeArray.VObject 1);
       AssociativeArray.CallSet "b" (AssociativeArray.VObject 2)] in
  AssociativeArray.remove AssociativeArray.definedValue
    AssociativeArray.objectPrototype this "toString"
  = ({| AssociativeArray._array := [AssociativeArray.VObject 1];
        AssociativeArray._hash := AssociativeArray._hash this |}, true).
Proof.
  intros this.
  destruct (AssociativeArray_inherited_key_drops_last
              AssociativeArray.definedValue AssociativeArray.objectPrototype
              this "toString" (AssociativeArray.VObject 0)
              (AssociativeArray.VObject 2) [AssociativeArray.VObject 1])
    as (Hremove & _ & _); [reflexivity .. | exact Hremove].
Defined.

Lemma AssociativeArray_removeAll_is_new_witness :
  AssociativeArray.removeAll
    (AssociativeArray.run AssociativeArray.definedValue
       AssociativeArray.objectPrototype AssociativeArray.new
       [AssociativeArray.CallSet "a" (AssociativeArray.VObject 1);
        AssociativeArray.CallSet "b" (AssociativeArray.VObject 2)])
  = AssociativeArray.new.
Proof.
  destruct (AssociativeArray_removeAll_is_new AssociativeArray.definedValue
              AssociativeArray.objectPrototype eq_refl
              (AssociativeArray.run AssociativeArray.definedValue
                 AssociativeArray.objectPrototype AssociativeArray.new
                 [AssociativeArray.CallSet "a" (AssociativeArray.VObject 1);
                  AssociativeArray.CallSet "b" (AssociativeArray.VObject 2)]))
    as (Hnew & _).
  - apply run_wellFormed; [reflexivity | | apply new_wellFormed].
    repeat constructor; vm_compute; discriminate.
  - exact Hnew.
Defined.

Lemma AssociativeArray_length_counts_keys_witness :
  let this :=
    AssociativeArray.run AssociativeArray.definedValue
      AssociativeArray.objectPrototype AssociativeArray.new
      [AssociativeArray.CallSet "a" (AssociativeArray.VObject 1);
       AssociativeArray.CallSet "b" (AssociativeArray.VObject 2)] in
  AssociativeArray.length
    (AssociativeArray.set AssociativeArray.definedValue
       AssociativeArray.objectPrototype this "c" (AssociativeArray.VObject 1))
  = (if AssociativeArray.contains AssociativeArray.definedValue
          AssociativeArray.objectPrototype this "c"
     then AssociativeArray.length this
     else S (AssociativeArray.length this)).
Proof.
  intros this.
  destruct (AssociativeArray_length_counts_keys AssociativeArray.definedValue
              AssociativeArray.objectPrototype eq_refl this "c"
              (AssociativeArray.VObject 1))
    as (Hset & _).
  - apply run_wellFormed; [reflexivity | | apply new_wellFormed].
    repeat constructor; vm_compute; discriminate.
  - reflexivity.
  - apply Hset; [reflexivity | discriminate].
Defined.
